(** * Ghostloader: the preloading engine of src/index.js

    A shallow embedding of the [Ghostloader] class (queue builder, drain
    loop, fetch pipeline, cache manager, statistics) and the properties of
    its queue, scheduler and cache.

    The engine is single-threaded and event-loop driven.  Every method body
    is cut at its [await] points; each piece is a function on the state and
    the event loop is a step function over explicit events.

    The hover listeners and their timers are a layer of their own on top
    of the engine; for the engine a hover that has lasted is one event.

    Outside the model: the log methods, the document swap of an instant
    transition (its rebuild, 100 ms later, is an event), [destroy], and
    failures of the [match], [keys] and [delete] calls of the platform
    cache (they succeed).  A write to the cache can fail: [Cache.put]
    refuses some requests and responses, and the body of a response can be
    lost on the way. *)

From Stdlib Require Import ZArith QArith String Ascii List Bool Lia Sorted.
From stdpp Require Import gmap strings list.

Local Open Scope Z_scope.

(** ** JavaScript primitives *)

Module JS.

(** [a || b] on numbers: [0] is falsy. *)
Definition or_num (a b : Z) : Z := if a =? 0 then b else a.

(** Truthiness of a [string | null] value: [null] and [''] are falsy. *)
Definition truthy (v : option string) : bool :=
  match v with
  | Some s => negb (String.eqb s "")
  | None => false
  end.

(** [a || b] on [string | null] values. *)
Definition or_str (a b : option string) : option string :=
  if truthy a then a else b.

(** *** Number.prototype.toString on integers *)

Definition digit_char (d : Z) : ascii := ascii_of_N (Z.to_N (48 + d)).

Fixpoint digits_of (fuel : nat) (n : Z) (acc : string) : string :=
  match fuel with
  | O => acc
  | S fuel' =>
      let acc' := String (digit_char (n mod 10)) acc in
      if n / 10 =? 0 then acc' else digits_of fuel' (n / 10) acc'
  end.

(** Decimal digits of [n >= 0]; [n < 2 ^ fuel] is enough fuel. *)
Definition nat_digits (n : Z) : string :=
  digits_of (S (Z.to_nat (Z.log2 n))) n "".

(** Integers of the size of [Date.now()] print as plain decimals (the
    exponent form of magnitudes from 1e21 on is outside the model). *)
Definition toString (z : Z) : string :=
  if z <? 0 then String "-" (nat_digits (- z)) else nat_digits z.

(** *** parseInt(s, 10): [None] is NaN *)

Definition is_ws (c : ascii) : bool :=
  let n := N_of_ascii c in
  (((9 <=? n) && (n <=? 13)) || (n =? 32))%N.

Fixpoint skip_ws (s : string) : string :=
  match s with
  | String c s' => if is_ws c then skip_ws s' else s
  | EmptyString => s
  end.

Definition digit_val (c : ascii) : option Z :=
  let n := Z.of_N (N_of_ascii c) in
  if (48 <=? n) && (n <=? 57) then Some (n - 48) else None.

(** The longest prefix of decimal digits; [acc] is [None] until a digit is
    read. *)
Fixpoint read_digits (s : string) (acc : option Z) : option Z :=
  match s with
  | EmptyString => acc
  | String c s' =>
      match digit_val c with
      | Some d => read_digits s' (Some (10 * default 0 acc + d))
      | None => acc
      end
  end.

Definition parseInt (s : string) : option Z :=
  match skip_ws s with
  | String "-" s' => Z.opp <$> read_digits s' None
  | String "+" s' => read_digits s' None
  | s' => read_digits s' None
  end.

(** *** Numbers that can be NaN or infinite

    Finite values are exact rationals: binary64 rounding and the sign of
    zero are not modelled.  NaN and the infinities behave as in IEEE 754. *)

Inductive number :=
  | NaN
  | Infinity (negative : bool)
  | Finite (q : Q).

Definition of_Z (z : Z) : number := Finite (inject_Z z).

Definition Qneg (q : Q) : bool := (Qnum q <? 0).
Definition Qzero (q : Q) : bool := (Qnum q =? 0).

Definition num_div (a b : number) : number :=
  match a, b with
  | NaN, _ | _, NaN => NaN
  | Infinity _, Infinity _ => NaN
  | Infinity s, Finite y => Infinity (xorb s (Qneg y))
  | Finite _, Infinity _ => Finite 0
  | Finite x, Finite y =>
      if Qzero y then (if Qzero x then NaN else Infinity (Qneg x))
      else Finite (Qred (x / y))
  end.

Definition num_mul (a b : number) : number :=
  match a, b with
  | NaN, _ | _, NaN => NaN
  | Infinity s, Infinity t => Infinity (xorb s t)
  | Infinity s, Finite y | Finite y, Infinity s =>
      if Qzero y then NaN else Infinity (xorb s (Qneg y))
  | Finite x, Finite y => Finite (Qred (x * y))
  end.

Definition num_add (a b : number) : number :=
  match a, b with
  | NaN, _ | _, NaN => NaN
  | Infinity s, Infinity t => if eqb s t then Infinity s else NaN
  | Infinity s, Finite _ | Finite _, Infinity s => Infinity s
  | Finite x, Finite y => Finite (Qred (x + y))
  end.

Definition pad2 (n : Z) : string :=
  if n <? 10 then String "0" (nat_digits n) else nat_digits n.

(** [x.toFixed(2)]: the integer [n] with [n / 100] closest to [|x|], the
    larger one on a tie.  The value printed is the exact rational: where
    binary64 has rounded a quotient to the other side of a tie, the
    browser prints the neighbouring digit. *)
Definition toFixed2 (x : number) : string :=
  match x with
  | NaN => "NaN"
  | Infinity false => "Infinity"
  | Infinity true => "-Infinity"
  | Finite q =>
      let p := Z.abs (Qnum q) in
      let d := Z.pos (Qden q) in
      let n := (200 * p + d) / (2 * d) in
      (if Qneg q then "-" else "") +:+
      nat_digits (n / 100) +:+ "." +:+ pad2 (n mod 100)
  end.

(** *** Header values

    [Headers] normalizes a value (HTTP whitespace is stripped from both
    ends) and refuses one that holds NUL, LF or CR. *)

Definition is_http_ws (c : ascii) : bool :=
  let n := N_of_ascii c in
  ((n =? 9) || (n =? 10) || (n =? 13) || (n =? 32))%N.

Fixpoint trim_start (s : string) : string :=
  match s with
  | String c s' => if is_http_ws c then trim_start s' else s
  | EmptyString => s
  end.

Fixpoint trim_end (s : string) : string :=
  match s with
  | String c s' =>
      match trim_end s' with
      | EmptyString => if is_http_ws c then EmptyString else String c EmptyString
      | t => String c t
      end
  | EmptyString => s
  end.

Definition trim (s : string) : string := trim_start (trim_end s).

Fixpoint has_char (p : ascii -> bool) (s : string) : bool :=
  match s with
  | String c s' => p c || has_char p s'
  | EmptyString => false
  end.

(** The value as a [Headers] object holds it; [None] when it throws. *)
Definition headerValue (s : string) : option string :=
  let v := trim s in
  let bad c := let n := N_of_ascii c in ((n =? 0) || (n =? 10) || (n =? 13))%N in
  if has_char bad v then None else Some v.

(** The members of a comma-separated header value. *)
Fixpoint split_commas (s : string) : list string :=
  match s with
  | EmptyString => [EmptyString]
  | String c s' =>
      if Ascii.eqb c "," then EmptyString :: split_commas s'
      else match split_commas s' with
           | x :: xs => String c x :: xs
           | [] => [String c EmptyString]
           end
  end.

End JS.

(** ** The platform's URL class

    [new URL(input, base)], the [hash] setter, and the [href], [origin],
    [protocol], [username] and [password] getters are the browser's.  The
    engine is stated over any implementation of them: nothing is assumed
    of the parser. *)

Class URLPlatform := {
  URLRecord : Type;
  (** [new URL(input, base)]; [None] when the constructor throws. *)
  URL_new : string -> option string -> option URLRecord;
  (** [u.hash = ''] *)
  URL_set_hash_empty : URLRecord -> URLRecord;
  URL_href : URLRecord -> string;
  URL_origin : URLRecord -> string;
  (** The scheme and a colon. *)
  URL_protocol : URLRecord -> string;
  URL_username : URLRecord -> string;
  URL_password : URLRecord -> string
}.

(** ** Data model *)

(** A URL as the engine holds it: a string, or [null] when
    [normalizeUrl] failed on a server hint. *)
Abbreviation url := (option string).

(** A DOM element, with what the engine reads of it: [matches] reads the
    tag and the content attributes, [el.href] is the resolved property, and
    [getBoundingClientRect()] gives [top] and [bottom] (whole pixels). *)
Record Element := {
  e_tag : string;
  e_attrs : list (string * string);
  e_href : string;
  e_top : Z;
  e_bottom : Z
}.

(** [<meta name="ghostloader-hint" content=... data-priority=...>] *)
Record MetaTag := {
  mt_content : option string;
  mt_priority : option string
}.

(** An entry of the [ghostloaderHints] array of a JSON-LD block. *)
Record JsonHint := {
  h_url : option string;
  h_priority : option Z
}.

(** A JSON-LD script: [None] when [JSON.parse] throws or the block has no
    [ghostloaderHints] array. *)
Definition JsonLd := option (list JsonHint).

(** [navigator.connection] *)
Record Connection := {
  effectiveType : option string;
  downlink : option Q;
  saveData : bool
}.

(** A [Response].  [r_content_length] is the content-length header, a
    decimal integer when present (a value on which [parseInt] yields NaN is
    outside the model); [r_headers] holds the other headers under
    lower-case names. *)
Record Response := {
  r_ok : bool;
  r_status : Z;
  r_content_length : option Z;
  r_headers : list (string * string);
  r_body : string
}.

(** What [fetch] settles to: a response, or a rejection (network error, or
    the abort of the request timeout). *)
Inductive FetchResult :=
  | Resolved (r : Response)
  | Rejected.

(** The [metadata] argument of [storeInCache]; a missing field is
    [undefined]. *)
Record Metadata := {
  md_timestamp : option Z;
  md_version : option string;
  md_size : option Z
}.

(** A record of the in-memory fallback cache. *)
Record CacheEntry := {
  c_url : url;
  c_content : string;
  c_timestamp : Z;
  c_version : string;
  c_size : Z
}.

Record QueueItem := {
  q_url : url;
  q_element : option Element;
  q_priority : Z;
  q_timestamp : Z;
  q_source : option string
}.

Record Config := {
  cacheMode : string;
  instantHover : bool;
  maxConcurrent : Z;
  selector : Element -> bool;
  initialDelay : Z;
  betweenDelay : Z;
  hoverDelay : Z;
  excludeSelectors : list (Element -> bool);
  excludePatterns : list (string -> bool);
  fetchHeaders : list (string * string);
  requestTimeout : Z;
  connectionAware : bool;
  dataLimit : Z;
  bandwidthThrottle : bool;
  cacheMaxSize : Z;
  cacheExpiration : Z;
  cacheVersion : string;
  crossTabCache : bool;
  debug : bool;
  verboseLogging : bool;
  instantTransitions : bool;
  ssrHints : bool
}.

Record Stats := {
  totalRequests : Z;
  cacheHits : Z;
  cacheMisses : Z;
  bytesTransferred : Z;
  averageResponseTime : JS.number;
  connectionType : option string
}.

(** The fields of a [Ghostloader] object.  [cache] is the fallback [Map] in
    insertion order; [cacheAPI] is the opened platform cache with its
    entries in insertion order, or [null]; [isPaused] is [undefined] until
    [pause] or [resume] runs. *)
Record Ghostloader := {
  config : Config;
  queue : list QueueItem;
  processing : gset url;
  processed : gset url;
  cache : list (url * CacheEntry);
  cacheAPI : option (list (url * Response));
  isInitialized : bool;
  activeRequests : Z;
  dataUsed : Z;
  sessionStart : Z;
  connectionInfo : option Connection;
  bandwidthEstimate : option Q;
  ssrHintsReceived : gset string;
  stats : Stats;
  broadcastChannel : bool;
  isPaused : option bool
}.

(** The page: [window.location], the viewport height and the elements, in
    document order, with the hint tags of the head. *)
Record Page := {
  location_href : string;
  location_origin : string;
  innerHeight : Z;
  elements : list Element;
  metaHints : list MetaTag;
  jsonLdScripts : list JsonLd
}.

(** The browser around the engine: [Date.now()], the page, and the
    optional facilities ([navigator.connection], [BroadcastChannel], and the
    cache that [caches.open] returns, [None] when there is none). *)
Record Env := {
  clock : Z;
  page : Page;
  nav_connection : option Connection;
  has_BroadcastChannel : bool;
  caches : option (list (url * Response))
}.

(** A cross-tab message. *)
Inductive Message :=
  | CacheUpdate (u : url) (timestamp : Z)
  | CacheInvalidate (u : url)
  | CacheClear (timestamp : Z).

(** Where a running [fetchAndCache] call waits. *)
Inductive FetchPhase :=
  | AwaitCache (cached : option Response)
  | AwaitNetwork
  | AwaitBody (response : Response) (metadata : Metadata).

Record Fetch := {
  f_item : QueueItem;
  f_start : Z;
  f_phase : FetchPhase
}.

(** The event loop: the [processQueue] calls suspended in their
    between-delay (each holds its item), the running [fetchAndCache] calls,
    the pending 10 ms continuation timers, the [start] calls suspended in
    the initial delay; and the history of what was done: the URLs handed to
    [fetchAndCache], the URLs requested from the network and the messages
    posted, latest first. *)
Record Tasks := {
  delayed : list QueueItem;
  running : list Fetch;
  timers : nat;
  starting : nat;
  dispatched : list url;
  requested : list url;
  posted : list Message
}.

Record World := {
  env : Env;
  gl : Ghostloader;
  tasks : Tasks
}.

(** *** Field updates *)

Definition set_config (v : Config) (x : Ghostloader) : Ghostloader :=
  Build_Ghostloader v (queue x) (processing x) (processed x) (cache x)
    (cacheAPI x) (isInitialized x) (activeRequests x) (dataUsed x)
    (sessionStart x) (connectionInfo x) (bandwidthEstimate x)
    (ssrHintsReceived x) (stats x) (broadcastChannel x) (isPaused x).
Definition set_queue (v : list QueueItem) (x : Ghostloader) : Ghostloader :=
  Build_Ghostloader (config x) v (processing x) (processed x) (cache x)
    (cacheAPI x) (isInitialized x) (activeRequests x) (dataUsed x)
    (sessionStart x) (connectionInfo x) (bandwidthEstimate x)
    (ssrHintsReceived x) (stats x) (broadcastChannel x) (isPaused x).
Definition set_processing (v : gset url) (x : Ghostloader) : Ghostloader :=
  Build_Ghostloader (config x) (queue x) v (processed x) (cache x)
    (cacheAPI x) (isInitialized x) (activeRequests x) (dataUsed x)
    (sessionStart x) (connectionInfo x) (bandwidthEstimate x)
    (ssrHintsReceived x) (stats x) (broadcastChannel x) (isPaused x).
Definition set_processed (v : gset url) (x : Ghostloader) : Ghostloader :=
  Build_Ghostloader (config x) (queue x) (processing x) v (cache x)
    (cacheAPI x) (isInitialized x) (activeRequests x) (dataUsed x)
    (sessionStart x) (connectionInfo x) (bandwidthEstimate x)
    (ssrHintsReceived x) (stats x) (broadcastChannel x) (isPaused x).
Definition set_cache (v : list (url * CacheEntry)) (x : Ghostloader) : Ghostloader :=
  Build_Ghostloader (config x) (queue x) (processing x) (processed x) v
    (cacheAPI x) (isInitialized x) (activeRequests x) (dataUsed x)
    (sessionStart x) (connectionInfo x) (bandwidthEstimate x)
    (ssrHintsReceived x) (stats x) (broadcastChannel x) (isPaused x).
Definition set_cacheAPI (v : option (list (url * Response))) (x : Ghostloader) : Ghostloader :=
  Build_Ghostloader (config x) (queue x) (processing x) (processed x)
    (cache x) v (isInitialized x) (activeRequests x) (dataUsed x)
    (sessionStart x) (connectionInfo x) (bandwidthEstimate x)
    (ssrHintsReceived x) (stats x) (broadcastChannel x) (isPaused x).
Definition set_isInitialized (v : bool) (x : Ghostloader) : Ghostloader :=
  Build_Ghostloader (config x) (queue x) (processing x) (processed x)
    (cache x) (cacheAPI x) v (activeRequests x) (dataUsed x) (sessionStart x)
    (connectionInfo x) (bandwidthEstimate x) (ssrHintsReceived x) (stats x)
    (broadcastChannel x) (isPaused x).
Definition set_activeRequests (v : Z) (x : Ghostloader) : Ghostloader :=
  Build_Ghostloader (config x) (queue x) (processing x) (processed x)
    (cache x) (cacheAPI x) (isInitialized x) v (dataUsed x) (sessionStart x)
    (connectionInfo x) (bandwidthEstimate x) (ssrHintsReceived x) (stats x)
    (broadcastChannel x) (isPaused x).
Definition set_dataUsed (v : Z) (x : Ghostloader) : Ghostloader :=
  Build_Ghostloader (config x) (queue x) (processing x) (processed x)
    (cache x) (cacheAPI x) (isInitialized x) (activeRequests x) v
    (sessionStart x) (connectionInfo x) (bandwidthEstimate x)
    (ssrHintsReceived x) (stats x) (broadcastChannel x) (isPaused x).
Definition set_connectionInfo (v : option Connection) (x : Ghostloader) : Ghostloader :=
  Build_Ghostloader (config x) (queue x) (processing x) (processed x)
    (cache x) (cacheAPI x) (isInitialized x) (activeRequests x) (dataUsed x)
    (sessionStart x) v (bandwidthEstimate x) (ssrHintsReceived x) (stats x)
    (broadcastChannel x) (isPaused x).
Definition set_bandwidthEstimate (v : option Q) (x : Ghostloader) : Ghostloader :=
  Build_Ghostloader (config x) (queue x) (processing x) (processed x)
    (cache x) (cacheAPI x) (isInitialized x) (activeRequests x) (dataUsed x)
    (sessionStart x) (connectionInfo x) v (ssrHintsReceived x) (stats x)
    (broadcastChannel x) (isPaused x).
Definition set_ssrHintsReceived (v : gset string) (x : Ghostloader) : Ghostloader :=
  Build_Ghostloader (config x) (queue x) (processing x) (processed x)
    (cache x) (cacheAPI x) (isInitialized x) (activeRequests x) (dataUsed x)
    (sessionStart x) (connectionInfo x) (bandwidthEstimate x) v (stats x)
    (broadcastChannel x) (isPaused x).
Definition set_stats (v : Stats) (x : Ghostloader) : Ghostloader :=
  Build_Ghostloader (config x) (queue x) (processing x) (processed x)
    (cache x) (cacheAPI x) (isInitialized x) (activeRequests x) (dataUsed x)
    (sessionStart x) (connectionInfo x) (bandwidthEstimate x)
    (ssrHintsReceived x) v (broadcastChannel x) (isPaused x).
Definition set_broadcastChannel (v : bool) (x : Ghostloader) : Ghostloader :=
  Build_Ghostloader (config x) (queue x) (processing x) (processed x)
    (cache x) (cacheAPI x) (isInitialized x) (activeRequests x) (dataUsed x)
    (sessionStart x) (connectionInfo x) (bandwidthEstimate x)
    (ssrHintsReceived x) (stats x) v (isPaused x).
Definition set_isPaused (v : option bool) (x : Ghostloader) : Ghostloader :=
  Build_Ghostloader (config x) (queue x) (processing x) (processed x)
    (cache x) (cacheAPI x) (isInitialized x) (activeRequests x) (dataUsed x)
    (sessionStart x) (connectionInfo x) (bandwidthEstimate x)
    (ssrHintsReceived x) (stats x) (broadcastChannel x) v.

Definition set_totalRequests (v : Z) (x : Stats) : Stats :=
  Build_Stats v (cacheHits x) (cacheMisses x) (bytesTransferred x)
    (averageResponseTime x) (connectionType x).
Definition set_cacheHits (v : Z) (x : Stats) : Stats :=
  Build_Stats (totalRequests x) v (cacheMisses x) (bytesTransferred x)
    (averageResponseTime x) (connectionType x).
Definition set_cacheMisses (v : Z) (x : Stats) : Stats :=
  Build_Stats (totalRequests x) (cacheHits x) v (bytesTransferred x)
    (averageResponseTime x) (connectionType x).
Definition set_bytesTransferred (v : Z) (x : Stats) : Stats :=
  Build_Stats (totalRequests x) (cacheHits x) (cacheMisses x) v
    (averageResponseTime x) (connectionType x).
Definition set_averageResponseTime (v : JS.number) (x : Stats) : Stats :=
  Build_Stats (totalRequests x) (cacheHits x) (cacheMisses x)
    (bytesTransferred x) v (connectionType x).
Definition set_connectionType (v : option string) (x : Stats) : Stats :=
  Build_Stats (totalRequests x) (cacheHits x) (cacheMisses x)
    (bytesTransferred x) (averageResponseTime x) v.

Definition set_delayed (v : list QueueItem) (x : Tasks) : Tasks :=
  Build_Tasks v (running x) (timers x) (starting x) (dispatched x)
    (requested x) (posted x).
Definition set_running (v : list Fetch) (x : Tasks) : Tasks :=
  Build_Tasks (delayed x) v (timers x) (starting x) (dispatched x)
    (requested x) (posted x).
Definition set_timers (v : nat) (x : Tasks) : Tasks :=
  Build_Tasks (delayed x) (running x) v (starting x) (dispatched x)
    (requested x) (posted x).
Definition set_starting (v : nat) (x : Tasks) : Tasks :=
  Build_Tasks (delayed x) (running x) (timers x) v (dispatched x)
    (requested x) (posted x).
Definition set_dispatched (v : list url) (x : Tasks) : Tasks :=
  Build_Tasks (delayed x) (running x) (timers x) (starting x) v (requested x)
    (posted x).
Definition set_requested (v : list url) (x : Tasks) : Tasks :=
  Build_Tasks (delayed x) (running x) (timers x) (starting x) (dispatched x) v
    (posted x).
Definition set_posted (v : list Message) (x : Tasks) : Tasks :=
  Build_Tasks (delayed x) (running x) (timers x) (starting x) (dispatched x)
    (requested x) v.

Definition set_clock (v : Z) (x : Env) : Env :=
  Build_Env v (page x) (nav_connection x) (has_BroadcastChannel x) (caches x).
Definition set_page (v : Page) (x : Env) : Env :=
  Build_Env (clock x) v (nav_connection x) (has_BroadcastChannel x) (caches x).
Definition set_nav_connection (v : option Connection) (x : Env) : Env :=
  Build_Env (clock x) (page x) v (has_BroadcastChannel x) (caches x).

(** Options of [configure]: one key of the configuration replaced. *)
Definition set_maxConcurrent (v : Z) (x : Config) : Config :=
  Build_Config (cacheMode x) (instantHover x) v (selector x) (initialDelay x)
    (betweenDelay x) (hoverDelay x) (excludeSelectors x) (excludePatterns x)
    (fetchHeaders x) (requestTimeout x) (connectionAware x) (dataLimit x)
    (bandwidthThrottle x) (cacheMaxSize x) (cacheExpiration x)
    (cacheVersion x) (crossTabCache x) (debug x) (verboseLogging x)
    (instantTransitions x) (ssrHints x).
Definition set_initialDelay (v : Z) (x : Config) : Config :=
  Build_Config (cacheMode x) (instantHover x) (maxConcurrent x) (selector x) v
    (betweenDelay x) (hoverDelay x) (excludeSelectors x) (excludePatterns x)
    (fetchHeaders x) (requestTimeout x) (connectionAware x) (dataLimit x)
    (bandwidthThrottle x) (cacheMaxSize x) (cacheExpiration x)
    (cacheVersion x) (crossTabCache x) (debug x) (verboseLogging x)
    (instantTransitions x) (ssrHints x).
Definition set_betweenDelay (v : Z) (x : Config) : Config :=
  Build_Config (cacheMode x) (instantHover x) (maxConcurrent x) (selector x)
    (initialDelay x) v (hoverDelay x) (excludeSelectors x) (excludePatterns x)
    (fetchHeaders x) (requestTimeout x) (connectionAware x) (dataLimit x)
    (bandwidthThrottle x) (cacheMaxSize x) (cacheExpiration x)
    (cacheVersion x) (crossTabCache x) (debug x) (verboseLogging x)
    (instantTransitions x) (ssrHints x).
Definition set_connectionAware (v : bool) (x : Config) : Config :=
  Build_Config (cacheMode x) (instantHover x) (maxConcurrent x) (selector x)
    (initialDelay x) (betweenDelay x) (hoverDelay x) (excludeSelectors x)
    (excludePatterns x) (fetchHeaders x) (requestTimeout x) v (dataLimit x)
    (bandwidthThrottle x) (cacheMaxSize x) (cacheExpiration x)
    (cacheVersion x) (crossTabCache x) (debug x) (verboseLogging x)
    (instantTransitions x) (ssrHints x).
Definition set_dataLimit (v : Z) (x : Config) : Config :=
  Build_Config (cacheMode x) (instantHover x) (maxConcurrent x) (selector x)
    (initialDelay x) (betweenDelay x) (hoverDelay x) (excludeSelectors x)
    (excludePatterns x) (fetchHeaders x) (requestTimeout x)
    (connectionAware x) v (bandwidthThrottle x) (cacheMaxSize x)
    (cacheExpiration x) (cacheVersion x) (crossTabCache x) (debug x)
    (verboseLogging x) (instantTransitions x) (ssrHints x).
Definition set_cacheMaxSize (v : Z) (x : Config) : Config :=
  Build_Config (cacheMode x) (instantHover x) (maxConcurrent x) (selector x)
    (initialDelay x) (betweenDelay x) (hoverDelay x) (excludeSelectors x)
    (excludePatterns x) (fetchHeaders x) (requestTimeout x)
    (connectionAware x) (dataLimit x) (bandwidthThrottle x) v
    (cacheExpiration x) (cacheVersion x) (crossTabCache x) (debug x)
    (verboseLogging x) (instantTransitions x) (ssrHints x).
Definition set_cacheExpiration (v : Z) (x : Config) : Config :=
  Build_Config (cacheMode x) (instantHover x) (maxConcurrent x) (selector x)
    (initialDelay x) (betweenDelay x) (hoverDelay x) (excludeSelectors x)
    (excludePatterns x) (fetchHeaders x) (requestTimeout x)
    (connectionAware x) (dataLimit x) (bandwidthThrottle x) (cacheMaxSize x) v
    (cacheVersion x) (crossTabCache x) (debug x) (verboseLogging x)
    (instantTransitions x) (ssrHints x).

Definition upd_gl (f : Ghostloader -> Ghostloader) (w : World) : World :=
  {| env := env w; gl := f (gl w); tasks := tasks w |}.
Definition upd_tasks (f : Tasks -> Tasks) (w : World) : World :=
  {| env := env w; gl := gl w; tasks := f (tasks w) |}.
Definition upd_env (f : Env -> Env) (w : World) : World :=
  {| env := f (env w); gl := gl w; tasks := tasks w |}.
Definition upd_stats (f : Stats -> Stats) (g : Ghostloader) : Ghostloader :=
  set_stats (f (stats g)) g.

(** ** Containers *)

(** A JS [Map] (and an object used as one), in insertion order: [set] on a
    present key keeps its place, [delete] removes it. *)
Section JsMap.
Context {K V : Type} `{EqDecision K}.

Fixpoint map_get (k : K) (m : list (K * V)) : option V :=
  match m with
  | [] => None
  | (k', v) :: m' => if decide (k' = k) then Some v else map_get k m'
  end.

Definition map_has (k : K) (m : list (K * V)) : bool :=
  match map_get k m with Some _ => true | None => false end.

Fixpoint map_set (k : K) (v : V) (m : list (K * V)) : list (K * V) :=
  match m with
  | [] => [(k, v)]
  | (k', v') :: m' =>
      if decide (k' = k) then (k, v) :: m' else (k', v') :: map_set k v m'
  end.

Definition map_delete (k : K) (m : list (K * V)) : list (K * V) :=
  List.filter (fun e => negb (bool_decide (e.1 = k))) m.

(** [Cache.put]: the entry of the same request is dropped and the new
    one goes last. *)
Definition store_put (k : K) (v : V) (m : list (K * V)) : list (K * V) :=
  map_delete k m ++ [(k, v)].

Definition delete_all (ks : list K) (m : list (K * V)) : list (K * V) :=
  fold_left (fun acc k => map_delete k acc) ks m.
End JsMap.

(** [Array.prototype.sort] with the comparator [a.key - b.key]: a stable
    sort by ascending key. *)
Section Sort.
Context {A : Type} (key : A -> Z).

Fixpoint insert_by (x : A) (l : list A) : list A :=
  match l with
  | [] => [x]
  | y :: l' => if key x <=? key y then x :: l else y :: insert_by x l'
  end.

Definition sort_by (l : list A) : list A := foldr insert_by [] l.
End Sort.

(** [l.slice(0, e)]: a negative [e] counts from the end, and both ends are
    clamped to the array. *)
Definition slice_to {A} (e : Z) (l : list A) : list A :=
  let len := Z.of_nat (length l) in
  let k := if e <? 0 then Z.max (len + e) 0 else Z.min e len in
  take (Z.to_nat k) l.

(** [findIndex]: [-1] when no element passes. *)
Fixpoint findIndex {A} (p : A -> bool) (l : list A) : Z :=
  match l with
  | [] => -1
  | x :: l' =>
      if p x then 0
      else let i := findIndex p l' in if i <? 0 then -1 else i + 1
  end.

(** [l.splice(i, 1)]: the array without position [i], and what was there. *)
Definition splice1 {A} (i : nat) (l : list A) : list A * option A :=
  (take i l ++ drop (S i) l, l !! i).

(** ** The engine *)

Section Engine.
Context `{URLPlatform}.

(** *** URL normalizer and filters *)

Definition normalizeUrl (e : Env) (raw : string) : url :=
  match URL_new raw (Some (location_href (page e))) with
  | Some urlObj => Some (URL_href (URL_set_hash_empty urlObj))
  | None => None
  end.

Definition shouldPreload (e : Env) (c : Config) (u : string) : bool :=
  match URL_new u None with
  | Some urlObj =>
      if String.eqb (cacheMode c) "local"
      then String.eqb (URL_origin urlObj) (location_origin (page e))
      else true
  | None => false
  end.

Definition shouldExclude (c : Config) (element : Element) (u : string) : bool :=
  existsb (fun sel => sel element) (excludeSelectors c)
  || existsb (fun pattern => pattern u) (excludePatterns c).

(** *** Connection monitor *)

Definition withinDataLimits (g : Ghostloader) : bool :=
  match connectionInfo g with
  | Some c => if saveData c then false else negb (dataLimit (config g) <=? dataUsed g)
  | None => negb (dataLimit (config g) <=? dataUsed g)
  end.

Definition getEffectiveMaxConcurrent (g : Ghostloader) : Z :=
  match connectionInfo g with
  | Some c =>
      if negb (bandwidthThrottle (config g)) then maxConcurrent (config g)
      else
        let m := maxConcurrent (config g) in
        match effectiveType c with
        | Some "slow-2g" => 1
        | Some "2g" => 1
        | Some "3g" => 2
        | Some "4g" => JS.or_num m m
        | Some "5g" => JS.or_num m m
        | _ => m
        end
  | None => maxConcurrent (config g)
  end.

Definition detectConnection (e : Env) (g : Ghostloader) : Ghostloader :=
  match nav_connection e with
  | Some c =>
      let g := set_connectionInfo (Some c) g in
      let g := upd_stats (set_connectionType
                 (JS.or_str (effectiveType c) (Some "unknown"))) g in
      match downlink c with
      | Some d =>
          if JS.Qzero d then g
          else set_bandwidthEstimate (Some (Qred (d * 1000 * 1000))) g
      | None => g
      end
  | None => g
  end.

(** *** Priority queue builder *)

Definition isVisible (e : Env) (link : Element) : bool :=
  (e_top link <? innerHeight (page e)) && (0 <? e_bottom link).

(** One pass of the [forEach] of [buildQueue]: the entry pushed for
    [link], if any. *)
Definition linkEntry (e : Env) (g : Ghostloader) (link : Element) : option QueueItem :=
  match normalizeUrl e (e_href link) with
  | None => None
  | Some href =>
      if negb (JS.truthy (Some href))
         || bool_decide (Some href ∈ processed g)
         || bool_decide (Some href ∈ processing g) then None
      else if shouldExclude (config g) link href then None
      else if negb (shouldPreload e (config g) href) then None
      else if connectionAware (config g) && negb (withinDataLimits g) then None
      else if isVisible e link then
        Some {| q_url := Some href; q_element := Some link;
                q_priority := e_top link; q_timestamp := clock e;
                q_source := None |}
      else None
  end.

Definition buildQueue (e : Env) (g : Ghostloader) : Ghostloader :=
  let links := List.filter (selector (config g)) (elements (page e)) in
  let linkData := omap (linkEntry e g) links in
  set_queue (sort_by q_priority linkData) g.

(** *** SSR hint ingestor *)

Definition metaHint (e : Env) (g : Ghostloader) (meta : MetaTag) : Ghostloader :=
  let priority := JS.or_str (mt_priority meta) (Some "normal") in
  match mt_content meta with
  | Some u =>
      if JS.truthy (Some u) && negb (bool_decide (u ∈ ssrHintsReceived g)) then
        let g := set_ssrHintsReceived ({[u]} ∪ ssrHintsReceived g) g in
        if bool_decide (priority = Some "high") then
          set_queue ({| q_url := normalizeUrl e u; q_element := None;
                        q_priority := -1000; q_timestamp := clock e;
                        q_source := Some "ssr-hint" |} :: queue g) g
        else g
      else g
  | None => g
  end.

Definition jsonHint (e : Env) (g : Ghostloader) (hint : JsonHint) : Ghostloader :=
  match h_url hint with
  | Some u =>
      if JS.truthy (Some u) && negb (bool_decide (u ∈ ssrHintsReceived g)) then
        let g := set_ssrHintsReceived ({[u]} ∪ ssrHintsReceived g) g in
        set_queue ({| q_url := normalizeUrl e u; q_element := None;
                      q_priority := JS.or_num (default 0 (h_priority hint)) 0;
                      q_timestamp := clock e;
                      q_source := Some "ssr-hint-json" |} :: queue g) g
      else g
  | None => g
  end.

Definition jsonLdScript (e : Env) (g : Ghostloader) (script : JsonLd) : Ghostloader :=
  match script with
  | Some hints => fold_left (jsonHint e) hints g
  | None => g
  end.

Definition processSSRHints (e : Env) (g : Ghostloader) : Ghostloader :=
  let g := fold_left (metaHint e) (metaHints (page e)) g in
  fold_left (jsonLdScript e) (jsonLdScripts (page e)) g.

(** *** Cache manager *)

Definition getCachedResponse (g : Ghostloader) (u : url) : option Response :=
  match cacheAPI g with
  | Some store => map_get u store
  | None =>
      match map_get u (cache g) with
      | Some cached =>
          Some {| r_ok := true; r_status := 200; r_content_length := None;
                  r_headers :=
                    [("x-cached-timestamp", JS.toString (c_timestamp cached))];
                  r_body := c_content cached |}
      | None => None
      end
  end.

Definition isInCache (g : Ghostloader) (u : url) : bool :=
  match cacheAPI g with
  | Some store => map_has u store
  | None => map_has u (cache g)
  end.

Definition isCacheExpired (now : Z) (c : Config) (response : Response) : bool :=
  let timestamp :=
    JS.or_str (map_get "x-cached-timestamp" (r_headers response))
              (map_get "x-ghostloader-timestamp" (r_headers response)) in
  match timestamp with
  | Some s =>
      if JS.truthy (Some s) then
        match JS.parseInt s with
        | Some t => cacheExpiration c <? now - t
        | None => false
        end
      else false
  | None => false
  end.

Definition enforceCacheLimit (g : Ghostloader) : Ghostloader :=
  match cacheAPI g with
  | Some store =>
      let keys := store.*1 in
      let len := Z.of_nat (length keys) in
      if cacheMaxSize (config g) <=? len then
        let toRemove := slice_to (len - cacheMaxSize (config g) + 10) keys in
        set_cacheAPI (Some (delete_all toRemove store)) g
      else g
  | None =>
      if cacheMaxSize (config g) <=? Z.of_nat (length (cache g)) then
        let entries := sort_by (fun a => c_timestamp a.2) (cache g) in
        let toRemove :=
          slice_to (Z.of_nat (length entries) - cacheMaxSize (config g) + 10)
                   entries in
        set_cache (delete_all toRemove.*1 (cache g)) g
      else g
  end.

Definition md_timestamp_or (now : Z) (md : Metadata) : Z :=
  JS.or_num (default 0 (md_timestamp md)) now.

(** The [Vary] header of the response has a member [*]. *)
Definition variesOnAll (response : Response) : bool :=
  match map_get "vary" (r_headers response) with
  | Some v => existsb (fun x => String.eqb (JS.trim x) "*") (JS.split_commas v)
  | None => false
  end.

(** [Cache.put(url, response)] rejects with a [TypeError]: the request
    that the platform builds from [url] (a [null] reads as ['null'], and
    the page is the base) has no URL, or one with credentials or with a
    scheme other than http(s); or the response is a partial one (206) or
    varies on [*]. *)
Definition putRejected (e : Env) (u : url) (response : Response) : bool :=
  match URL_new (default "null" u) (Some (location_href (page e))) with
  | Some request =>
      negb (String.eqb (URL_username request) ""
            && String.eqb (URL_password request) "")
      || negb (String.eqb (URL_protocol request) "http:"
               || String.eqb (URL_protocol request) "https:")
      || (r_status response =? 206)
      || variesOnAll response
  | None => true
  end.

Definition cacheVersion_or (md : Metadata) (g : Ghostloader) : string :=
  default "" (JS.or_str (md_version md) (Some (cacheVersion (config g)))).

(** [storeInCache] after its [await this.enforceCacheLimit()]: the write,
    at the time and on the page of [e].  On the platform cache
    [new Response] throws on a version that is no header value and
    [put] can reject; [storeInCache] catches both and nothing is
    written. *)
Definition cacheWrite (e : Env) (u : url) (response : Response) (md : Metadata)
    (g : Ghostloader) : Ghostloader :=
  let now := clock e in
  match cacheAPI g with
  | Some store =>
      match JS.headerValue (cacheVersion_or md g) with
      | Some version =>
          let headers :=
            map_set "x-ghostloader-size"
              (JS.toString (JS.or_num (default 0 (md_size md)) 0))
              (map_set "x-ghostloader-version" version
                (map_set "x-ghostloader-timestamp"
                   (JS.toString (md_timestamp_or now md)) (r_headers response))) in
          let modifiedResponse :=
            {| r_ok := r_ok response; r_status := r_status response;
               r_content_length := r_content_length response;
               r_headers := headers; r_body := r_body response |} in
          if putRejected e u modifiedResponse then g
          else set_cacheAPI (Some (store_put u modifiedResponse store)) g
      | None => g
      end
  | None =>
      let version := cacheVersion_or md g in
      let content := r_body response in
      set_cache
        (map_set u {| c_url := u; c_content := content;
                      c_timestamp := md_timestamp_or now md;
                      c_version := version;
                      c_size := JS.or_num (default 0 (md_size md))
                                  (Z.of_nat (String.length content)) |}
                 (cache g)) g
  end.

(** [storeInCache] when nothing runs between the eviction pass and the
    write, and the body of the response arrives. *)
Definition storeInCache (e : Env) (u : url) (response : Response)
    (md : Metadata) (g : Ghostloader) : Ghostloader :=
  cacheWrite e u response md (enforceCacheLimit g).

(** The write of [storeInCache] goes through: on the fallback map always,
    on the platform cache when the response can be built and [put] takes
    it. *)
Definition stores (e : Env) (u : url) (response : Response) (md : Metadata)
    (g : Ghostloader) : bool :=
  match cacheAPI g with
  | Some _ =>
      match JS.headerValue (cacheVersion_or md g) with
      | Some _ => negb (putRejected e u response)
      | None => false
      end
  | None => true
  end.

Definition invalidateCache (u : url) (g : Ghostloader) : Ghostloader :=
  match cacheAPI g with
  | Some store => set_cacheAPI (Some (map_delete u store)) g
  | None => set_cache (map_delete u (cache g)) g
  end.

End Engine.

(** *** Statistics *)

Module Snapshot.
Record Features := {
  instantHover : bool;
  instantTransitions : bool;
  connectionAware : bool;
  crossTabCache : bool;
  ssrHints : bool;
  debug : bool;
  verboseLogging : bool
}.

Record Settings := {
  initialDelay : Z;
  betweenDelay : Z;
  hoverDelay : Z;
  maxConcurrent : Z;
  effectiveMaxConcurrent : Z;
  requestTimeout : Z
}.

(** What [getStats()] returns; [cacheSize] is the string ['Cache API'] or
    the size of the fallback map. *)
Record t := {
  queueLength : Z;
  processing : Z;
  processed : Z;
  activeRequests : Z;
  cacheSize : string + Z;
  cacheMaxSize : Z;
  cacheExpiration : Z;
  cacheVersion : string;
  totalRequests : Z;
  cacheHits : Z;
  cacheMisses : Z;
  cacheHitRate : string;
  connectionType : option string;
  bandwidthEstimate : option Q;
  dataUsed : Z;
  dataLimit : Z;
  dataUsagePercent : string;
  sessionDuration : Z;
  averageResponseTime : string;
  bytesTransferred : Z;
  features : Features;
  settings : Settings
}.
End Snapshot.

Section Stats.
Context `{URLPlatform}.

Definition getStats (e : Env) (g : Ghostloader) : Snapshot.t :=
  let c := config g in
  let s := stats g in
  {| Snapshot.queueLength := Z.of_nat (length (queue g));
     Snapshot.processing := Z.of_nat (size (processing g));
     Snapshot.processed := Z.of_nat (size (processed g));
     Snapshot.activeRequests := activeRequests g;
     Snapshot.cacheSize :=
       match cacheAPI g with
       | Some _ => inl "Cache API"
       | None => inr (Z.of_nat (length (cache g)))
       end;
     Snapshot.cacheMaxSize := cacheMaxSize c;
     Snapshot.cacheExpiration := cacheExpiration c;
     Snapshot.cacheVersion := cacheVersion c;
     Snapshot.totalRequests := totalRequests s;
     Snapshot.cacheHits := cacheHits s;
     Snapshot.cacheMisses := cacheMisses s;
     Snapshot.cacheHitRate :=
       if 0 <? totalRequests s then
         JS.toFixed2
           (JS.num_mul
              (JS.num_div (JS.of_Z (cacheHits s)) (JS.of_Z (totalRequests s)))
              (JS.of_Z 100)) +:+ "%"
       else "0%";
     Snapshot.connectionType := connectionType s;
     Snapshot.bandwidthEstimate := bandwidthEstimate g;
     Snapshot.dataUsed := dataUsed g;
     Snapshot.dataLimit := dataLimit c;
     Snapshot.dataUsagePercent :=
       JS.toFixed2
         (JS.num_mul
            (JS.num_div (JS.of_Z (dataUsed g)) (JS.of_Z (dataLimit c)))
            (JS.of_Z 100)) +:+ "%";
     Snapshot.sessionDuration := clock e - sessionStart g;
     Snapshot.averageResponseTime :=
       JS.toFixed2 (averageResponseTime s) +:+ "ms";
     Snapshot.bytesTransferred := bytesTransferred s;
     Snapshot.features :=
       {| Snapshot.instantHover := instantHover c;
          Snapshot.instantTransitions := instantTransitions c;
          Snapshot.connectionAware := connectionAware c;
          Snapshot.crossTabCache := crossTabCache c && broadcastChannel g;
          Snapshot.ssrHints := ssrHints c;
          Snapshot.debug := debug c;
          Snapshot.verboseLogging := verboseLogging c |};
     Snapshot.settings :=
       {| Snapshot.initialDelay := initialDelay c;
          Snapshot.betweenDelay := betweenDelay c;
          Snapshot.hoverDelay := hoverDelay c;
          Snapshot.maxConcurrent := maxConcurrent c;
          Snapshot.effectiveMaxConcurrent := getEffectiveMaxConcurrent g;
          Snapshot.requestTimeout := requestTimeout c |} |}.

End Stats.

(** ** Scheduler and fetch pipeline *)

Section Scheduler.
Context `{URLPlatform}.

Definition post (m : Message) (w : World) : World :=
  upd_tasks (fun t => set_posted (m :: posted t) t) w.

Definition broadcastCacheUpdate (u : url) (w : World) : World :=
  if broadcastChannel (gl w) then post (CacheUpdate u (clock (env w))) w else w.

(** [fetchAndCache(item)] up to its first [await]: the request is counted
    and the cache is asked for the URL. *)
Definition fetchAndCache (item : QueueItem) (w : World) : World :=
  let g := upd_stats (fun s => set_totalRequests (totalRequests s + 1) s) (gl w) in
  let task := {| f_item := item; f_start := clock (env w);
                 f_phase := AwaitCache (getCachedResponse g (q_url item)) |} in
  {| env := env w; gl := g;
     tasks := set_dispatched (q_url item :: dispatched (tasks w))
                (set_running (running (tasks w) ++ [task]) (tasks w)) |}.

(** The [while] loop of [processQueue], up to the end of the loop or to the
    [await] of the between-delay.  Each pass shifts the queue, so the
    length of the queue is enough fuel. *)
Fixpoint processQueue_loop (fuel : nat) (w : World) : World :=
  match fuel with
  | O => w
  | S fuel' =>
      let g := gl w in
      match queue g with
      | [] => w
      | item :: rest =>
          if negb (activeRequests g <? getEffectiveMaxConcurrent g) then w
          else
            let g := set_queue rest g in
            if bool_decide (q_url item ∈ processing g)
               || bool_decide (q_url item ∈ processed g)
            then processQueue_loop fuel' (upd_gl (fun _ => g) w)
            else if connectionAware (config g) && negb (withinDataLimits g)
            then upd_gl (fun _ => g) w
            else
              let g := set_processing ({[q_url item]} ∪ processing g) g in
              let g := set_activeRequests (activeRequests g + 1) g in
              let w := upd_gl (fun _ => g) w in
              if (0 <? betweenDelay (config g)) && (1 <? activeRequests g)
              then upd_tasks (fun t => set_delayed (delayed t ++ [item]) t) w
              else processQueue_loop fuel' (fetchAndCache item w)
      end
  end.

Definition processQueue (w : World) : World :=
  processQueue_loop (length (queue (gl w))) w.

(** The [finally] callback that [processQueue] attaches to a fetch. *)
Definition settle (item : QueueItem) (w : World) : World :=
  let g := gl w in
  let g := set_processing (processing g ∖ {[q_url item]}) g in
  let g := set_processed ({[q_url item]} ∪ processed g) g in
  let g := set_activeRequests (activeRequests g - 1) g in
  let w := upd_gl (fun _ => g) w in
  match queue g with
  | [] => w
  | _ :: _ => upd_tasks (fun t => set_timers (S (timers t)) t) w
  end.

(** A suspended [processQueue] resumes after its between-delay: the fetch
    of its item starts and the loop goes on. *)
Definition betweenDelayElapsed (i : nat) (w : World) : World :=
  match delayed (tasks w) !! i with
  | Some item =>
      let w := upd_tasks (fun t => set_delayed (delete i (delayed t)) t) w in
      processQueue (fetchAndCache item w)
  | None => w
  end.

Definition recordResponseTime (now start : Z) (s : Stats) : Stats :=
  set_averageResponseTime
    (JS.num_div
       (JS.num_add
          (JS.num_mul (averageResponseTime s) (JS.of_Z (totalRequests s - 1)))
          (JS.of_Z (now - start)))
       (JS.of_Z (totalRequests s))) s.

Definition end_task (i : nat) (w : World) : World :=
  upd_tasks (fun t => set_running (delete i (running t)) t) w.

Definition set_phase (i : nat) (f : Fetch) (ph : FetchPhase) (w : World) : World :=
  upd_tasks (fun t =>
    set_running (<[i := {| f_item := f_item f; f_start := f_start f;
                           f_phase := ph |}]> (running t)) t) w.

(** [fetchAndCache] after [await this.getCachedResponse(url)]: a fresh
    entry is a hit and ends the call, otherwise the request goes out. *)
Definition cacheLookupDone (i : nat) (w : World) : World :=
  match running (tasks w) !! i with
  | Some f =>
      match f_phase f with
      | AwaitCache cached =>
          let fresh :=
            match cached with
            | Some r => negb (isCacheExpired (clock (env w)) (config (gl w)) r)
            | None => false
            end in
          if fresh then
            let w := upd_gl (upd_stats (fun s => set_cacheHits (cacheHits s + 1) s)) w in
            settle (f_item f) (end_task i w)
          else
            upd_tasks (fun t => set_requested (q_url (f_item f) :: requested t) t)
              (set_phase i f AwaitNetwork w)
      | _ => w
      end
  | None => w
  end.

(** [fetchAndCache] after [await fetch(url, fetchOptions)], up to the
    [await] inside [storeInCache] that follows the eviction pass. *)
Definition responseArrived (i : nat) (result : FetchResult) (w : World) : World :=
  match running (tasks w) !! i with
  | Some f =>
      match f_phase f with
      | AwaitNetwork =>
          match result with
          | Rejected => settle (f_item f) (end_task i w)
          | Resolved response =>
              if r_ok response then
                let g := gl w in
                let g := match r_content_length response with
                         | Some n => set_dataUsed (dataUsed g + n) g
                         | None => g
                         end in
                let md := {| md_timestamp := Some (clock (env w));
                             md_version := Some (cacheVersion (config g));
                             md_size := Some (default 0 (r_content_length response)) |} in
                let g := enforceCacheLimit g in
                set_phase i f (AwaitBody response md) (upd_gl (fun _ => g) w)
              else
                let w := upd_gl (upd_stats
                           (recordResponseTime (clock (env w)) (f_start f))) w in
                settle (f_item f) (end_task i w)
          end
      | _ => w
      end
  | None => w
  end.

(** The end of [storeInCache] and the rest of [fetchAndCache].  With
    [arrived] the body has come in and the write is attempted; without it
    the [await] of [storeInCache] was rejected for a reason that is not in
    the response (the body stream broke, the quota of the cache is
    exceeded).  [storeInCache] catches every error, so [fetchAndCache]
    goes on in the same way. *)
Definition bodyDone (arrived : bool) (i : nat) (w : World) : World :=
  match running (tasks w) !! i with
  | Some f =>
      match f_phase f with
      | AwaitBody response md =>
          let u := q_url (f_item f) in
          let w := if arrived then upd_gl (cacheWrite (env w) u response md) w
                   else w in
          let w := upd_gl (upd_stats (fun s =>
                     set_bytesTransferred
                       (bytesTransferred s + default 0 (r_content_length response))
                       (set_cacheMisses (cacheMisses s + 1) s))) w in
          let w := broadcastCacheUpdate u w in
          let w := upd_gl (upd_stats
                     (recordResponseTime (clock (env w)) (f_start f))) w in
          settle (f_item f) (end_task i w)
      | _ => w
      end
  | None => w
  end.

Definition bodyRead (i : nat) (w : World) : World := bodyDone true i w.

Definition bodyFailed (i : nat) (w : World) : World := bodyDone false i w.

(** *** Hover booster *)

Definition boostPriority (u : url) (w : World) : World :=
  let index := findIndex (fun item => bool_decide (q_url item = u)) (queue (gl w)) in
  if 0 <? index then
    match splice1 (Z.to_nat index) (queue (gl w)) with
    | (rest, Some item) => processQueue (upd_gl (set_queue (item :: rest)) w)
    | (_, None) => w
    end
  else w.

(** The [mouseenter] listener, once its hover delay has elapsed. *)
Definition hoverBoost (target : Element) (w : World) : World :=
  if selector (config (gl w)) target then
    match normalizeUrl (env w) (e_href target) with
    | Some href =>
        if JS.truthy (Some href)
           && shouldPreload (env w) (config (gl w)) href
           && negb (shouldExclude (config (gl w)) target href)
        then boostPriority (Some href) w
        else w
    | None => w
    end
  else w.

(** *** Public operations *)

Definition configure (options : Config -> Config) (g : Ghostloader) : Ghostloader :=
  set_config (options (config g)) g.

Definition pause (g : Ghostloader) : Ghostloader := set_isPaused (Some true) g.

Definition resume (w : World) : World :=
  processQueue (upd_gl (set_isPaused (Some false)) w).

Definition clearCache (w : World) : World :=
  let g := gl w in
  let g := match cacheAPI g with
           | Some store => set_cacheAPI (Some (delete_all store.*1 store)) g
           | None => g
           end in
  let g := set_cache [] g in
  let g := set_processed ∅ g in
  let g := set_processing ∅ g in
  let g := set_queue [] g in
  let g := set_dataUsed 0 g in
  let w := upd_gl (fun _ => g) w in
  if broadcastChannel g then post (CacheClear (clock (env w))) w else w.

Definition setupCrossTabCache (e : Env) (g : Ghostloader) : Ghostloader :=
  if has_BroadcastChannel e then set_broadcastChannel true g else g.

Definition initializeCache (e : Env) (g : Ghostloader) : Ghostloader :=
  match caches e with
  | Some store => set_cacheAPI (Some store) g
  | None => g
  end.

(** [start()] after its initial delay. *)
Definition start_finish (w : World) : World :=
  let w := upd_gl (buildQueue (env w)) w in
  let w := processQueue w in
  upd_gl (set_isInitialized true) w.

(** [start()] up to its initial delay (and to the end when there is
    none). *)
Definition start (w : World) : World :=
  if isInitialized (gl w) then w
  else
    let e := env w in
    let g := gl w in
    let g := if connectionAware (config g) then detectConnection e g else g in
    let g := if crossTabCache (config g) then setupCrossTabCache e g else g in
    let g := initializeCache e g in
    let g := if ssrHints (config g) then processSSRHints e g else g in
    let w := upd_gl (fun _ => g) w in
    if 0 <? initialDelay (config g)
    then upd_tasks (fun t => set_starting (S (starting t)) t) w
    else start_finish w.

(** The message listener of the cross-tab channel. *)
Definition onMessage (m : Message) (g : Ghostloader) : Ghostloader :=
  if broadcastChannel g then
    match m with
    | CacheUpdate u _ => set_processed ({[u]} ∪ processed g) g
    | CacheInvalidate u => invalidateCache u g
    | CacheClear _ => g
    end
  else g.

(** The [change] listener of [navigator.connection]; the engine holds the
    live object, so it sees the new values at once. *)
Definition onConnectionChange (c : Connection) (w : World) : World :=
  match nav_connection (env w) with
  | Some _ =>
      let w := upd_env (set_nav_connection (Some c)) w in
      match connectionInfo (gl w) with
      | Some _ =>
          upd_gl (fun g => upd_stats (set_connectionType (effectiveType c))
                             (set_connectionInfo (Some c) g)) w
      | None => w
      end
  | None => w
  end.

(** *** The event loop *)

(** What the host can make happen between two runs of engine code: a
    public method is called ([EvStart], [EvProcessQueue], [EvBoost],
    [EvPause], [EvResume], [EvClearCache], [EvConfigure]), a pending
    promise or timer of the engine completes ([EvInitialDelayElapsed],
    [EvTimer], [EvBetweenDelayElapsed], [EvCacheLookup], [EvResponse],
    [EvBodyRead], or fails ([EvBodyFailed]); the index is the position of
    the task in its pool), a listener fires ([EvHover],
    [EvConnectionChange], [EvMessage]), the clock moves ([EvTick]: by
    [ms] milliseconds, back when [ms] is negative, as [Date.now()] follows
    the system clock) or the document changes ([EvPage]).
    [EvTransition] is [buildQueue(); processQueue()], as the timer set by
    an instant transition runs them and as a page can call them. *)
Inductive Event :=
  | EvStart
  | EvInitialDelayElapsed
  | EvProcessQueue
  | EvTimer
  | EvBetweenDelayElapsed (i : nat)
  | EvCacheLookup (i : nat)
  | EvResponse (i : nat) (result : FetchResult)
  | EvBodyRead (i : nat)
  | EvBodyFailed (i : nat)
  | EvHover (target : Element)
  | EvBoost (u : url)
  | EvTransition
  | EvPause
  | EvResume
  | EvClearCache
  | EvConfigure (options : Config -> Config)
  | EvConnectionChange (c : Connection)
  | EvMessage (m : Message)
  | EvTick (ms : Z)
  | EvPage (p : Page).

Definition step (w : World) (ev : Event) : World :=
  match ev with
  | EvStart => start w
  | EvInitialDelayElapsed =>
      match starting (tasks w) with
      | S n => start_finish (upd_tasks (set_starting n) w)
      | O => w
      end
  | EvProcessQueue => processQueue w
  | EvTimer =>
      match timers (tasks w) with
      | S n => processQueue (upd_tasks (set_timers n) w)
      | O => w
      end
  | EvBetweenDelayElapsed i => betweenDelayElapsed i w
  | EvCacheLookup i => cacheLookupDone i w
  | EvResponse i result => responseArrived i result w
  | EvBodyRead i => bodyRead i w
  | EvBodyFailed i => bodyFailed i w
  | EvHover target => hoverBoost target w
  | EvBoost u => boostPriority u w
  | EvTransition => processQueue (upd_gl (buildQueue (env w)) w)
  | EvPause => upd_gl pause w
  | EvResume => resume w
  | EvClearCache => clearCache w
  | EvConfigure options => upd_gl (configure options) w
  | EvConnectionChange c => onConnectionChange c w
  | EvMessage m => upd_gl (onMessage m) w
  | EvTick ms => upd_env (fun e => set_clock (clock e + ms) e) w
  | EvPage p => upd_env (set_page p) w
  end.

Definition run (w : World) (evs : list Event) : World := fold_left step evs w.

End Scheduler.

(** ** The constructor and its configuration *)

(** Selectors and patterns of the default configuration, as predicates on
    elements and on URLs. *)
Definition has_attr (name : string) (el : Element) : bool :=
  map_has name (e_attrs el).

Definition attr_is (name value : string) (el : Element) : bool :=
  bool_decide (map_get name (e_attrs el) = Some value).

Definition attr_starts (name start : string) (el : Element) : bool :=
  match map_get name (e_attrs el) with
  | Some v => String.prefix start v
  | None => false
  end.

Definition has_class (c : string) (el : Element) : bool :=
  match map_get "class" (e_attrs el) with
  | Some v => bool_decide (c ∈ String.words v)
  | None => false
  end.

Definition lower (c : ascii) : ascii :=
  let n := N_of_ascii c in
  if ((65 <=? n) && (n <=? 90))%N then ascii_of_N (n + 32) else c.

Fixpoint lowercase (s : string) : string :=
  match s with
  | EmptyString => EmptyString
  | String c s' => String (lower c) (lowercase s')
  end.

Definition ends_with (suffix s : string) : bool :=
  let n := String.length s in
  let m := String.length suffix in
  (m <=? n)%nat && String.eqb (String.substring (n - m) m s) suffix.

(** [/\.(e1|e2|...)$/i] *)
Definition has_extension (exts : list string) (u : string) : bool :=
  existsb (fun x => ends_with ("." +:+ x) (lowercase u)) exts.

Definition defaultConfig : Config := {|
  cacheMode := "local";
  instantHover := true;
  maxConcurrent := 3;
  selector := fun el => String.eqb (e_tag el) "a" && has_attr "href" el;
  initialDelay := 1000;
  betweenDelay := 100;
  hoverDelay := 150;
  excludeSelectors :=
    [ has_attr "download";
      attr_is "target" "_blank";
      attr_starts "href" "mailto:";
      attr_starts "href" "tel:";
      attr_starts "href" "#";
      has_class "no-preload" ];
  excludePatterns :=
    [ has_extension ["pdf"; "zip"; "doc"; "docx"; "xls"; "xlsx"; "ppt"; "pptx"];
      has_extension ["jpg"; "jpeg"; "png"; "gif"; "svg"; "webp"];
      String.prefix "javascript:";
      String.prefix "data:" ];
  fetchHeaders := [];
  requestTimeout := 10000;
  connectionAware := true;
  dataLimit := 50 * 1024 * 1024;
  bandwidthThrottle := true;
  cacheMaxSize := 100;
  cacheExpiration := 24 * 60 * 60 * 1000;
  cacheVersion := "1.0";
  crossTabCache := true;
  debug := false;
  verboseLogging := false;
  instantTransitions := true;
  ssrHints := true
|}.

(** [new Ghostloader()] at time [now]. *)
Definition newGhostloader (now : Z) : Ghostloader := {|
  config := defaultConfig;
  queue := [];
  processing := ∅;
  processed := ∅;
  cache := [];
  cacheAPI := None;
  isInitialized := false;
  activeRequests := 0;
  dataUsed := 0;
  sessionStart := now;
  connectionInfo := None;
  bandwidthEstimate := None;
  ssrHintsReceived := ∅;
  stats := {| totalRequests := 0; cacheHits := 0; cacheMisses := 0;
              bytesTransferred := 0; averageResponseTime := JS.of_Z 0;
              connectionType := Some "unknown" |};
  broadcastChannel := false;
  isPaused := None
|}.

Definition noTasks : Tasks := {|
  delayed := []; running := []; timers := 0; starting := 0;
  dispatched := []; requested := []; posted := []
|}.

(** The page has just built and configured an engine. *)
Definition created (e : Env) (options : Config -> Config) : World :=
  {| env := e; gl := configure options (newGhostloader (clock e));
     tasks := noTasks |}.

(** [Ghostloader.init(options)] *)
Definition init `{URLPlatform} (e : Env) (options : Config -> Config) : World :=
  start (created e options).

(** *** Hover listeners

    [setupHoverListeners]: the [mouseenter] listener arms a timer of
    [hoverDelay] ms that boosts the link, the [mouseleave] listener disarms
    it.  [hoverTimeouts] is the [Map] from an element to the timer armed
    for it; an element is known by its identity (a number), and [target]
    is what the listener reads of it at the time of the event.  Timer
    handles are the numbers that [setTimeout] returns, each one new. *)

Section HoverListeners.
Context `{URLPlatform}.

Record Hovering := {
  hv_world : World;
  hoverTimeouts : list (nat * nat);
  hoverTimers : list (nat * (url * nat));
  nextTimeout : nat
}.

(** [clearTimeout(id)] *)
Definition clearTimeout (id : nat) (timers : list (nat * (url * nat))) :
    list (nat * (url * nat)) :=
  map_delete id timers.

Definition mouseenter (node : nat) (target : Element) (h : Hovering) : Hovering :=
  let w := hv_world h in
  if selector (config (gl w)) target then
    match normalizeUrl (env w) (e_href target) with
    | Some href =>
        if JS.truthy (Some href)
           && shouldPreload (env w) (config (gl w)) href
           && negb (shouldExclude (config (gl w)) target href)
        then
          let timers :=
            match map_get node (hoverTimeouts h) with
            | Some old => clearTimeout old (hoverTimers h)
            | None => hoverTimers h
            end in
          let timeoutId := nextTimeout h in
          {| hv_world := w;
             hoverTimeouts := map_set node timeoutId (hoverTimeouts h);
             hoverTimers := timers ++ [(timeoutId, (Some href, node))];
             nextTimeout := S timeoutId |}
        else h
    | None => h
    end
  else h.

Definition mouseleave (node : nat) (target : Element) (h : Hovering) : Hovering :=
  if selector (config (gl (hv_world h))) target then
    match map_get node (hoverTimeouts h) with
    | Some old =>
        {| hv_world := hv_world h;
           hoverTimeouts := map_delete node (hoverTimeouts h);
           hoverTimers := clearTimeout old (hoverTimers h);
           nextTimeout := nextTimeout h |}
    | None => h
    end
  else h.

(** The callback of the timer [id], when it is still armed. *)
Definition hoverTimeout (id : nat) (h : Hovering) : Hovering :=
  match map_get id (hoverTimers h) with
  | Some (href, node) =>
      {| hv_world := boostPriority href (hv_world h);
         hoverTimeouts := map_delete node (hoverTimeouts h);
         hoverTimers := map_delete id (hoverTimers h);
         nextTimeout := nextTimeout h |}
  | None => h
  end.

Inductive HoverEvent :=
  | HvEnter (node : nat) (target : Element)
  | HvLeave (node : nat) (target : Element)
  | HvTimeout (id : nat)
  | HvEngine (ev : Event).

Definition hover_step (h : Hovering) (ev : HoverEvent) : Hovering :=
  match ev with
  | HvEnter node target => mouseenter node target h
  | HvLeave node target => mouseleave node target h
  | HvTimeout id => hoverTimeout id h
  | HvEngine ev =>
      {| hv_world := step (hv_world h) ev;
         hoverTimeouts := hoverTimeouts h;
         hoverTimers := hoverTimers h;
         nextTimeout := nextTimeout h |}
  end.

Definition hover_run (h : Hovering) (evs : list HoverEvent) : Hovering :=
  fold_left hover_step evs h.

(** The listeners have just been set up. *)
Definition hovering (w : World) : Hovering :=
  {| hv_world := w; hoverTimeouts := []; hoverTimers := []; nextTimeout := 1 |}.

End HoverListeners.

(** ** A small URL platform, to run the engine on concrete pages

    [MiniURL] knows the http(s) URLs that are in the form in which the
    browser serializes them and that need none of the parser's rewriting:
    a host of lower-case letters in labels separated by dots, no
    credentials, no port and no query, a path that starts with [/], is
    written in letters, digits and [-], [_], [~], [.], and has no dot
    segment; and the references to such a path from the root, as [/a].
    On those it answers as the browser's parser does.  Its [None] on
    anything else says that the input is outside [MiniURL], not that the
    browser refuses it. *)

Module MiniURL.

Record t := { main : string; fragment : option string }.

(** The part before the first [#], and the fragment after it. *)
Fixpoint split_hash (s : string) : string * option string :=
  match s with
  | EmptyString => (EmptyString, None)
  | String c s' =>
      if Ascii.eqb c "#" then (EmptyString, Some s')
      else let r := split_hash s' in (String c r.1, r.2)
  end.

Fixpoint until_slash (s : string) : string :=
  match s with
  | EmptyString => EmptyString
  | String c s' =>
      if Ascii.eqb c "/" then EmptyString else String c (until_slash s')
  end.

Fixpoint from_slash (s : string) : string :=
  match s with
  | EmptyString => EmptyString
  | String c s' => if Ascii.eqb c "/" then s else from_slash s'
  end.

Fixpoint strip_prefix (p s : string) : option string :=
  match p, s with
  | EmptyString, _ => Some s
  | String a p', String b s' =>
      if Ascii.eqb a b then strip_prefix p' s' else None
  | String _ _, EmptyString => None
  end.

Definition split_scheme (s : string) : option (string * string) :=
  match strip_prefix "https://" s with
  | Some rest => Some ("https://", rest)
  | None =>
      match strip_prefix "http://" s with
      | Some rest => Some ("http://", rest)
      | None => None
      end
  end.

Definition is_lower (c : ascii) : bool :=
  let n := N_of_ascii c in ((97 <=? n) && (n <=? 122))%N.

Definition is_path_char (c : ascii) : bool :=
  let n := N_of_ascii c in
  (((97 <=? n) && (n <=? 122)) || ((65 <=? n) && (n <=? 90))
   || ((48 <=? n) && (n <=? 57))
   || (n =? 45) || (n =? 46) || (n =? 95) || (n =? 126))%N.

(** Labels of lower-case letters, one dot between two of them; [fresh]
    at the start of a label. *)
Fixpoint is_host (fresh : bool) (s : string) : bool :=
  match s with
  | EmptyString => negb fresh
  | String c s' =>
      if is_lower c then is_host false s'
      else Ascii.eqb c "." && negb fresh && is_host true s'
  end.

(** A path after its first [/]: [seg] is the segment being read, in
    reverse. *)
Fixpoint is_path_rest (seg : string) (s : string) : bool :=
  let whole := negb (String.eqb seg "." || String.eqb seg "..") in
  match s with
  | EmptyString => whole
  | String c s' =>
      if Ascii.eqb c "/" then whole && is_path_rest "" s'
      else is_path_char c && is_path_rest (String c seg) s'
  end.

Definition is_path (s : string) : bool :=
  match s with
  | String c s' => Ascii.eqb c "/" && is_path_rest "" s'
  | EmptyString => false
  end.

Definition is_fragment (f : option string) : bool :=
  match f with
  | Some x => negb (JS.has_char (fun c => negb (is_path_char c)) x)
  | None => true
  end.

Definition is_absolute (m : string) : bool :=
  match split_scheme m with
  | Some (_, rest) => is_host true (until_slash rest) && is_path (from_slash rest)
  | None => false
  end.

Definition origin_of (m : string) : string :=
  match split_scheme m with
  | Some (scheme, rest) => scheme +:+ until_slash rest
  | None => "null"
  end.

(** [new URL(input, base)]: a base that is given is parsed first. *)
Definition new (input : string) (base : option string) : option t :=
  let m := (split_hash input).1 in
  let f := (split_hash input).2 in
  let based :=
    match base with
    | Some b =>
        if is_absolute (split_hash b).1 && is_fragment (split_hash b).2
        then Some (Some (origin_of (split_hash b).1))
        else None
    | None => Some None
    end in
  match based with
  | Some root =>
      if negb (is_fragment f) then None
      else if is_absolute m then Some {| main := m; fragment := f |}
      else if is_path m && negb (String.prefix "//" m) then
        match root with
        | Some r => Some {| main := r +:+ m; fragment := f |}
        | None => None
        end
      else None
  | None => None
  end.

Definition set_hash_empty (u : t) : t :=
  {| main := main u; fragment := None |}.

Definition href (u : t) : string :=
  match fragment u with
  | Some f => main u +:+ String "#" f
  | None => main u
  end.

Definition origin (u : t) : string := origin_of (main u).

Definition protocol (u : t) : string :=
  match split_scheme (main u) with
  | Some ("https://", _) => "https:"
  | _ => "http:"
  end.

#[export] Instance platform : URLPlatform := {|
  URLRecord := t;
  URL_new := new;
  URL_set_hash_empty := set_hash_empty;
  URL_href := href;
  URL_origin := origin;
  URL_protocol := protocol;
  URL_username := fun _ => "";
  URL_password := fun _ => ""
|}.

End MiniURL.

(** * Properties *)

(** ** JavaScript primitives *)

Example toString_examples :
  JS.toString 0 = "0" /\ JS.toString 1700000000123 = "1700000000123" /\
  JS.toString (-42) = "-42".
Proof. repeat split; reflexivity. Qed.

Example parseInt_examples :
  JS.parseInt "  42px" = Some 42 /\ JS.parseInt "-7" = Some (-7) /\
  JS.parseInt "abc" = None /\ JS.parseInt "" = None.
Proof. repeat split; reflexivity. Qed.

Example toFixed2_examples :
  JS.toFixed2 (JS.num_mul (JS.num_div (JS.of_Z 1) (JS.of_Z 8)) (JS.of_Z 100)) = "12.50" /\
  JS.toFixed2 (JS.of_Z 0) = "0.00" /\
  JS.toFixed2 (JS.num_div (JS.of_Z 0) (JS.of_Z 0)) = "NaN" /\
  JS.toFixed2 (JS.num_div (JS.of_Z 5) (JS.of_Z 0)) = "Infinity".
Proof. repeat split; reflexivity. Qed.

Section Decimal.
Import JS.

Lemma digit_cases d : 0 <= d < 10 ->
  d = 0 \/ d = 1 \/ d = 2 \/ d = 3 \/ d = 4 \/ d = 5 \/ d = 6 \/ d = 7 \/
  d = 8 \/ d = 9.
Proof. lia. Qed.

Lemma digit_val_char d : 0 <= d < 10 -> digit_val (digit_char d) = Some d.
Proof.
  intros Hd. destruct (digit_cases d Hd) as
    [->|[->|[->|[->|[->|[->|[->|[->|[->| ->]]]]]]]]]; reflexivity.
Qed.

Lemma digit_char_plain d : 0 <= d < 10 ->
  is_ws (digit_char d) = false /\
  digit_char d <> "-"%char /\ digit_char d <> "+"%char.
Proof.
  intros Hd. destruct (digit_cases d Hd) as
    [->|[->|[->|[->|[->|[->|[->|[->|[->| ->]]]]]]]]]; by repeat split.
Qed.

(** Reading back the digits of [n] on top of an accumulator at [0]. *)
Lemma read_digits_of fuel : forall n rest,
  0 <= n < 2 ^ Z.of_nat fuel ->
  read_digits (digits_of fuel n rest) (Some 0) = read_digits rest (Some n).
Proof.
  induction fuel as [|fuel IH]; intros n rest Hn.
  - change (2 ^ Z.of_nat 0) with 1 in Hn.
    assert (n = 0) as -> by lia. reflexivity.
  - assert (Hd : 0 <= n mod 10 < 10) by (apply Z.mod_pos_bound; lia).
    assert (Hq : n = 10 * (n / 10) + n mod 10) by (apply Z.div_mod; lia).
    simpl digits_of. destruct (n / 10 =? 0) eqn:E.
    + apply Z.eqb_eq in E. simpl read_digits.
      rewrite digit_val_char by done. simpl. f_equal. f_equal. lia.
    + rewrite IH.
      * simpl read_digits. rewrite digit_val_char by done. simpl.
        f_equal. f_equal. lia.
      * rewrite Nat2Z.inj_succ, Z.pow_succ_r in Hn by lia.
        split; [apply Z.div_pos; lia|].
        apply Z.div_lt_upper_bound; lia.
Qed.

(** The digits start with a digit. *)
Lemma digits_of_head fuel : forall n rest,
  exists d tail, 0 <= d < 10 /\
    digits_of (S fuel) n rest = String (digit_char d) tail.
Proof.
  induction fuel as [|fuel IH]; intros n rest.
  - exists (n mod 10), rest. split; [apply Z.mod_pos_bound; lia|].
    simpl. by destruct (n / 10 =? 0).
  - change (digits_of (S (S fuel)) n rest) with
      (let acc' := String (digit_char (n mod 10)) rest in
       if n / 10 =? 0 then acc' else digits_of (S fuel) (n / 10) acc').
    cbv zeta. destruct (n / 10 =? 0).
    + exists (n mod 10), rest. split; [apply Z.mod_pos_bound; lia | done].
    + apply IH.
Qed.

Lemma log2_fuel n : 0 <= n -> n < 2 ^ Z.of_nat (S (Z.to_nat (Z.log2 n))).
Proof.
  intros Hn. rewrite Nat2Z.inj_succ, Z2Nat.id by apply Z.log2_nonneg.
  destruct (Z.eq_dec n 0) as [-> | Hne]; [done|].
  apply Z.log2_spec. lia.
Qed.

Lemma read_nat_digits n : 0 <= n -> read_digits (nat_digits n) None = Some n.
Proof.
  intros Hn. unfold nat_digits.
  destruct (digits_of_head (Z.to_nat (Z.log2 n)) n "") as (d & tail & Hd & E).
  transitivity (read_digits (nat_digits n) (Some 0)).
  - unfold nat_digits. rewrite E. simpl. by rewrite digit_val_char.
  - unfold nat_digits. rewrite read_digits_of by (split; [done | by apply log2_fuel]).
    reflexivity.
Qed.

Lemma parseInt_nat_digits n : 0 <= n -> parseInt (nat_digits n) = Some n.
Proof.
  intros Hn. unfold parseInt.
  pose proof (read_nat_digits n Hn) as Hr. unfold nat_digits in *.
  destruct (digits_of_head (Z.to_nat (Z.log2 n)) n "") as (d & tail & Hd & E).
  rewrite E in *. destruct (digit_char_plain d Hd) as (Hws & Hm & Hp).
  simpl skip_ws. rewrite Hws.
  destruct (digit_char d) as [[] [] [] [] [] [] [] []]; try done.
Qed.

(** [parseInt] reads back what [toString] prints. *)
Lemma parseInt_toString z : parseInt (toString z) = Some z.
Proof.
  unfold toString. destruct (z <? 0) eqn:E.
  - apply Z.ltb_lt in E. unfold parseInt. simpl skip_ws.
    change (is_ws "-") with false. cbv iota.
    rewrite read_nat_digits by lia. simpl. f_equal. lia.
  - apply Z.ltb_ge in E. by apply parseInt_nat_digits.
Qed.

(** What [toString] prints is not the empty string. *)
Lemma toString_truthy z : truthy (Some (toString z)) = true.
Proof.
  unfold toString, nat_digits. destruct (z <? 0); [done|].
  destruct (digits_of_head (Z.to_nat (Z.log2 z)) z "") as (d & tail & _ & ->).
  done.
Qed.

End Decimal.

(** ** Containers *)

Section ContainerFacts.
Context {K V : Type} `{EqDecision K}.
Implicit Types (m : list (K * V)) (k : K).

Lemma filter_filter {A} (p q : A -> bool) (l : list A) :
  List.filter p (List.filter q l) = List.filter (fun x => q x && p x) l.
Proof.
  induction l as [|x l IH]; simpl; [done|].
  destruct (q x); simpl; [destruct (p x)|]; by rewrite ?IH.
Qed.

(** Deleting a list of keys keeps the entries under the other keys, in
    their order. *)
Lemma delete_all_filter ks m :
  delete_all ks m = List.filter (fun e => negb (bool_decide (e.1 ∈ ks))) m.
Proof.
  revert m. induction ks as [|k ks IH]; intros m; simpl.
  - induction m as [|e m IHm]; simpl; [done | by f_equal].
  - unfold delete_all in *. simpl. rewrite IH. unfold map_delete.
    rewrite filter_filter. apply filter_ext. intros e.
    destruct (decide (e.1 = k)) as [-> | Hne].
    + rewrite (bool_decide_eq_true_2 (k = k)) by done.
      rewrite (bool_decide_eq_true_2 (k ∈ k :: ks)) by constructor.
      done.
    + rewrite (bool_decide_eq_false_2 (e.1 = k)) by done. simpl.
      f_equal. apply bool_decide_ext. rewrite elem_of_cons.
      split; [by right | by intros [|]].
Qed.

Lemma delete_all_keys m : delete_all m.*1 m = [].
Proof.
  rewrite delete_all_filter.
  assert (Hin : forall e, e ∈ m -> e.1 ∈ m.*1)
    by (intros e He; by apply list_elem_of_fmap_2).
  revert Hin. generalize (m.*1). intros ks. induction m as [|e m IH]; intros Hin.
  - done.
  - simpl. rewrite bool_decide_eq_true_2 by (apply Hin; left).
    simpl. apply IH. intros e' He'. apply Hin. by right.
Qed.




Lemma map_get_set m k (v : V) : map_get k (map_set k v m) = Some v.
Proof.
  induction m as [|[k' v'] m IH]; simpl.
  - by rewrite decide_True.
  - destruct (decide (k' = k)); simpl.
    + by rewrite decide_True.
    + by rewrite decide_False.
Qed.

Lemma map_get_set_ne m k k' (v : V) :
  k <> k' -> map_get k (map_set k' v m) = map_get k m.
Proof.
  intros Hne. induction m as [|[k0 v0] m IH]; simpl.
  - by rewrite decide_False.
  - destruct (decide (k0 = k')) as [-> | Hk0]; simpl.
    + by rewrite !decide_False.
    + destruct (decide (k0 = k)); [done | apply IH].
Qed.


Lemma map_get_app_r m k (v : V) :
  map_get k m = None -> map_get k (m ++ [(k, v)]) = Some v.
Proof.
  induction m as [|[k0 v0] m IH]; simpl.
  - by rewrite decide_True.
  - destruct (decide (k0 = k)); [done | apply IH].
Qed.

Lemma map_get_delete m k : map_get k (map_delete k m) = None.
Proof.
  induction m as [|[k0 v0] m IH]; simpl; [done|].
  destruct (decide (k0 = k)) as [-> | Hk].
  - by rewrite bool_decide_eq_true_2.
  - rewrite bool_decide_eq_false_2 by done. simpl. by rewrite decide_False.
Qed.

Lemma map_get_put m k (v : V) : map_get k (store_put k v m) = Some v.
Proof. apply map_get_app_r, map_get_delete. Qed.
End ContainerFacts.

Section FindIndex.
Context {A : Type} (p : A -> bool).




End FindIndex.

(** ** The engine *)

Section Properties.
Context `{URLPlatform}.

Implicit Types (w : World) (g : Ghostloader) (u : url).

(** *** clearCache *)

(** C10.  [clearCache] empties the fallback cache, the queue and the
    processing and processed sets, resets [dataUsed] to 0 (and empties the
    platform cache when there is one), and leaves the statistics, the
    configuration, the request counter, the pause flag and the pending
    tasks as they were. *)
Theorem clearCache_frame w :
  let w' := clearCache w in
  cache (gl w') = [] /\
  queue (gl w') = [] /\
  processing (gl w') = ∅ /\
  processed (gl w') = ∅ /\
  dataUsed (gl w') = 0 /\
  cacheAPI (gl w') = (fun _ => []) <$> cacheAPI (gl w) /\
  stats (gl w') = stats (gl w) /\
  totalRequests (stats (gl w')) = totalRequests (stats (gl w)) /\
  cacheHits (stats (gl w')) = cacheHits (stats (gl w)) /\
  cacheMisses (stats (gl w')) = cacheMisses (stats (gl w)) /\
  bytesTransferred (stats (gl w')) = bytesTransferred (stats (gl w)) /\
  averageResponseTime (stats (gl w')) = averageResponseTime (stats (gl w)) /\
  connectionType (stats (gl w')) = connectionType (stats (gl w)) /\
  config (gl w') = config (gl w) /\
  activeRequests (gl w') = activeRequests (gl w) /\
  isPaused (gl w') = isPaused (gl w) /\
  running (tasks w') = running (tasks w) /\
  delayed (tasks w') = delayed (tasks w).
Proof.
  destruct w as [e g t]. unfold clearCache. cbn.
  destruct g as [? ? ? ? ? [store|] ? ? ? ? ? ? ? ? [] ?]; cbn;
    rewrite ?delete_all_keys; repeat split; reflexivity.
Qed.

(** *** boostPriority *)



End Properties.

(** ** Sorting and eviction *)

Section SortFacts.
Context {A : Type} (key : A -> Z).

Definition key_le (a b : A) : Prop := key a <= key b.

Lemma insert_by_perm x l : insert_by key x l ≡ₚ x :: l.
Proof.
  induction l as [|y l IH]; simpl; [done|].
  destruct (key x <=? key y); [done|].
  rewrite IH. apply Permutation_swap.
Qed.

Lemma sort_by_perm l : sort_by key l ≡ₚ l.
Proof.
  induction l as [|x l IH]; simpl; [done|].
  unfold sort_by in *. simpl. by rewrite insert_by_perm, IH.
Qed.


Lemma insert_by_sorted x l :
  StronglySorted key_le l -> StronglySorted key_le (insert_by key x l).
Proof.
  induction l as [|y l IH]; simpl; intros Hs.
  - by repeat constructor.
  - apply StronglySorted_inv in Hs as [Hl Hy].
    destruct (key x <=? key y) eqn:E.
    + apply Z.leb_le in E. constructor; [by constructor|].
      constructor; [done|].
      eapply Forall_impl; [exact Hy|]. unfold key_le. simpl. intros; lia.
    + apply Z.leb_gt in E. constructor; [by apply IH|].
      rewrite insert_by_perm. constructor; [unfold key_le; lia | done].
Qed.

Lemma sort_by_sorted l : StronglySorted key_le (sort_by key l).
Proof.
  induction l as [|x l IH]; [constructor|].
  unfold sort_by in *. simpl. by apply insert_by_sorted.
Qed.

(** The sort is stable: entries of the same key keep their order. *)
Lemma insert_by_stable c x l :
  List.filter (fun a => key a =? c) (insert_by key x l) =
  List.filter (fun a => key a =? c) (x :: l).
Proof.
  induction l as [|y l IH]; [done|].
  simpl insert_by. destruct (key x <=? key y) eqn:E; [done|].
  apply Z.leb_gt in E. simpl in *. rewrite IH.
  destruct (key x =? c) eqn:Ex, (key y =? c) eqn:Ey; try done.
  apply Z.eqb_eq in Ex, Ey. lia.
Qed.

Lemma sort_by_stable c l :
  List.filter (fun a => key a =? c) (sort_by key l) =
  List.filter (fun a => key a =? c) l.
Proof.
  induction l as [|x l IH]; [done|].
  unfold sort_by in *. simpl foldr. rewrite insert_by_stable. simpl.
  by rewrite IH.
Qed.

End SortFacts.

Section Eviction.
Context {K V : Type} `{EqDecision K}.
Implicit Types (m s : list (K * V)).

Lemma elem_of_filter_bool {A} (p : A -> bool) (l : list A) x :
  x ∈ List.filter p l <-> x ∈ l /\ p x = true.
Proof. rewrite !list_elem_of_In. apply filter_In. Qed.


Lemma filter_bool_nil {A} (p : A -> bool) (l : list A) :
  (forall x, x ∈ l -> p x = false) -> List.filter p l = [].
Proof.
  induction l as [|x l IH]; intros Hall; simpl; [done|].
  rewrite (Hall x) by constructor. apply IH. intros y Hy. apply Hall. by right.
Qed.

Lemma filter_bool_all {A} (p : A -> bool) (l : list A) :
  (forall x, x ∈ l -> p x = true) -> List.filter p l = l.
Proof.
  induction l as [|x l IH]; intros Hall; simpl; [done|].
  rewrite (Hall x) by constructor. f_equal. apply IH. intros y Hy.
  apply Hall. by right.
Qed.


Lemma map_set_keys m k (v : V) :
  NoDup m.*1 -> NoDup (map_set k v m).*1.
Proof.
  induction m as [|[k' v'] m IH]; simpl; intros Hm.
  - apply NoDup_singleton.
  - apply NoDup_cons in Hm as [Hk' Hm].
    destruct (decide (k' = k)) as [-> | Hne]; simpl.
    + by apply NoDup_cons.
    + apply NoDup_cons. split; [|by apply IH].
      intros Hin. apply Hk'. clear -Hin Hne.
      induction m as [|[k0 v0] m IHm]; simpl in *.
      * apply list_elem_of_singleton in Hin. congruence.
      * destruct (decide (k0 = k)); simpl in *.
        -- apply elem_of_cons in Hin as [-> | Hin]; [done | by right].
        -- apply elem_of_cons in Hin as [-> | Hin]; [by left | right; auto].
Qed.

Lemma filter_bool_keys (p : K * V -> bool) m :
  NoDup m.*1 -> NoDup (List.filter p m).*1.
Proof.
  induction m as [|e m IH]; simpl; intros Hm; [done|].
  apply NoDup_cons in Hm as [He Hm].
  destruct (p e); simpl; [|by apply IH].
  apply NoDup_cons. split; [|by apply IH].
  intros Hin. apply He. apply list_elem_of_fmap in Hin as (e' & -> & He').
  apply elem_of_filter_bool in He' as [He' _]. by apply list_elem_of_fmap_2.
Qed.

Lemma map_delete_keys m k : NoDup m.*1 -> NoDup (map_delete k m).*1.
Proof. apply filter_bool_keys. Qed.

Lemma delete_all_keys_nodup ks m : NoDup m.*1 -> NoDup (delete_all ks m).*1.
Proof. rewrite delete_all_filter. apply filter_bool_keys. Qed.
End Eviction.

(** ** The cache manager *)

Section CacheProperties.
Context `{URLPlatform}.

Implicit Types (g : Ghostloader) (u : url).

(** The number of entries, and the keys, of the backend in use. *)
Definition cacheEntries g : Z :=
  match cacheAPI g with
  | Some store => Z.of_nat (length store)
  | None => Z.of_nat (length (cache g))
  end.

Definition cacheKeys g : list url :=
  match cacheAPI g with
  | Some store => store.*1
  | None => (cache g).*1
  end.


Lemma slice_to_take {A} (e : Z) (l : list A) :
  0 <= e -> slice_to e l = take (Z.to_nat (Z.min (Z.of_nat (length l)) e)) l.
Proof.
  intros He. unfold slice_to.
  replace (e <? 0) with false by (symmetry; apply Z.ltb_ge; lia).
  by rewrite Z.min_comm.
Qed.


(** The eviction pass on the platform cache, when the limit is reached. *)
Lemma enforceCacheLimit_platform g store :
  cacheAPI g = Some store ->
  cacheMaxSize (config g) <= cacheEntries g ->
  let k := Z.min (cacheEntries g) (cacheEntries g - cacheMaxSize (config g) + 10) in
  enforceCacheLimit g =
  set_cacheAPI (Some (delete_all (take (Z.to_nat k) store).*1 store)) g.
Proof.
  intros Hapi Hfull. unfold enforceCacheLimit, cacheEntries in *.
  rewrite Hapi in *. cbv beta iota zeta. rewrite !length_fmap.
  replace (cacheMaxSize (config g) <=? Z.of_nat (length store)) with true
    by (symmetry; apply Z.leb_le; lia).
  rewrite slice_to_take by lia.
  by rewrite length_fmap, fmap_take.
Qed.


Lemma enforceCacheLimit_config g : config (enforceCacheLimit g) = config g.
Proof.
  unfold enforceCacheLimit. destruct (cacheAPI g); simpl;
    by destruct (cacheMaxSize (config g) <=? _).
Qed.

Lemma enforceCacheLimit_backend g :
  is_Some (cacheAPI (enforceCacheLimit g)) <-> is_Some (cacheAPI g).
Proof.
  unfold enforceCacheLimit. destruct (cacheAPI g) eqn:E; simpl;
    destruct (cacheMaxSize (config g) <=? _); simpl; rewrite ?E; done.
Qed.

(** The write of [storeInCache] comes to one of three things: nothing
    (the platform cache refused it), a [put] on the platform cache, or a
    [set] on the fallback map. *)
Lemma cacheWrite_cases e u response md g :
  (stores e u response md g = false /\ is_Some (cacheAPI g) /\
   cacheWrite e u response md g = g) \/
  (stores e u response md g = true /\
   exists store stored,
     cacheAPI g = Some store /\
     cacheWrite e u response md g
       = set_cacheAPI (Some (store_put u stored store)) g /\
     r_ok stored = r_ok response /\ r_status stored = r_status response /\
     r_body stored = r_body response /\
     map_get "x-ghostloader-timestamp" (r_headers stored)
       = Some (JS.toString (md_timestamp_or (clock e) md)) /\
     forall name,
       name <> "x-ghostloader-timestamp" -> name <> "x-ghostloader-version" ->
       name <> "x-ghostloader-size" ->
       map_get name (r_headers stored) = map_get name (r_headers response)) \/
  (stores e u response md g = true /\
   exists entry,
     cacheAPI g = None /\
     cacheWrite e u response md g = set_cache (map_set u entry (cache g)) g /\
     c_content entry = r_body response /\
     c_timestamp entry = md_timestamp_or (clock e) md).
Proof.
  unfold cacheWrite, stores. cbv zeta.
  destruct (cacheAPI g) as [store|] eqn:E.
  - destruct (JS.headerValue _) as [version|]; [|left; by eauto].
    match goal with |- context [if putRejected e u ?r then g else _] =>
      assert (Hsame : putRejected e u r = putRejected e u response) end.
    { unfold putRejected, variesOnAll. cbn [r_status r_headers].
      by rewrite !(map_get_set_ne _ "vary"). }
    rewrite Hsame. destruct (putRejected e u response); [left; by eauto|].
    right. left. split; [done|]. eexists _, _. split; [done|].
    split; [done|]. cbn [r_ok r_status r_body r_headers].
    split; [done|]. split; [done|]. split; [done|]. split.
    + rewrite !(map_get_set_ne _ "x-ghostloader-timestamp") by done.
      apply map_get_set.
    + intros name H1 H2 H3. by rewrite !map_get_set_ne.
  - right. right. split; [done|]. eexists. split; [done|]. by split.
Qed.


(** The write touches the two stores only. *)
Lemma cacheWrite_shape e u response md g :
  exists c a, cacheWrite e u response md g = set_cacheAPI a (set_cache c g).
Proof.
  destruct (cacheWrite_cases e u response md g)
    as [(_ & _ & ->) | [(_ & store & stored & _ & -> & _)
                       | (_ & entry & _ & -> & _)]].
  - exists (cache g), (cacheAPI g). by destruct g.
  - exists (cache g), (Some (store_put u stored store)). by destruct g.
  - exists (map_set u entry (cache g)), (cacheAPI g). by destruct g.
Qed.



End CacheProperties.

(** ** Expiration *)

Section Expiration.
Context `{URLPlatform}.

Implicit Types (g : Ghostloader) (u : url) (w : World).

(** The timestamp under which [storeInCache] files the response. *)
Definition writeTimestamp (now : Z) (md : Metadata) : Z := md_timestamp_or now md.

(** The response has no [x-cached-timestamp] header of its own (or an
    empty one). *)
Definition plainResponse (response : Response) : Prop :=
  JS.truthy (map_get "x-cached-timestamp" (r_headers response)) = false.

Lemma stores_after_eviction e u response md g :
  stores e u response md (enforceCacheLimit g) = stores e u response md g.
Proof.
  unfold stores, cacheVersion_or. rewrite enforceCacheLimit_config.
  pose proof (enforceCacheLimit_backend g) as Hb.
  destruct (cacheAPI g) as [store|] eqn:E.
  - destruct (proj2 Hb) as [store' ->]; [by eexists | done].
  - destruct (cacheAPI (enforceCacheLimit g)) eqn:E'; [|done].
    destruct (proj1 Hb) as [? [=]]. by eexists.
Qed.

Lemma cacheWrite_present e u response md g :
  stores e u response md g = true ->
  exists stored, getCachedResponse (cacheWrite e u response md g) u = Some stored /\
    (cacheAPI g = None ->
       r_headers stored =
         [("x-cached-timestamp", JS.toString (writeTimestamp (clock e) md))]) /\
    (is_Some (cacheAPI g) ->
       map_get "x-cached-timestamp" (r_headers stored)
         = map_get "x-cached-timestamp" (r_headers response) /\
       map_get "x-ghostloader-timestamp" (r_headers stored)
         = Some (JS.toString (writeTimestamp (clock e) md))).
Proof.
  intros Hstores. unfold getCachedResponse.
  destruct (cacheWrite_cases e u response md g)
    as [(Hno & _) | [(_ & store & stored & E & -> & _ & _ & _ & Hts & Hother)
                    | (_ & entry & E & -> & _ & Hstamp)]];
    [congruence | |]; cbn [cacheAPI set_cacheAPI set_cache cache]; rewrite ?E.
  - rewrite map_get_put. exists stored. split; [done|]. split; [done|].
    intros _. split; [by apply Hother | done].
  - rewrite map_get_set. eexists. split; [done|]. split.
    + intros _. cbn [r_headers]. by rewrite Hstamp.
    + by intros [? [=]].
Qed.

Lemma isCacheExpired_own_header later c stored t :
  r_headers stored = [("x-cached-timestamp", JS.toString t)] ->
  isCacheExpired later c stored = (cacheExpiration c <? later - t).
Proof.
  intros Hh. unfold isCacheExpired. rewrite Hh.
  change (map_get "x-cached-timestamp" [("x-cached-timestamp", JS.toString t)])
    with (Some (JS.toString t)).
  unfold JS.or_str. rewrite !toString_truthy. by rewrite parseInt_toString.
Qed.

Lemma isCacheExpired_platform_header later c stored t :
  JS.truthy (map_get "x-cached-timestamp" (r_headers stored)) = false ->
  map_get "x-ghostloader-timestamp" (r_headers stored) = Some (JS.toString t) ->
  isCacheExpired later c stored = (cacheExpiration c <? later - t).
Proof.
  intros Hown Hts. unfold isCacheExpired, JS.or_str. rewrite Hown, Hts.
  rewrite toString_truthy. by rewrite parseInt_toString.
Qed.

(** What [storeInCache] has stored under write timestamp [t] is in the
    cache, and [isCacheExpired] at a time [later] says whether
    [later - t] is above the expiration. *)
Lemma stored_expiration e u response md g later :
  cacheAPI g = None \/ plainResponse response ->
  stores e u response md g = true ->
  exists stored,
    getCachedResponse (storeInCache e u response md g) u = Some stored /\
    isCacheExpired later (config g) stored
      = (cacheExpiration (config g) <? later - writeTimestamp (clock e) md).
Proof.
  intros Hbackend Hstores. unfold storeInCache.
  rewrite <- stores_after_eviction in Hstores.
  destruct (cacheWrite_present e u response md (enforceCacheLimit g) Hstores)
    as (stored & Hget & Hmem & Hapi).
  exists stored. split; [done|].
  destruct (cacheAPI g) as [store|] eqn:E.
  - destruct Hbackend as [? | Hplain]; [done|].
    destruct Hapi as [Hown Hts].
    { apply enforceCacheLimit_backend. by rewrite E. }
    apply isCacheExpired_platform_header; [by rewrite Hown | done].
  - apply isCacheExpired_own_header.
    apply Hmem. destruct (cacheAPI (enforceCacheLimit g)) eqn:E'; [|done].
    assert (is_Some (cacheAPI g)) as [? ?]; [|congruence].
    apply enforceCacheLimit_backend. by rewrite E'.
Qed.

Lemma storeInCache_config e u response md g :
  config (storeInCache e u response md g) = config g.
Proof.
  unfold storeInCache.
  destruct (cacheWrite_cases e u response md (enforceCacheLimit g))
    as [(_ & _ & ->) | [(_ & ? & ? & _ & -> & _) | (_ & ? & _ & -> & _)]];
    apply enforceCacheLimit_config.
Qed.

(** A response for [u] is stored by [storeInCache] under write
    timestamp [t], on the fallback map or, on the platform cache, without
    an [x-cached-timestamp] header of its own.  When [fetchAndCache] is
    next called for [u] and its cache check runs at a time [later] with
    [later - t > cacheExpiration], the entry is still in the cache,
    [isCacheExpired] is true of it, no hit is counted, and the request
    for [u] goes out to the network. *)
Lemma expired_entry_is_refetched e u response md g later w item :
  cacheAPI g = None \/ plainResponse response ->
  stores e u response md g = true ->
  cacheExpiration (config g) < later - writeTimestamp (clock e) md ->
  gl w = storeInCache e u response md g ->
  q_url item = u ->
  let i := length (running (tasks w)) in
  let w1 := upd_env (set_clock later) (fetchAndCache item w) in
  let w2 := cacheLookupDone i w1 in
  (exists stored,
     getCachedResponse (gl w) u = Some stored /\
     isCacheExpired later (config (gl w)) stored = true /\
     getCachedResponse (gl w2) u = Some stored) /\
  running (tasks w2) !! i =
    Some {| f_item := item; f_start := clock (env w); f_phase := AwaitNetwork |} /\
  requested (tasks w2) = u :: requested (tasks w) /\
  cacheHits (stats (gl w2)) = cacheHits (stats (gl w)) /\
  processed (gl w2) = processed (gl w).
Proof.
  intros Hbackend Hstores Hlate Hgl Hitem i w1 w2.
  destruct (stored_expiration e u response md g later Hbackend Hstores)
    as (stored & Hget & Hexp).
  replace (_ <? _) with true in Hexp by (symmetry; by apply Z.ltb_lt).
  assert (Hcfg : config (gl w) = config g)
    by (rewrite Hgl; apply storeInCache_config).
  rewrite <- Hgl in Hget.
  assert (Hw2 : w2 =
    upd_tasks (fun t => set_requested (u :: requested t) t)
      (set_phase i {| f_item := item; f_start := clock (env w);
                      f_phase := AwaitCache (Some stored) |} AwaitNetwork w1)).
  { subst w2. unfold cacheLookupDone. subst w1.
    cbn [upd_env tasks env gl fetchAndCache running set_dispatched set_running].
    fold i. rewrite (list_lookup_middle _ _ _ i) by done.
    cbn [f_phase f_item f_start clock set_clock config upd_stats set_stats].
    rewrite Hitem.
    replace (getCachedResponse _ u) with (Some stored).
    rewrite Hcfg, Hexp. by simpl. }
  rewrite Hw2. subst w1. repeat split.
  - exists stored. rewrite Hcfg. done.
  - cbn. apply list_lookup_insert_eq. rewrite length_app. simpl. lia.
Qed.

End Expiration.

(** ** The scheduler *)

Section SchedulerProperties.
Context `{URLPlatform}.

Implicit Types (w : World) (g : Ghostloader) (u : url) (item : QueueItem).

(** The effective concurrency cap of a world. *)
Definition cap w : Z := getEffectiveMaxConcurrent (gl w).

(** One pass of the loop. *)
Lemma processQueue_loop_S fuel w :
  processQueue_loop (S fuel) w =
  match queue (gl w) with
  | [] => w
  | item :: rest =>
      if negb (activeRequests (gl w) <? cap w) then w
      else
        let g := set_queue rest (gl w) in
        if bool_decide (q_url item ∈ processing g)
           || bool_decide (q_url item ∈ processed g)
        then processQueue_loop fuel (upd_gl (fun _ => g) w)
        else if connectionAware (config g) && negb (withinDataLimits g)
        then upd_gl (fun _ => g) w
        else
          let g := set_processing ({[q_url item]} ∪ processing g) g in
          let g := set_activeRequests (activeRequests g + 1) g in
          let w := upd_gl (fun _ => g) w in
          if (0 <? betweenDelay (config g)) && (1 <? activeRequests g)
          then upd_tasks (fun t => set_delayed (delayed t ++ [item]) t) w
          else processQueue_loop fuel (fetchAndCache item w)
  end.
Proof. reflexivity. Qed.

(** The length of the queue is enough fuel: more changes nothing, so
    [processQueue] is the whole synchronous run of the loop. *)
Lemma processQueue_loop_fuel fuel : forall w,
  (length (queue (gl w)) <= fuel)%nat ->
  processQueue_loop fuel w = processQueue w.
Proof.
  unfold processQueue. induction fuel as [|fuel IH]; intros w Hlen.
  - destruct (queue (gl w)); simpl in Hlen; [done | lia].
  - destruct (queue (gl w)) as [|item rest] eqn:E.
    + simpl. by rewrite E.
    + simpl length. rewrite !processQueue_loop_S, E. simpl in Hlen.
      destruct (negb _); [done|]. cbv zeta.
      destruct (_ || _).
      * rewrite IH by (simpl; lia). done.
      * destruct (_ && _); [done|]. destruct (_ && _); [done|].
        rewrite IH by (simpl; lia). done.
Qed.

(** *** The concurrency cap *)

(** The cap reads the configuration and the connection only. *)
Definition static g g' : Prop :=
  config g' = config g /\ connectionInfo g' = connectionInfo g.

Lemma cap_static g g' :
  static g g' -> getEffectiveMaxConcurrent g' = getEffectiveMaxConcurrent g.
Proof. intros [Hc Hi]. unfold getEffectiveMaxConcurrent. by rewrite Hc, Hi. Qed.

(** From [w] to [w'] the cap is the same and the counter has grown at
    most up to it. *)
Definition bounded w w' : Prop :=
  static (gl w) (gl w') /\
  activeRequests (gl w') <= Z.max (activeRequests (gl w)) (cap w).

Lemma bounded_refl w : bounded w w.
Proof. repeat split. lia. Qed.

Lemma bounded_trans w1 w2 w3 : bounded w1 w2 -> bounded w2 w3 -> bounded w1 w3.
Proof.
  intros [[Hc1 Hi1] Ha1] [[Hc2 Hi2] Ha2].
  assert (cap w2 = cap w1) as Hcap by (by apply cap_static).
  repeat split; [congruence | congruence | lia].
Qed.

(** A step that leaves the configuration, the connection and the counter
    alone. *)
Lemma bounded_same w w' :
  config (gl w') = config (gl w) ->
  connectionInfo (gl w') = connectionInfo (gl w) ->
  activeRequests (gl w') = activeRequests (gl w) ->
  bounded w w'.
Proof. intros Hc Hi Ha. repeat split; [done | done | lia]. Qed.

Lemma fetchAndCache_bounded item w : bounded w (fetchAndCache item w).
Proof. by apply bounded_same. Qed.

Lemma processQueue_loop_bounded fuel : forall w,
  bounded w (processQueue_loop fuel w).
Proof.
  induction fuel as [|fuel IH]; intros w; [apply bounded_refl|].
  rewrite processQueue_loop_S.
  destruct (queue (gl w)) as [|item rest]; [apply bounded_refl|].
  destruct (activeRequests (gl w) <? cap w) eqn:Hguard; simpl negb; cbv iota;
    [|apply bounded_refl].
  apply Z.ltb_lt in Hguard. cbv zeta.
  destruct (_ || _).
  { eapply bounded_trans; [|apply IH]. by apply bounded_same. }
  destruct (_ && _); [by apply bounded_same|].
  assert (Hinc : bounded w
    (upd_gl (fun _ =>
       set_activeRequests (activeRequests (gl w) + 1)
         (set_processing ({[q_url item]} ∪ processing (gl w))
            (set_queue rest (gl w)))) w)).
  { repeat split. simpl. lia. }
  destruct (_ && _).
  - eapply bounded_trans; [exact Hinc|]. by apply bounded_same.
  - eapply bounded_trans; [exact Hinc|].
    eapply bounded_trans; [apply fetchAndCache_bounded | apply IH].
Qed.

Lemma processQueue_bounded w : bounded w (processQueue w).
Proof. apply processQueue_loop_bounded. Qed.

Lemma settle_bounded item w : bounded w (settle item w).
Proof.
  unfold settle. simpl. destruct (queue (gl w)); repeat split; simpl; lia.
Qed.

Lemma buildQueue_static e g : static g (buildQueue e g).
Proof. done. Qed.

Lemma enforceCacheLimit_static g : static g (enforceCacheLimit g).
Proof.
  unfold enforceCacheLimit. destruct (cacheAPI g); simpl;
    by destruct (cacheMaxSize (config g) <=? _).
Qed.

Lemma enforceCacheLimit_activeRequests g :
  activeRequests (enforceCacheLimit g) = activeRequests g.
Proof.
  unfold enforceCacheLimit. destruct (cacheAPI g); simpl;
    by destruct (cacheMaxSize (config g) <=? _).
Qed.

Lemma cacheWrite_static e u response md g :
  static g (cacheWrite e u response md g).
Proof. by destruct (cacheWrite_shape e u response md g) as (c & a & ->). Qed.

Lemma cacheWrite_activeRequests e u response md g :
  activeRequests (cacheWrite e u response md g) = activeRequests g.
Proof. by destruct (cacheWrite_shape e u response md g) as (c & a & ->). Qed.

Lemma cacheLookupDone_bounded i w : bounded w (cacheLookupDone i w).
Proof.
  unfold cacheLookupDone.
  destruct (running (tasks w) !! i) as [f|]; [|apply bounded_refl].
  destruct (f_phase f) as [cached| |]; try apply bounded_refl.
  destruct (match cached with Some _ => _ | None => _ end).
  - eapply bounded_trans; [|apply settle_bounded]. by apply bounded_same.
  - by apply bounded_same.
Qed.

Lemma responseArrived_bounded i result w : bounded w (responseArrived i result w).
Proof.
  unfold responseArrived.
  destruct (running (tasks w) !! i) as [f|]; [|apply bounded_refl].
  destruct (f_phase f) as [| |]; try apply bounded_refl.
  destruct result as [response|].
  - destruct (r_ok response).
    + apply bounded_same; cbn [gl set_phase upd_gl upd_tasks].
      * rewrite enforceCacheLimit_config. by destruct (r_content_length response).
      * destruct (enforceCacheLimit_static
          (match r_content_length response with
           | Some n => set_dataUsed (dataUsed (gl w) + n) (gl w)
           | None => gl w end)) as [_ ->].
        by destruct (r_content_length response).
      * rewrite enforceCacheLimit_activeRequests.
        by destruct (r_content_length response).
    + eapply bounded_trans; [|apply settle_bounded]. by apply bounded_same.
  - eapply bounded_trans; [|apply settle_bounded]. by apply bounded_same.
Qed.

Lemma bodyDone_bounded arrived i w : bounded w (bodyDone arrived i w).
Proof.
  unfold bodyDone.
  destruct (running (tasks w) !! i) as [f|]; [|apply bounded_refl].
  destruct (f_phase f) as [| |response md]; try apply bounded_refl.
  eapply bounded_trans; [|apply settle_bounded].
  unfold broadcastCacheUpdate.
  destruct (cacheWrite_static (env w) (q_url (f_item f)) response md (gl w))
    as [Hc Hi].
  pose proof (cacheWrite_activeRequests (env w) (q_url (f_item f))
                response md (gl w)) as Ha.
  destruct arrived; cbn [gl upd_gl];
    destruct (broadcastChannel _); by apply bounded_same.
Qed.

Lemma boostPriority_bounded u w : bounded w (boostPriority u w).
Proof.
  unfold boostPriority. destruct (0 <? _); [|apply bounded_refl].
  destruct (splice1 _ _) as [rest [item|]]; [|apply bounded_refl].
  eapply bounded_trans; [|apply processQueue_bounded]. by apply bounded_same.
Qed.

Lemma hoverBoost_bounded target w : bounded w (hoverBoost target w).
Proof.
  unfold hoverBoost. destruct (selector _ _); [|apply bounded_refl].
  destruct (normalizeUrl _ _); [|apply bounded_refl].
  destruct (_ && _); [apply boostPriority_bounded | apply bounded_refl].
Qed.

Lemma clearCache_bounded w : bounded w (clearCache w).
Proof.
  unfold clearCache, post. destruct (cacheAPI (gl w)); simpl;
    destruct (broadcastChannel (gl w)); by apply bounded_same.
Qed.

Lemma start_finish_bounded w : bounded w (start_finish w).
Proof.
  unfold start_finish.
  eapply bounded_trans; [|by apply bounded_same].
  eapply bounded_trans; [|apply processQueue_bounded]. by apply bounded_same.
Qed.

Lemma onMessage_bounded m w : bounded w (upd_gl (onMessage m) w).
Proof.
  apply bounded_same; unfold onMessage; simpl;
    destruct (broadcastChannel (gl w)); try done;
    destruct m; try done;
    unfold invalidateCache; by destruct (cacheAPI (gl w)).
Qed.

(** What [start] does before its initial delay leaves the counter alone. *)
Lemma processSSRHints_activeRequests e g :
  activeRequests (processSSRHints e g) = activeRequests g.
Proof.
  unfold processSSRHints.
  assert (Hmeta : forall metas g0,
    activeRequests (fold_left (metaHint e) metas g0) = activeRequests g0).
  { induction metas as [|meta metas IH]; intros g0; simpl; [done|].
    rewrite IH. unfold metaHint. destruct (mt_content meta); [|done].
    destruct (_ && _); [|done]. by destruct (bool_decide _). }
  assert (Hhints : forall hints g0,
    activeRequests (fold_left (jsonHint e) hints g0) = activeRequests g0).
  { induction hints as [|hint hints IH]; intros g0; simpl; [done|].
    rewrite IH. unfold jsonHint. destruct (h_url hint); [|done].
    by destruct (_ && _). }
  assert (Hscripts : forall scripts g0,
    activeRequests (fold_left (jsonLdScript e) scripts g0) = activeRequests g0).
  { induction scripts as [|script scripts IH]; intros g0; simpl; [done|].
    rewrite IH. destruct script; simpl; [apply Hhints | done]. }
  by rewrite Hscripts, Hmeta.
Qed.

Lemma detectConnection_activeRequests e g :
  activeRequests (detectConnection e g) = activeRequests g.
Proof.
  unfold detectConnection. destruct (nav_connection e) as [c|]; [|done].
  destruct (downlink c) as [d|]; [|done]. by destruct (JS.Qzero d).
Qed.

Lemma start_activeRequests w :
  activeRequests (gl (start w))
  <= Z.max (activeRequests (gl w)) (cap (start w)).
Proof.
  unfold start. destruct (isInitialized (gl w)); [lia|].
  match goal with |- context [upd_gl (fun _ => ?g1) w] => set (g := g1) end.
  assert (Hg : activeRequests g = activeRequests (gl w)).
  { subst g. destruct (ssrHints _); rewrite ?processSSRHints_activeRequests;
      unfold initializeCache; destruct (caches (env w)); simpl;
      unfold setupCrossTabCache; destruct (crossTabCache _);
      try destruct (has_BroadcastChannel (env w)); simpl;
      destruct (connectionAware _); by rewrite ?detectConnection_activeRequests. }
  destruct (0 <? initialDelay (config g)); [simpl; lia|].
  destruct (start_finish_bounded (upd_gl (fun _ => g) w)) as [Hs Ha].
  unfold cap in *. rewrite (cap_static _ _ Hs).
  change (gl (upd_gl (fun _ => g) w)) with g in *. lia.
Qed.

(** Events that leave the configuration and the connection alone. *)
Definition steady (ev : Event) : bool :=
  match ev with
  | EvStart | EvConfigure _ | EvConnectionChange _ => false
  | _ => true
  end.

Lemma steady_bounded w ev : steady ev = true -> bounded w (step w ev).
Proof.
  destruct ev; try done; intros _; simpl.
  - destruct (starting (tasks w)); [apply bounded_refl|].
    eapply bounded_trans; [|apply start_finish_bounded]. by apply bounded_same.
  - apply processQueue_bounded.
  - destruct (timers (tasks w)); [apply bounded_refl|].
    eapply bounded_trans; [|apply processQueue_bounded]. by apply bounded_same.
  - unfold betweenDelayElapsed.
    destruct (delayed (tasks w) !! i); [|apply bounded_refl].
    eapply bounded_trans; [|apply processQueue_bounded].
    eapply bounded_trans; [|apply fetchAndCache_bounded]. by apply bounded_same.
  - apply cacheLookupDone_bounded.
  - apply responseArrived_bounded.
  - apply bodyDone_bounded.
  - apply bodyDone_bounded.
  - apply hoverBoost_bounded.
  - apply boostPriority_bounded.
  - eapply bounded_trans; [|apply processQueue_bounded]. by apply bounded_same.
  - by apply bounded_same.
  - eapply bounded_trans; [|apply processQueue_bounded]. by apply bounded_same.
  - apply clearCache_bounded.
  - apply onMessage_bounded.
  - by apply bounded_same.
  - by apply bounded_same.
Qed.

(** Whatever the event, the counter grows at most up to the cap that
    holds after it. *)
Lemma step_activeRequests w ev :
  activeRequests (gl (step w ev))
  <= Z.max (activeRequests (gl w)) (cap (step w ev)).
Proof.
  destruct (steady ev) eqn:E.
  - destruct (steady_bounded w ev E) as [Hs Ha].
    unfold cap in *. rewrite (cap_static _ _ Hs). lia.
  - destruct ev; try done; simpl.
    + apply start_activeRequests.
    + lia.
    + unfold onConnectionChange. destruct (nav_connection (env w)); [|lia].
      simpl. destruct (connectionInfo (gl w)); simpl; lia.
Qed.

(** Along [evs] from [w], no step leaves the cap under the number of
    requests that are in flight when it is taken. *)
Fixpoint cap_covers w (evs : list Event) : Prop :=
  match evs with
  | [] => True
  | ev :: evs' =>
      activeRequests (gl w) <= cap (step w ev) /\ cap_covers (step w ev) evs'
  end.

Lemma steady_cap_covers evs : forall w,
  activeRequests (gl w) <= cap w ->
  Forall (fun ev => steady ev = true) evs ->
  cap_covers w evs /\ cap (run w evs) = cap w.
Proof.
  induction evs as [|ev evs IH]; intros w Hw Hevs; [done|].
  apply Forall_cons in Hevs as [Hev Hevs].
  destruct (steady_bounded w ev Hev) as [Hs Ha].
  assert (Hcap : cap (step w ev) = cap w) by (by apply cap_static).
  destruct (IH (step w ev)) as [Hcov Hrun]; [lia | done |].
  simpl. repeat split; [lia | done | by rewrite <- Hcap].
Qed.

(** C2, as the code has it.  The counter stays within the effective cap
    along every run in which no step leaves the cap under the number of
    requests already in flight; that is so in every run without [start],
    [configure] and connection changes, where the cap is constant.  The
    drain loop raises the counter only under the check against the cap,
    and every completion lowers it by one. *)
Theorem activeRequests_within_cap w evs :
  activeRequests (gl w) <= cap w ->
  (cap_covers w evs ->
     activeRequests (gl (run w evs)) <= cap (run w evs)) /\
  (Forall (fun ev => steady ev = true) evs ->
     cap (run w evs) = cap w /\
     activeRequests (gl (run w evs)) <= cap w) /\
  activeRequests (gl (processQueue w)) <= cap (processQueue w) /\
  (forall item,
     activeRequests (gl (settle item w)) = activeRequests (gl w) - 1).
Proof.
  intros Hw.
  assert (Hrun : forall evs w, activeRequests (gl w) <= cap w ->
    cap_covers w evs -> activeRequests (gl (run w evs)) <= cap (run w evs)).
  { clear. induction evs as [|ev evs IH]; intros w Hw Hcov; [done|].
    destruct Hcov as [Hcov Hrest]. simpl. apply IH; [|done].
    pose proof (step_activeRequests w ev). lia. }
  split; [by apply Hrun|]. split; [|split].
  - intros Hsteady. destruct (steady_cap_covers evs w Hw Hsteady) as [Hcov Hcap].
    split; [done|]. rewrite <- Hcap. by apply Hrun.
  - destruct (processQueue_bounded w) as [Hs Ha].
    unfold cap in *. rewrite (cap_static _ _ Hs). lia.
  - intros item. unfold settle. simpl. by destruct (queue (gl w)).
Qed.

(** *** Processed URLs *)

(** [u] is processed and no suspended [processQueue] call holds it. *)
Definition settled u w : Prop :=
  u ∈ processed (gl w) /\ u ∉ q_url <$> delayed (tasks w).

(** From [w] to [w'], [u] stays settled and [fetchAndCache] was not
    called for it. *)
Definition quiet u w w' : Prop :=
  settled u w' /\
  exists new, dispatched (tasks w') = new ++ dispatched (tasks w) /\ u ∉ new.

Lemma quiet_refl u w : settled u w -> quiet u w w.
Proof. intros Hw. split; [done|]. exists []. split; [done | apply not_elem_of_nil]. Qed.

Lemma quiet_trans u w1 w2 w3 : quiet u w1 w2 -> quiet u w2 w3 -> quiet u w1 w3.
Proof.
  intros [_ (new1 & Hd1 & Hn1)] [Hs (new2 & Hd2 & Hn2)]. split; [done|].
  exists (new2 ++ new1). rewrite Hd2, Hd1, app_assoc. split; [done|].
  rewrite elem_of_app. by intros [|].
Qed.

(** A step that keeps [u] processed and touches neither the suspended
    calls nor the history. *)
Lemma quiet_same u w w' :
  settled u w ->
  u ∈ processed (gl w') ->
  delayed (tasks w') = delayed (tasks w) ->
  dispatched (tasks w') = dispatched (tasks w) ->
  quiet u w w'.
Proof.
  intros [Hp Hd] Hp' Hd' Hh. split; [split; [done | by rewrite Hd']|].
  exists []. split; [done | apply not_elem_of_nil].
Qed.

Lemma fetchAndCache_quiet u item w :
  q_url item <> u -> settled u w -> quiet u w (fetchAndCache item w).
Proof.
  intros Hne [Hp Hd]. split; [done|]. exists [q_url item]. split; [done|].
  apply not_elem_of_cons. split; [congruence | apply not_elem_of_nil].
Qed.

Lemma processQueue_loop_quiet u fuel : forall w,
  settled u w -> quiet u w (processQueue_loop fuel w).
Proof.
  induction fuel as [|fuel IH]; intros w Hw; [by apply quiet_refl|].
  rewrite processQueue_loop_S.
  destruct (queue (gl w)) as [|item rest]; [by apply quiet_refl|].
  destruct (negb _); [by apply quiet_refl|]. cbv zeta.
  destruct (bool_decide (q_url item ∈ processing (set_queue rest (gl w)))
            || bool_decide (q_url item ∈ processed (set_queue rest (gl w))))
    eqn:Eseen.
  { assert (Hq : quiet u w (upd_gl (fun _ => set_queue rest (gl w)) w))
      by (apply quiet_same; (done || apply Hw)).
    eapply quiet_trans; [exact Hq | apply IH, Hq]. }
  apply orb_false_elim in Eseen as [_ Eseen].
  apply bool_decide_eq_false_1 in Eseen. cbn [processed set_queue] in Eseen.
  assert (Hne : q_url item <> u)
    by (intros Heq; rewrite Heq in Eseen; by destruct Hw).
  destruct (_ && _); [apply quiet_same; (done || apply Hw)|].
  match goal with |- context [upd_gl (fun _ => ?g1) w] => set (g := g1) end.
  assert (Hq : quiet u w (upd_gl (fun _ => g) w))
    by (apply quiet_same; (done || apply Hw)).
  destruct (_ && _).
  - eapply quiet_trans; [exact Hq|]. destruct Hw as [Hp Hd]. split.
    + split; [done|]. cbn. rewrite fmap_app, elem_of_app.
      intros [Hin | Hin]; [done|]. by apply list_elem_of_singleton in Hin.
    + exists []. split; [done | apply not_elem_of_nil].
  - eapply quiet_trans; [exact Hq|].
    assert (Hf : quiet u (upd_gl (fun _ => g) w)
                   (fetchAndCache item (upd_gl (fun _ => g) w)))
      by (apply fetchAndCache_quiet; [done | apply Hq]).
    eapply quiet_trans; [exact Hf | apply IH, Hf].
Qed.

Lemma processQueue_quiet u w : settled u w -> quiet u w (processQueue w).
Proof. apply processQueue_loop_quiet. Qed.

Lemma settle_quiet u item w : settled u w -> quiet u w (settle item w).
Proof.
  intros Hw. unfold settle. cbn.
  destruct (queue (gl w)); apply quiet_same; try done; cbn;
    apply elem_of_union; right; apply Hw.
Qed.

Lemma end_task_quiet u i w : settled u w -> quiet u w (end_task i w).
Proof. intros Hw. apply quiet_same; (done || apply Hw). Qed.

Lemma enforceCacheLimit_processed g : processed (enforceCacheLimit g) = processed g.
Proof.
  unfold enforceCacheLimit. destruct (cacheAPI g); simpl;
    by destruct (cacheMaxSize (config g) <=? _).
Qed.

Lemma cacheWrite_processed e u response md g :
  processed (cacheWrite e u response md g) = processed g.
Proof. by destruct (cacheWrite_shape e u response md g) as (c & a & ->). Qed.

Lemma cacheLookupDone_quiet u i w : settled u w -> quiet u w (cacheLookupDone i w).
Proof.
  intros Hw. unfold cacheLookupDone.
  destruct (running (tasks w) !! i) as [f|]; [|by apply quiet_refl].
  destruct (f_phase f) as [cached| |]; try by apply quiet_refl.
  destruct (match cached with Some _ => _ | None => _ end).
  - assert (Hq : quiet u w (end_task i
      (upd_gl (upd_stats (fun s => set_cacheHits (cacheHits s + 1) s)) w)))
      by (apply quiet_same; (done || apply Hw)).
    eapply quiet_trans; [exact Hq | apply settle_quiet, Hq].
  - apply quiet_same; (done || apply Hw).
Qed.

Lemma responseArrived_quiet u i result w :
  settled u w -> quiet u w (responseArrived i result w).
Proof.
  intros Hw. unfold responseArrived.
  destruct (running (tasks w) !! i) as [f|]; [|by apply quiet_refl].
  destruct (f_phase f) as [| |]; try by apply quiet_refl.
  destruct result as [response|].
  - destruct (r_ok response).
    + apply quiet_same; try done. cbn [gl set_phase upd_gl upd_tasks].
      rewrite enforceCacheLimit_processed.
      destruct (r_content_length response); apply Hw.
    + match goal with |- quiet u w (settle _ ?w1) =>
        assert (Hq : quiet u w w1) by (apply quiet_same; (done || apply Hw)) end.
      eapply quiet_trans; [exact Hq | apply settle_quiet, Hq].
  - eapply quiet_trans; [by apply end_task_quiet | by apply settle_quiet, end_task_quiet].
Qed.

Lemma bodyDone_quiet u arrived i w :
  settled u w -> quiet u w (bodyDone arrived i w).
Proof.
  intros Hw. unfold bodyDone.
  destruct (running (tasks w) !! i) as [f|]; [|by apply quiet_refl].
  destruct (f_phase f) as [| |response md]; try by apply quiet_refl.
  match goal with |- quiet u w (settle _ ?w1) =>
    assert (Hq : quiet u w w1) end.
  { unfold broadcastCacheUpdate. destruct arrived; cbn [gl upd_gl];
      destruct (broadcastChannel _); apply quiet_same; try done; cbn;
      rewrite ?cacheWrite_processed; apply Hw. }
  eapply quiet_trans; [exact Hq | apply settle_quiet, Hq].
Qed.

Lemma boostPriority_quiet u v w : settled u w -> quiet u w (boostPriority v w).
Proof.
  intros Hw. unfold boostPriority. destruct (0 <? _); [|by apply quiet_refl].
  destruct (splice1 _ _) as [rest [item|]]; [|by apply quiet_refl].
  assert (Hq : quiet u w (upd_gl (set_queue (item :: rest)) w))
    by (apply quiet_same; (done || apply Hw)).
  eapply quiet_trans; [exact Hq | apply processQueue_quiet, Hq].
Qed.

Lemma processSSRHints_processed e g :
  processed (processSSRHints e g) = processed g.
Proof.
  unfold processSSRHints.
  assert (Hmeta : forall metas g0,
    processed (fold_left (metaHint e) metas g0) = processed g0).
  { induction metas as [|meta metas IH]; intros g0; simpl; [done|].
    rewrite IH. unfold metaHint. destruct (mt_content meta); [|done].
    destruct (_ && _); [|done]. by destruct (bool_decide _). }
  assert (Hhints : forall hints g0,
    processed (fold_left (jsonHint e) hints g0) = processed g0).
  { induction hints as [|hint hints IH]; intros g0; simpl; [done|].
    rewrite IH. unfold jsonHint. destruct (h_url hint); [|done].
    by destruct (_ && _). }
  assert (Hscripts : forall scripts g0,
    processed (fold_left (jsonLdScript e) scripts g0) = processed g0).
  { induction scripts as [|script scripts IH]; intros g0; simpl; [done|].
    rewrite IH. destruct script; simpl; [apply Hhints | done]. }
  by rewrite Hscripts, Hmeta.
Qed.

Lemma detectConnection_processed e g :
  processed (detectConnection e g) = processed g.
Proof.
  unfold detectConnection. destruct (nav_connection e) as [c|]; [|done].
  destruct (downlink c) as [d|]; [|done]. by destruct (JS.Qzero d).
Qed.

Lemma start_finish_quiet u w : settled u w -> quiet u w (start_finish w).
Proof.
  intros Hw. unfold start_finish.
  assert (Hq : quiet u w (upd_gl (buildQueue (env w)) w))
    by (apply quiet_same; (done || apply Hw)).
  assert (Hp : quiet u w (processQueue (upd_gl (buildQueue (env w)) w)))
    by (eapply quiet_trans; [exact Hq | apply processQueue_quiet, Hq]).
  eapply quiet_trans; [exact Hp|]. apply quiet_same; (done || apply Hp).
Qed.

Lemma start_quiet u w : settled u w -> quiet u w (start w).
Proof.
  intros Hw. unfold start. destruct (isInitialized (gl w)); [by apply quiet_refl|].
  match goal with |- context [upd_gl (fun _ => ?g1) w] => set (g := g1) end.
  assert (Hg : processed g = processed (gl w)).
  { subst g. destruct (ssrHints _); rewrite ?processSSRHints_processed;
      unfold initializeCache; destruct (caches (env w)); simpl;
      unfold setupCrossTabCache; destruct (crossTabCache _);
      try destruct (has_BroadcastChannel (env w)); simpl;
      destruct (connectionAware _); by rewrite ?detectConnection_processed. }
  assert (Hq : quiet u w (upd_gl (fun _ => g) w)).
  { apply quiet_same; try done. cbn. rewrite Hg. apply Hw. }
  destruct (0 <? initialDelay (config g)).
  - eapply quiet_trans; [exact Hq|]. apply quiet_same; (done || apply Hq).
  - eapply quiet_trans; [exact Hq | apply start_finish_quiet, Hq].
Qed.

Definition is_clearCache (ev : Event) : bool :=
  match ev with EvClearCache => true | _ => false end.

Lemma step_quiet u w ev :
  is_clearCache ev = false -> settled u w -> quiet u w (step w ev).
Proof.
  intros Hev Hw. destruct ev; try done; simpl.
  - by apply start_quiet.
  - destruct (starting (tasks w)); [by apply quiet_refl|].
    match goal with |- quiet u w (start_finish ?w1) =>
      assert (Hq : quiet u w w1) by (apply quiet_same; (done || apply Hw)) end.
    eapply quiet_trans; [exact Hq | apply start_finish_quiet, Hq].
  - by apply processQueue_quiet.
  - destruct (timers (tasks w)); [by apply quiet_refl|].
    match goal with |- quiet u w (processQueue ?w1) =>
      assert (Hq : quiet u w w1) by (apply quiet_same; (done || apply Hw)) end.
    eapply quiet_trans; [exact Hq | apply processQueue_quiet, Hq].
  - unfold betweenDelayElapsed.
    destruct (delayed (tasks w) !! i) as [item|] eqn:Ei; [|by apply quiet_refl].
    destruct Hw as [Hp Hd].
    assert (Hne : q_url item <> u).
    { intros <-. apply Hd. apply list_elem_of_fmap_2.
      by apply list_elem_of_lookup_2 with i. }
    match goal with |- quiet u w (processQueue (fetchAndCache item ?w1)) =>
      assert (Hq : quiet u w w1) end.
    { split; [split; [done|]|].
      - cbn. intros Hin. apply Hd.
        apply list_elem_of_fmap in Hin as (x & -> & Hx).
        apply list_elem_of_fmap_2.
        by apply (sublist_subseteq _ _ (sublist_delete (delayed (tasks w)) i)).
      - exists []. split; [done | apply not_elem_of_nil]. }
    eapply quiet_trans; [exact Hq|].
    assert (Hf := fetchAndCache_quiet u item _ Hne (proj1 Hq)).
    eapply quiet_trans; [exact Hf | apply processQueue_quiet, Hf].
  - by apply cacheLookupDone_quiet.
  - by apply responseArrived_quiet.
  - by apply bodyDone_quiet.
  - by apply bodyDone_quiet.
  - unfold hoverBoost. destruct (selector _ _); [|by apply quiet_refl].
    destruct (normalizeUrl _ _); [|by apply quiet_refl].
    destruct (_ && _); [by apply boostPriority_quiet | by apply quiet_refl].
  - by apply boostPriority_quiet.
  - match goal with |- quiet u w (processQueue ?w1) =>
      assert (Hq : quiet u w w1) by (apply quiet_same; (done || apply Hw)) end.
    eapply quiet_trans; [exact Hq | apply processQueue_quiet, Hq].
  - apply quiet_same; (done || apply Hw).
  - match goal with |- quiet u w (resume w) =>
      assert (Hq : quiet u w (upd_gl (set_isPaused (Some false)) w))
        by (apply quiet_same; (done || apply Hw)) end.
    eapply quiet_trans; [exact Hq | apply processQueue_quiet, Hq].
  - apply quiet_same; (done || apply Hw).
  - unfold onConnectionChange. destruct (nav_connection (env w)); [|by apply quiet_refl].
    cbn. destruct (connectionInfo (gl w)); apply quiet_same; (done || apply Hw).
  - apply quiet_same; try done. unfold onMessage. cbn.
    destruct (broadcastChannel (gl w)); [|apply Hw].
    destruct m; cbn; try apply Hw.
    + apply elem_of_union. right. apply Hw.
    + unfold invalidateCache. destruct (cacheAPI (gl w)); apply Hw.
  - apply quiet_same; (done || apply Hw).
  - apply quiet_same; (done || apply Hw).
Qed.

Lemma run_quiet u evs : forall w,
  Forall (fun ev => is_clearCache ev = false) evs ->
  settled u w -> quiet u w (run w evs).
Proof.
  induction evs as [|ev evs IH]; intros w Hevs Hw; [by apply quiet_refl|].
  apply Forall_cons in Hevs as [Hev Hevs].
  pose proof (step_quiet u w ev Hev Hw) as Hq.
  eapply quiet_trans; [exact Hq | apply IH; [done | apply Hq]].
Qed.

(** What [buildQueue] queues is neither processed nor in flight. *)
Lemma buildQueue_skips e g item :
  item ∈ queue (buildQueue e g) ->
  (q_url item ∉ processed g) /\ (q_url item ∉ processing g).
Proof.
  unfold buildQueue. cbn [queue set_queue]. rewrite sort_by_perm.
  intros Hin. apply list_elem_of_omap in Hin as (link & _ & Hentry).
  unfold linkEntry in Hentry.
  destruct (normalizeUrl e (e_href link)) as [href|]; [|done].
  destruct (negb (JS.truthy (Some href)) || bool_decide (Some href ∈ processed g)
            || bool_decide (Some href ∈ processing g)) eqn:Eseen; [done|].
  apply orb_false_elim in Eseen as [Eseen Eing].
  apply orb_false_elim in Eseen as [_ Eed].
  apply bool_decide_eq_false_1 in Eing, Eed.
  repeat (destruct (_ : bool) in Hentry; try done).
  by injection Hentry as <-.
Qed.

(** C4, as the code has it.  Once [u] is processed and no suspended drain
    call holds it, no run without [clearCache] (which empties the set)
    calls [fetchAndCache] for [u] again, and [u] stays processed:
    [buildQueue] queues no URL that is processed or in flight, also when
    the URL is back in the document, and [processQueue] drops a dequeued
    item whose URL is processed. *)
Theorem processed_never_fetched_again w u evs :
  u ∈ processed (gl w) ->
  u ∉ q_url <$> delayed (tasks w) ->
  Forall (fun ev => is_clearCache ev = false) evs ->
  (exists new, dispatched (tasks (run w evs)) = new ++ dispatched (tasks w) /\
               u ∉ new) /\
  u ∈ processed (gl (run w evs)) /\
  (forall e item, item ∈ queue (buildQueue e (gl w)) -> q_url item <> u) /\
  (forall item rest, queue (gl w) = item :: rest -> q_url item = u ->
     activeRequests (gl w) < cap w ->
     processQueue w = processQueue (upd_gl (set_queue rest) w)).
Proof.
  intros Hp Hd Hevs.
  destruct (run_quiet u evs w Hevs (conj Hp Hd)) as [[Hp' _] Hnew].
  split; [done|]. split; [done|]. split.
  - intros e item Hin Heq. apply buildQueue_skips in Hin as [Hin _].
    by rewrite Heq in Hin.
  - intros item rest Hq Hu Hguard. unfold processQueue at 1. rewrite Hq.
    simpl length. rewrite processQueue_loop_S, Hq.
    replace (activeRequests (gl w) <? cap w) with true
      by (symmetry; by apply Z.ltb_lt).
    cbn [negb]. cbv zeta. cbn [processed processing set_queue]. rewrite Hu.
    rewrite (bool_decide_eq_true_2 (u ∈ processed (gl w))) by done.
    rewrite orb_true_r. by apply processQueue_loop_fuel.
Qed.

(** *** The rebuild replaces the queue *)

(** [buildQueue] does not read the queue it replaces: what the hint
    ingestor has put there is gone after it. *)
Lemma buildQueue_replaces_queue e g q :
  queue (buildQueue e (set_queue q g)) = queue (buildQueue e g).
Proof. reflexivity. Qed.

(** Every entry of a rebuilt queue comes from a link of the document. *)
Lemma buildQueue_only_links e g item :
  item ∈ queue (buildQueue e g) ->
  q_source item = None /\
  exists link, link ∈ elements (page e) /\ q_element item = Some link.
Proof.
  unfold buildQueue. cbn [queue set_queue]. rewrite sort_by_perm.
  intros Hin. apply list_elem_of_omap in Hin as (link & Hlink & Hentry).
  apply list_elem_of_In, filter_In in Hlink as [Hlink _].
  apply list_elem_of_In in Hlink.
  unfold linkEntry in Hentry.
  destruct (normalizeUrl e (e_href link)) as [href|]; [|done].
  repeat (destruct (_ : bool) in Hentry; try done).
  injection Hentry as <-. split; [done|]. by exists link.
Qed.

(** *** The pause flag *)

(** The drain loop never reads [isPaused]: it does the same, whatever the
    flag is. *)
Lemma processQueue_loop_ignores_pause p fuel : forall w,
  processQueue_loop fuel (upd_gl (set_isPaused p) w) =
  upd_gl (set_isPaused p) (processQueue_loop fuel w).
Proof.
  induction fuel as [|fuel IH]; intros w; [done|].
  rewrite !processQueue_loop_S. cbn [gl upd_gl queue set_isPaused].
  destruct (queue (gl w)) as [|item rest]; [done|].
  change (cap (upd_gl (set_isPaused p) w)) with (cap w).
  cbn [activeRequests].
  destruct (negb _); [done|]. cbv zeta.
  cbn [processing processed set_queue config].
  destruct (_ || _).
  { rewrite <- IH. done. }
  change (withinDataLimits (set_queue rest (set_isPaused p (gl w))))
    with (withinDataLimits (set_queue rest (gl w))).
  destruct (_ && _); [done|].
  cbn [config set_activeRequests set_processing set_queue activeRequests].
  destruct (_ && _); [done|].
  rewrite <- IH. done.
Qed.

Lemma processQueue_ignores_pause p w :
  processQueue (upd_gl (set_isPaused p) w) =
  upd_gl (set_isPaused p) (processQueue w).
Proof. apply processQueue_loop_ignores_pause. Qed.

(** *** An exhausted data budget *)

(** The budget is zero and spent, data limits are checked, and nothing is
    in flight. *)
Definition starved w : Prop :=
  connectionAware (config (gl w)) = true /\
  dataLimit (config (gl w)) = 0 /\
  dataUsed (gl w) = 0 /\
  delayed (tasks w) = [] /\
  running (tasks w) = [].

(** From [w] to [w'] nothing was handed to [fetchAndCache] or requested. *)
Definition idle w w' : Prop :=
  starved w' /\
  dispatched (tasks w') = dispatched (tasks w) /\
  requested (tasks w') = requested (tasks w).

Lemma idle_refl w : starved w -> idle w w.
Proof. done. Qed.

Lemma idle_trans w1 w2 w3 : idle w1 w2 -> idle w2 w3 -> idle w1 w3.
Proof. intros (_ & Hd1 & Hr1) (Hs & Hd2 & Hr2). repeat split; (apply Hs || congruence). Qed.

Lemma idle_same w w' :
  starved w ->
  config (gl w') = config (gl w) ->
  dataUsed (gl w') = 0 ->
  tasks w' = tasks w \/
    (delayed (tasks w') = [] /\ running (tasks w') = [] /\
     dispatched (tasks w') = dispatched (tasks w) /\
     requested (tasks w') = requested (tasks w)) ->
  idle w w'.
Proof.
  intros (Hc & Hl & Hu & Hd & Hr) Hc' Hu' [Ht | (Hd' & Hr' & Hh & Hq)];
    unfold idle, starved; rewrite ?Hc', ?Ht; done.
Qed.

Lemma starved_withinDataLimits w : starved w -> withinDataLimits (gl w) = false.
Proof.
  intros (_ & Hl & Hu & _). unfold withinDataLimits. rewrite Hl, Hu.
  destruct (connectionInfo (gl w)) as [c|]; [by destruct (saveData c) | done].
Qed.

Lemma processQueue_loop_idle fuel : forall w,
  starved w -> idle w (processQueue_loop fuel w).
Proof.
  induction fuel as [|fuel IH]; intros w Hw; [by apply idle_refl|].
  rewrite processQueue_loop_S.
  destruct (queue (gl w)) as [|item rest]; [by apply idle_refl|].
  destruct (negb _); [by apply idle_refl|]. cbv zeta.
  assert (Hq : idle w (upd_gl (fun _ => set_queue rest (gl w)) w))
    by (apply idle_same; [done | done | apply Hw | by left]).
  destruct (_ || _); [eapply idle_trans; [exact Hq | apply IH, Hq]|].
  change (withinDataLimits (set_queue rest (gl w))) with (withinDataLimits (gl w)).
  rewrite (starved_withinDataLimits w Hw). cbn [config set_queue].
  destruct Hw as (-> & _). exact Hq.
Qed.

Lemma processQueue_idle w : starved w -> idle w (processQueue w).
Proof. apply processQueue_loop_idle. Qed.

(** The hint ingestor writes the queue and the set of seen hints only. *)
Lemma processSSRHints_shape e g :
  exists q seen, processSSRHints e g = set_queue q (set_ssrHintsReceived seen g).
Proof.
  unfold processSSRHints.
  assert (Hstart : g = set_queue (queue g) (set_ssrHintsReceived (ssrHintsReceived g) g))
    by (by destruct g).
  assert (Hmeta : forall metas q seen, exists q' seen',
    fold_left (metaHint e) metas (set_queue q (set_ssrHintsReceived seen g))
    = set_queue q' (set_ssrHintsReceived seen' g)).
  { induction metas as [|meta metas IH]; intros q seen; simpl; [by eauto|].
    unfold metaHint at 2. destruct (mt_content meta) as [s|]; [|apply IH].
    destruct (_ && _); [|apply IH].
    destruct (bool_decide _).
    - pose proof (IH ({| q_url := normalizeUrl e s; q_element := None;
                         q_priority := -1000; q_timestamp := clock e;
                         q_source := Some "ssr-hint" |} :: q)
                     ({[s]} ∪ seen)) as IH'. exact IH'.
    - pose proof (IH q ({[s]} ∪ seen)) as IH'. exact IH'. }
  assert (Hhints : forall hints q seen, exists q' seen',
    fold_left (jsonHint e) hints (set_queue q (set_ssrHintsReceived seen g))
    = set_queue q' (set_ssrHintsReceived seen' g)).
  { induction hints as [|hint hints IH]; intros q seen; simpl; [by eauto|].
    unfold jsonHint at 2. destruct (h_url hint) as [s|]; [|apply IH].
    destruct (_ && _); [|apply IH].
    pose proof (IH ({| q_url := normalizeUrl e s; q_element := None;
                       q_priority := JS.or_num (default 0 (h_priority hint)) 0;
                       q_timestamp := clock e;
                       q_source := Some "ssr-hint-json" |} :: q)
                   ({[s]} ∪ seen)) as IH'. exact IH'. }
  assert (Hscripts : forall scripts q seen, exists q' seen',
    fold_left (jsonLdScript e) scripts (set_queue q (set_ssrHintsReceived seen g))
    = set_queue q' (set_ssrHintsReceived seen' g)).
  { induction scripts as [|script scripts IH]; intros q seen; simpl; [by eauto|].
    destruct script as [hints|]; simpl; [|apply IH].
    destruct (Hhints hints q seen) as (q' & seen' & ->). apply IH. }
  rewrite Hstart.
  destruct (Hmeta (metaHints (page e)) (queue g) (ssrHintsReceived g))
    as (q1 & seen1 & ->).
  apply Hscripts.
Qed.

Lemma start_idle w : starved w -> idle w (start w).
Proof.
  intros Hw. unfold start. destruct (isInitialized (gl w)); [by apply idle_refl|].
  match goal with |- context [upd_gl (fun _ => ?g1) w] => set (g := g1) end.
  assert (Hg : config g = config (gl w) /\ dataUsed g = dataUsed (gl w)).
  { subst g. destruct (ssrHints _);
      [match goal with |- context [processSSRHints ?e ?g0] =>
         destruct (processSSRHints_shape e g0) as (q & seen & ->) end|];
      cbn [config dataUsed set_queue set_ssrHintsReceived];
      unfold initializeCache; destruct (caches (env w)); cbn;
      unfold setupCrossTabCache; destruct (crossTabCache _);
      try destruct (has_BroadcastChannel (env w)); cbn;
      destruct (connectionAware _); try done;
      unfold detectConnection; destruct (nav_connection (env w)) as [c|]; try done;
      destruct (downlink c) as [d|]; try done; by destruct (JS.Qzero d). }
  destruct Hg as [Hc Hu].
  assert (Hq : idle w (upd_gl (fun _ => g) w)).
  { apply idle_same; [done | done | | by left]. cbn. rewrite Hu. apply Hw. }
  destruct (0 <? initialDelay (config g)).
  - eapply idle_trans; [exact Hq|].
    apply idle_same; [apply Hq | done | apply Hq | right; repeat split; apply Hq].
  - eapply idle_trans; [exact Hq|]. unfold start_finish.
    assert (Hb : idle (upd_gl (fun _ => g) w)
                   (upd_gl (buildQueue (env (upd_gl (fun _ => g) w)))
                           (upd_gl (fun _ => g) w)))
      by (apply idle_same; [apply Hq | done | apply Hq | by left]).
    eapply idle_trans; [exact Hb|].
    eapply idle_trans; [apply processQueue_idle, Hb|].
    match goal with |- idle ?w1 _ =>
      assert (Hp : starved w1) by apply processQueue_idle, Hb end.
    apply idle_same; [done | done | apply Hp | by left].
Qed.

Definition is_configure (ev : Event) : bool :=
  match ev with EvConfigure _ => true | _ => false end.

Lemma step_idle w ev : is_configure ev = false -> starved w -> idle w (step w ev).
Proof.
  intros Hev Hw. pose proof Hw as (Hc & Hl & Hu & Hd & Hr).
  destruct ev; try done; simpl.
  - by apply start_idle.
  - destruct (starting (tasks w)) as [|n]; [by apply idle_refl|].
    match goal with |- idle w (start_finish ?w0) =>
      assert (Hq : idle w w0)
        by (apply idle_same; [done | done | exact Hu | right; by repeat split]) end.
    eapply idle_trans; [exact Hq|]. unfold start_finish.
    match goal with |- idle ?w0 (upd_gl _ (processQueue ?w1)) =>
      assert (Hb : idle w0 w1)
        by (apply idle_same; [apply Hq | done | apply Hq | by left]) end.
    eapply idle_trans; [exact Hb|].
    eapply idle_trans; [apply processQueue_idle, Hb|].
    match goal with |- idle ?w1 _ =>
      assert (Hp : starved w1) by apply processQueue_idle, Hb end.
    apply idle_same; [done | done | apply Hp | by left].
  - by apply processQueue_idle.
  - destruct (timers (tasks w)) as [|n]; [by apply idle_refl|].
    match goal with |- idle w (processQueue ?w0) =>
      assert (Hq : idle w w0)
        by (apply idle_same; [done | done | exact Hu | right; by repeat split]) end.
    eapply idle_trans; [exact Hq | apply processQueue_idle, Hq].
  - unfold betweenDelayElapsed. rewrite Hd. by apply idle_refl.
  - unfold cacheLookupDone. rewrite Hr. by apply idle_refl.
  - unfold responseArrived. rewrite Hr. by apply idle_refl.
  - unfold bodyRead, bodyDone. rewrite Hr. by apply idle_refl.
  - unfold bodyFailed, bodyDone. rewrite Hr. by apply idle_refl.
  - unfold hoverBoost. destruct (selector _ _); [|by apply idle_refl].
    destruct (normalizeUrl _ _); [|by apply idle_refl].
    destruct (_ && _); [|by apply idle_refl].
    unfold boostPriority. destruct (0 <? _); [|by apply idle_refl].
    destruct (splice1 _ _) as [rest [item|]]; [|by apply idle_refl].
    match goal with |- idle w (processQueue ?w0) =>
      assert (Hq : idle w w0)
        by (apply idle_same; [done | done | exact Hu | by left]) end.
    eapply idle_trans; [exact Hq | apply processQueue_idle, Hq].
  - unfold boostPriority. destruct (0 <? _); [|by apply idle_refl].
    destruct (splice1 _ _) as [rest [item|]]; [|by apply idle_refl].
    match goal with |- idle w (processQueue ?w0) =>
      assert (Hq : idle w w0)
        by (apply idle_same; [done | done | exact Hu | by left]) end.
    eapply idle_trans; [exact Hq | apply processQueue_idle, Hq].
  - match goal with |- idle w (processQueue ?w0) =>
      assert (Hq : idle w w0)
        by (apply idle_same; [done | done | exact Hu | by left]) end.
    eapply idle_trans; [exact Hq | apply processQueue_idle, Hq].
  - match goal with |- idle w (resume w) =>
      assert (Hq : idle w (upd_gl (set_isPaused (Some false)) w))
        by (apply idle_same; [done | done | exact Hu | by left]) end.
    eapply idle_trans; [exact Hq | apply processQueue_idle, Hq].
  - unfold clearCache, post. destruct (cacheAPI (gl w)); cbn;
      destruct (broadcastChannel (gl w));
      (apply idle_same; [done | done | done | (by left) || (right; by repeat split)]).
  - unfold onConnectionChange. destruct (nav_connection (env w)); [|by apply idle_refl].
    cbn. destruct (connectionInfo (gl w));
      (apply idle_same; [done | done | exact Hu | by left]).
  - apply idle_same; [done | | | by left]; unfold onMessage; cbn;
      destruct (broadcastChannel (gl w)); try done;
      destruct m; try done; unfold invalidateCache;
      by destruct (cacheAPI (gl w)).
Qed.

(** With a data limit of zero and data limits checked, nothing is ever
    handed to [fetchAndCache] or requested from the network, as long as
    the page does not reconfigure the engine. *)
Lemma dataLimit_zero_never_fetches evs : forall w,
  Forall (fun ev => is_configure ev = false) evs ->
  starved w ->
  dispatched (tasks (run w evs)) = dispatched (tasks w) /\
  requested (tasks (run w evs)) = requested (tasks w) /\
  withinDataLimits (gl (run w evs)) = false.
Proof.
  induction evs as [|ev evs IH]; intros w Hevs Hw.
  - repeat split. by apply starved_withinDataLimits.
  - apply Forall_cons in Hevs as [Hev Hevs].
    destruct (step_idle w ev Hev Hw) as (Hs & Hd & Hr).
    destruct (IH (step w ev) Hevs Hs) as (Hd' & Hr' & Hl).
    simpl. repeat split; congruence.
Qed.

End SchedulerProperties.

(** ** Distinct keys *)

Section CacheKeys.
Context `{URLPlatform}.

Implicit Types (w : World) (g : Ghostloader) (u : url).

Lemma store_put_keys {K V} `{EqDecision K} (m : list (K * V)) k v :
  NoDup m.*1 -> NoDup (store_put k v m).*1.
Proof.
  intros Hm. unfold store_put. rewrite fmap_app. apply NoDup_app.
  split; [by apply map_delete_keys|]. split; [|apply NoDup_singleton].
  intros k' Hin Hk'. simpl in Hk'. apply list_elem_of_singleton in Hk'.
  subst k'. apply list_elem_of_fmap in Hin as (e & Hk & He).
  apply elem_of_filter_bool in He as [_ He].
  by rewrite bool_decide_eq_true_2 in He.
Qed.

Lemma enforceCacheLimit_keys g :
  NoDup (cacheKeys g) -> NoDup (cacheKeys (enforceCacheLimit g)).
Proof.
  unfold enforceCacheLimit, cacheKeys.
  destruct (cacheAPI g) as [store|] eqn:E; cbv beta iota zeta; intros Hg.
  - destruct (cacheMaxSize (config g) <=? _); [|by rewrite E].
    cbn. by apply delete_all_keys_nodup.
  - destruct (cacheMaxSize (config g) <=? _); [|by rewrite E].
    cbn. rewrite E. by apply delete_all_keys_nodup.
Qed.

Lemma cacheWrite_keys e u response md g :
  NoDup (cacheKeys g) -> NoDup (cacheKeys (cacheWrite e u response md g)).
Proof.
  destruct (cacheWrite_cases e u response md g)
    as [(_ & _ & ->) | [(_ & store & stored & E & -> & _)
                       | (_ & entry & E & -> & _)]]; [done | |];
    unfold cacheKeys; cbn [cacheAPI set_cacheAPI set_cache cache];
    rewrite ?E; intros Hg.
  - by apply store_put_keys.
  - by apply map_set_keys.
Qed.

Lemma invalidateCache_keys u g :
  NoDup (cacheKeys g) -> NoDup (cacheKeys (invalidateCache u g)).
Proof.
  unfold invalidateCache, cacheKeys.
  destruct (cacheAPI g) as [store|] eqn:E; cbn; rewrite ?E; intros Hg;
    by apply map_delete_keys.
Qed.

(** The drain loop writes the queue, the processing set, the counter and
    the statistics of the engine, and nothing else of it. *)
Lemma processQueue_loop_shape fuel : forall w,
  exists q p n s,
    gl (processQueue_loop fuel w) =
    set_stats s (set_activeRequests n (set_processing p (set_queue q (gl w)))).
Proof.
  induction fuel as [|fuel IH]; intros w.
  { exists (queue (gl w)), (processing (gl w)), (activeRequests (gl w)),
      (stats (gl w)). simpl. by destruct (gl w). }
  rewrite processQueue_loop_S.
  destruct (queue (gl w)) as [|item rest];
    [|destruct (negb _); [|cbv zeta; destruct (_ || _);
       [|destruct (_ && _); [|destruct (_ && _)]]]];
    try match goal with |- context [processQueue_loop fuel ?w1] =>
      destruct (IH w1) as (q & p & n & s & ->);
      exists q, p, n, s; cbn; by destruct (gl w) end;
    match goal with |- exists q p n s, ?X = _ =>
      exists (queue X), (processing X), (activeRequests X), (stats X);
      cbn; by destruct (gl w) end.
Qed.

(** The backend in use is the same in [g'] as in [g]. *)
Definition same_cache g g' : Prop :=
  cache g' = cache g /\ cacheAPI g' = cacheAPI g.

Lemma same_cache_keys g g' :
  same_cache g g' -> NoDup (cacheKeys g) -> NoDup (cacheKeys g').
Proof. intros [Hc Ha]. unfold cacheKeys. by rewrite Hc, Ha. Qed.

Lemma same_cache_trans g1 g2 g3 :
  same_cache g1 g2 -> same_cache g2 g3 -> same_cache g1 g3.
Proof. intros [? ?] [? ?]. split; congruence. Qed.

Lemma processQueue_same_cache w : same_cache (gl w) (gl (processQueue w)).
Proof.
  unfold processQueue.
  by destruct (processQueue_loop_shape (length (queue (gl w))) w)
    as (q & p & n & s & ->).
Qed.

Lemma settle_same_cache item w : same_cache (gl w) (gl (settle item w)).
Proof. unfold settle. cbn. by destruct (queue (gl w)). Qed.

Lemma boostPriority_same_cache u w : same_cache (gl w) (gl (boostPriority u w)).
Proof.
  unfold boostPriority. destruct (0 <? _); [|done].
  destruct (splice1 _ _) as [rest [item|]]; [|done].
  eapply same_cache_trans; [|apply processQueue_same_cache]. done.
Qed.

Lemma start_finish_same_cache w : same_cache (gl w) (gl (start_finish w)).
Proof.
  unfold start_finish.
  match goal with |- context [processQueue ?w1] =>
    destruct (processQueue_same_cache w1) as [Hc Ha] end.
  split; cbn [gl upd_gl cache cacheAPI set_isInitialized];
    [by rewrite Hc | by rewrite Ha].
Qed.

(** The drain loop and the fetch pipeline leave the browser alone. *)
Lemma processQueue_loop_env fuel : forall w, env (processQueue_loop fuel w) = env w.
Proof.
  induction fuel as [|fuel IH]; intros w; [done|].
  rewrite processQueue_loop_S.
  destruct (queue (gl w)) as [|item rest]; [done|].
  destruct (negb _); [done|]. cbv zeta.
  destruct (_ || _); [by rewrite IH|].
  destruct (_ && _); [done|]. destruct (_ && _); [done|]. by rewrite IH.
Qed.

Lemma processQueue_env w : env (processQueue w) = env w.
Proof. apply processQueue_loop_env. Qed.

Lemma settle_env item w : env (settle item w) = env w.
Proof. unfold settle. cbn. by destruct (queue (gl w)). Qed.

Lemma boostPriority_env u w : env (boostPriority u w) = env w.
Proof.
  unfold boostPriority. destruct (0 <? _); [|done].
  destruct (splice1 _ _) as [rest [item|]]; [|done]. by rewrite processQueue_env.
Qed.

Lemma start_finish_env w : env (start_finish w) = env w.
Proof. unfold start_finish. cbn [env upd_gl]. by rewrite processQueue_env. Qed.

Lemma start_env w : env (start w) = env w.
Proof.
  unfold start. destruct (isInitialized (gl w)); [done|].
  destruct (0 <? _); [done|]. by rewrite start_finish_env.
Qed.

(** No step replaces the platform cache that [start] opens. *)
Lemma step_caches w ev : caches (env (step w ev)) = caches (env w).
Proof.
  destruct ev; simpl;
    unfold betweenDelayElapsed, cacheLookupDone, responseArrived, bodyRead,
      bodyFailed, bodyDone, hoverBoost, resume, clearCache, post,
      onConnectionChange, broadcastCacheUpdate;
    repeat match goal with
      | |- context [match ?x with _ => _ end] => destruct x
      end;
    rewrite ?settle_env, ?processQueue_env, ?boostPriority_env, ?start_env,
      ?start_finish_env; cbn;
    rewrite ?settle_env, ?processQueue_env; by cbn.
Qed.

(** The keys of the backend in use are distinct, and so are the keys of
    the platform cache that [start] may still open. *)
Definition distinct_keys w : Prop :=
  NoDup (cacheKeys (gl w)) /\
  forall store, caches (env w) = Some store -> NoDup store.*1.

Lemma start_keys w : distinct_keys w -> NoDup (cacheKeys (gl (start w))).
Proof.
  intros [Hg He]. unfold start. destruct (isInitialized (gl w)); [done|].
  match goal with |- context [upd_gl (fun _ => ?g1) w] => set (g := g1) end.
  assert (Hk : NoDup (cacheKeys g)).
  { subst g.
    assert (Hinit : forall g0, NoDup (cacheKeys g0) ->
              NoDup (cacheKeys (initializeCache (env w) g0))).
    { intros g0 Hg0. unfold initializeCache.
      destruct (caches (env w)) as [store|] eqn:E; [|done].
      unfold cacheKeys. cbn. by apply He. }
    assert (Hsetup : forall g0, NoDup (cacheKeys g0) ->
              NoDup (cacheKeys (setupCrossTabCache (env w) g0))).
    { intros g0 Hg0. unfold setupCrossTabCache.
      by destruct (has_BroadcastChannel (env w)). }
    assert (Hdetect : forall g0, NoDup (cacheKeys g0) ->
              NoDup (cacheKeys (detectConnection (env w) g0))).
    { intros g0 Hg0. unfold detectConnection.
      destruct (nav_connection (env w)) as [c|]; [|done].
      destruct (downlink c) as [d|]; [|done]. by destruct (JS.Qzero d). }
    destruct (ssrHints _);
      [match goal with |- context [processSSRHints ?e ?g0] =>
         destruct (processSSRHints_shape e g0) as (q & seen & ->);
         change (NoDup (cacheKeys g0)) end|];
      apply Hinit; destruct (crossTabCache _); try apply Hsetup;
      destruct (connectionAware _); try apply Hdetect; exact Hg. }
  destruct (0 <? initialDelay (config g)); [done|].
  by apply (same_cache_keys g), Hk;
    apply (start_finish_same_cache (upd_gl (fun _ => g) w)).
Qed.

Lemma bodyDone_keys arrived i w :
  NoDup (cacheKeys (gl w)) -> NoDup (cacheKeys (gl (bodyDone arrived i w))).
Proof.
  intros Hg. unfold bodyDone.
  destruct (running (tasks w) !! i) as [f|]; [|done].
  destruct (f_phase f) as [| |response md]; try done.
  match goal with |- context [settle ?it ?w1] =>
    apply (same_cache_keys (gl w1)); [apply settle_same_cache|] end.
  unfold broadcastCacheUpdate. destruct arrived; cbn [gl upd_gl].
  - destruct (broadcastChannel _);
      apply (same_cache_keys (cacheWrite (env w) (q_url (f_item f))
                                response md (gl w)));
      (done || by apply cacheWrite_keys).
  - destruct (broadcastChannel _); by apply (same_cache_keys (gl w)).
Qed.

(** Every step keeps the keys distinct: the hypothesis on the keys in the
    count of evicted entries holds in every state the engine reaches. *)
Lemma step_keys w ev : distinct_keys w -> distinct_keys (step w ev).
Proof.
  intros Hw. pose proof Hw as [Hg He].
  split; [|intros store; rewrite step_caches; apply He].
  destruct ev; simpl.
  - by apply start_keys.
  - destruct (starting (tasks w)); [done|].
    match goal with |- context [start_finish ?w1] =>
      by apply (same_cache_keys (gl w1)), Hg; apply start_finish_same_cache end.
  - by apply (same_cache_keys (gl w)), Hg; apply processQueue_same_cache.
  - destruct (timers (tasks w)); [done|].
    match goal with |- context [processQueue ?w1] =>
      by apply (same_cache_keys (gl w1)), Hg; apply processQueue_same_cache end.
  - unfold betweenDelayElapsed. destruct (delayed (tasks w) !! i); [|done].
    match goal with |- context [processQueue ?w1] =>
      by apply (same_cache_keys (gl w1)), Hg; apply processQueue_same_cache end.
  - unfold cacheLookupDone. destruct (running (tasks w) !! i) as [f|]; [|done].
    destruct (f_phase f) as [cached| |]; try done.
    destruct (match cached with Some _ => _ | None => _ end); [|done].
    match goal with |- context [settle ?it ?w1] =>
      by apply (same_cache_keys (gl w1)), Hg; apply settle_same_cache end.
  - unfold responseArrived. destruct (running (tasks w) !! i) as [f|]; [|done].
    destruct (f_phase f) as [| |]; try done.
    destruct result as [response|].
    + destruct (r_ok response).
      * cbn [gl set_phase upd_gl upd_tasks].
        apply enforceCacheLimit_keys. by destruct (r_content_length response).
      * match goal with |- context [settle ?it ?w1] =>
          by apply (same_cache_keys (gl w1)), Hg; apply settle_same_cache end.
    + match goal with |- context [settle ?it ?w1] =>
        by apply (same_cache_keys (gl w1)), Hg; apply settle_same_cache end.
  - by apply bodyDone_keys.
  - by apply bodyDone_keys.
  - unfold hoverBoost. destruct (selector _ _); [|done].
    destruct (normalizeUrl _ _); [|done]. destruct (_ && _); [|done].
    by apply (same_cache_keys (gl w)), Hg; apply boostPriority_same_cache.
  - by apply (same_cache_keys (gl w)), Hg; apply boostPriority_same_cache.
  - match goal with |- context [processQueue ?w1] =>
      by apply (same_cache_keys (gl w1)), Hg; apply processQueue_same_cache end.
  - done.
  - unfold resume. match goal with |- context [processQueue ?w1] =>
      by apply (same_cache_keys (gl w1)), Hg; apply processQueue_same_cache end.
  - unfold clearCache, post, cacheKeys.
    destruct (cacheAPI (gl w)) as [store|] eqn:E; cbn;
      destruct (broadcastChannel (gl w)); cbn; rewrite ?E, ?delete_all_keys;
      constructor.
  - done.
  - unfold onConnectionChange. destruct (nav_connection (env w)); [|done].
    cbn. by destruct (connectionInfo (gl w)).
  - unfold onMessage. cbn.
    destruct (broadcastChannel (gl w)); [|done].
    destruct m; try done. by apply invalidateCache_keys.
  - done.
  - done.
Qed.

Lemma run_keys evs : forall w, distinct_keys w -> distinct_keys (run w evs).
Proof.
  induction evs as [|ev evs IH]; intros w Hw; [done|].
  simpl. by apply IH, step_keys.
Qed.

Lemma created_keys e options :
  (forall store, caches e = Some store -> NoDup store.*1) ->
  distinct_keys (created e options).
Proof. intros He. split; [constructor | exact He]. Qed.

End CacheKeys.

(** * Further properties *)

(** ** Records, field by field *)

Lemma Stats_ext (s s' : Stats) :
  totalRequests s = totalRequests s' -> cacheHits s = cacheHits s' ->
  cacheMisses s = cacheMisses s' -> bytesTransferred s = bytesTransferred s' ->
  averageResponseTime s = averageResponseTime s' ->
  connectionType s = connectionType s' -> s = s'.
Proof. destruct s, s'. simpl. by intros -> -> -> -> -> ->. Qed.

Lemma Ghostloader_ext (g g' : Ghostloader) :
  config g = config g' -> queue g = queue g' -> processing g = processing g' ->
  processed g = processed g' -> cache g = cache g' -> cacheAPI g = cacheAPI g' ->
  isInitialized g = isInitialized g' -> activeRequests g = activeRequests g' ->
  dataUsed g = dataUsed g' -> sessionStart g = sessionStart g' ->
  connectionInfo g = connectionInfo g' ->
  bandwidthEstimate g = bandwidthEstimate g' ->
  ssrHintsReceived g = ssrHintsReceived g' -> stats g = stats g' ->
  broadcastChannel g = broadcastChannel g' -> isPaused g = isPaused g' -> g = g'.
Proof.
  destruct g, g'. simpl.
  by intros -> -> -> -> -> -> -> -> -> -> -> -> -> -> -> ->.
Qed.

Lemma Tasks_ext (t t' : Tasks) :
  delayed t = delayed t' -> running t = running t' -> timers t = timers t' ->
  starting t = starting t' -> dispatched t = dispatched t' ->
  requested t = requested t' -> posted t = posted t' -> t = t'.
Proof. destruct t, t'. simpl. by intros -> -> -> -> -> -> ->. Qed.

Lemma World_ext (w w' : World) :
  env w = env w' -> gl w = gl w' -> tasks w = tasks w' -> w = w'.
Proof. destruct w, w'. simpl. by intros -> -> ->. Qed.

(** Reading a field through the field updates. *)
Ltac fields :=
  cbn [gl env tasks config queue processing processed cache cacheAPI
       isInitialized activeRequests dataUsed sessionStart connectionInfo
       bandwidthEstimate ssrHintsReceived stats broadcastChannel isPaused
       totalRequests cacheHits cacheMisses bytesTransferred
       averageResponseTime connectionType delayed running timers starting
       dispatched requested posted clock page nav_connection
       has_BroadcastChannel caches f_item f_start f_phase
       set_config set_queue set_processing set_processed set_cache
       set_cacheAPI set_isInitialized set_activeRequests set_dataUsed
       set_connectionInfo set_bandwidthEstimate set_ssrHintsReceived
       set_stats set_broadcastChannel set_isPaused set_totalRequests
       set_cacheHits set_cacheMisses set_bytesTransferred
       set_averageResponseTime set_connectionType set_delayed set_running
       set_timers set_starting set_dispatched set_requested set_posted
       set_clock set_page set_nav_connection upd_gl upd_tasks upd_env
       upd_stats] in *.

(** Closes a goal whose two sides are the same term. *)
Ltac same := lazymatch goal with |- ?x = ?x => reflexivity | _ => idtac end.

(** The same, up to empty lists, empty sets and zeros. *)
Ltac tidy :=
  cbn [app length fmap list_fmap list_to_set Z.of_nat];
  rewrite ?Z.add_0_r, ?app_nil_r, ?reverse_nil, ?(left_id_L ∅ (∪)),
    ?(right_id_L ∅ (∪));
  cbn [app]; same;
  try lazymatch goal with |- @eq Z _ _ => lia end.

Ltac by_fields :=
  repeat first
    [ apply Ghostloader_ext | apply Stats_ext | apply Tasks_ext
    | apply World_ext ];
  fields; same.

(** ** Lookups after a write and after an invalidation *)

Section CacheRoundTrips.
Context `{URLPlatform}.



(** A write that goes through leaves the response under its URL. *)
Lemma cacheWrite_served e u response md g :
  stores e u response md g = true ->
  isInCache (cacheWrite e u response md g) u = true /\
  exists stored,
    getCachedResponse (cacheWrite e u response md g) u = Some stored /\
    r_body stored = r_body response /\
    (cacheAPI g = None -> r_ok stored = true /\ r_status stored = 200) /\
    (is_Some (cacheAPI g) ->
       r_ok stored = r_ok response /\ r_status stored = r_status response /\
       forall name,
         name <> "x-ghostloader-timestamp" -> name <> "x-ghostloader-version" ->
         name <> "x-ghostloader-size" ->
         map_get name (r_headers stored) = map_get name (r_headers response)).
Proof.
  intros Hstores. unfold isInCache, getCachedResponse, map_has.
  destruct (cacheWrite_cases e u response md g)
    as [(Hno & _) | [(_ & store & stored & E & -> & Hok & Hstatus & Hbody & _ & Hother)
                    | (_ & entry & E & -> & Hbody & _)]];
    [congruence | |]; cbn [cacheAPI set_cacheAPI set_cache cache]; rewrite ?E.
  - rewrite map_get_put. split; [done|]. exists stored.
    split; [done|]. split; [done|]. split; [done|]. by intros _.
  - rewrite map_get_set. split; [done|]. eexists. split; [done|].
    cbn [r_body r_ok r_status]. split; [done|]. split; [done|].
    by intros [? [=]].
Qed.




End CacheRoundTrips.

Section Freshness.
Context `{URLPlatform}.

(** X4.  A response for [u] is stored by [storeInCache] under write
    timestamp [t] (on the fallback map or, on the platform cache, without
    an [x-cached-timestamp] header of its own).  When [fetchAndCache] is
    next called for [u] and its cache check runs at a time [later] with
    [later - t <= cacheExpiration], the call ends there: a hit is counted,
    nothing is requested from the network, the cache is left as it is, and
    [u] goes from the processing set to the processed set with the request
    slot given back.  Stored means that the write went through
    ([stores]), at the time and on the page of [e]. *)
Theorem fresh_entry_is_hit e u response md g later w item :
  cacheAPI g = None \/ plainResponse response ->
  stores e u response md g = true ->
  later - writeTimestamp (clock e) md <= cacheExpiration (config g) ->
  gl w = storeInCache e u response md g ->
  q_url item = u ->
  let i := length (running (tasks w)) in
  let w1 := upd_env (set_clock later) (fetchAndCache item w) in
  let w2 := cacheLookupDone i w1 in
  cacheHits (stats (gl w2)) = cacheHits (stats (gl w)) + 1 /\
  totalRequests (stats (gl w2)) = totalRequests (stats (gl w)) + 1 /\
  cacheMisses (stats (gl w2)) = cacheMisses (stats (gl w)) /\
  requested (tasks w2) = requested (tasks w) /\
  running (tasks w2) = running (tasks w) /\
  cache (gl w2) = cache (gl w) /\
  cacheAPI (gl w2) = cacheAPI (gl w) /\
  u ∈ processed (gl w2) /\
  (u ∉ processing (gl w2)) /\
  activeRequests (gl w2) = activeRequests (gl w) - 1.
Proof.
  intros Hbackend Hstores Hfresh Hgl Hitem i w1 w2.
  destruct (stored_expiration e u response md g later Hbackend Hstores)
    as (stored & Hget & Hexp).
  assert (Hcfg : config (gl w) = config g)
    by (rewrite Hgl; apply storeInCache_config).
  rewrite <- Hgl in Hget.
  assert (Hold : (cacheExpiration (config g)
                  <? later - writeTimestamp (clock e) md) = false)
    by (apply Z.ltb_ge; lia).
  assert (Hw2 : w2 =
    settle item (end_task i
      (upd_gl (upd_stats (fun s => set_cacheHits (cacheHits s + 1) s)) w1))).
  { subst w2. unfold cacheLookupDone. subst w1.
    cbn [upd_env tasks env gl fetchAndCache running set_dispatched set_running].
    fold i. rewrite (list_lookup_middle _ _ _ i) by done.
    cbn [f_phase f_item f_start clock set_clock config upd_stats set_stats].
    rewrite Hitem.
    replace (getCachedResponse _ u) with (Some stored).
    rewrite Hcfg, Hexp, Hold. by simpl. }
  assert (Hdel : delete i (running (tasks w1)) = running (tasks w)).
  { subst w1 i. cbn [upd_env tasks fetchAndCache running set_dispatched set_running].
    rewrite delete_middle. apply app_nil_r. }
  assert (Hreq : requested (tasks w1) = requested (tasks w)) by done.
  rewrite Hw2. unfold settle, end_task.
  cbn [upd_gl upd_tasks upd_stats tasks gl running set_running
       set_processing set_processed set_activeRequests set_stats queue
       processing processed activeRequests stats cache cacheAPI set_cacheHits
       cacheHits totalRequests cacheMisses].
  rewrite Hitem.
  destruct (queue (gl w1));
    cbn [upd_tasks upd_gl tasks gl running set_timers set_running requested
         stats cacheHits cacheMisses totalRequests set_cacheHits cache cacheAPI
         processed processing activeRequests set_stats set_activeRequests
         set_processed set_processing];
    rewrite Hdel, Hreq;
    (repeat split; try done;
     try (apply elem_of_union_l; by apply elem_of_singleton);
     intros Hin; apply elem_of_difference in Hin as [_ Hn]; apply Hn;
     by apply elem_of_singleton).
Qed.

End Freshness.

Section PlatformEviction.
Context `{URLPlatform}.

(** With distinct keys, deleting the keys of the first [k] entries leaves
    the entries after them. *)
Lemma delete_first_keys {K V} `{EqDecision K} (m : list (K * V)) k :
  NoDup m.*1 -> delete_all (take k m).*1 m = drop k m.
Proof.
  intros Hnd. rewrite delete_all_filter.
  set (p := fun e : K * V => negb (bool_decide (e.1 ∈ (take k m).*1))).
  assert (Hdisj : forall x, x ∈ (take k m).*1 -> x ∉ (drop k m).*1).
  { rewrite <- (take_drop k m), fmap_app in Hnd.
    by apply NoDup_app in Hnd as (_ & Hdisj & _). }
  transitivity (List.filter p (take k m ++ drop k m)); [by rewrite take_drop|].
  rewrite List.filter_app, filter_bool_nil, filter_bool_all; [done| |].
  - intros x Hx. apply negb_true_iff, bool_decide_eq_false_2.
    intros Hin. apply (Hdisj _ Hin). by apply list_elem_of_fmap_2.
  - intros x Hx. apply negb_false_iff, bool_decide_eq_true_2.
    by apply list_elem_of_fmap_2.
Qed.

(** X5.  On the platform cache the eviction pass is first in, first
    out: when it finds [count >= cacheMaxSize] entries it drops the first
    [min count (count - cacheMaxSize + 10)] of them in the order of the
    cache, whatever their timestamps, and keeps the others in their
    order; the fallback map is not touched. *)
Theorem platform_eviction_is_fifo g store :
  cacheAPI g = Some store ->
  NoDup store.*1 ->
  cacheMaxSize (config g) <= Z.of_nat (length store) ->
  let count := Z.of_nat (length store) in
  let k := Z.min count (count - cacheMaxSize (config g) + 10) in
  cacheAPI (enforceCacheLimit g) = Some (drop (Z.to_nat k) store) /\
  cache (enforceCacheLimit g) = cache g.
Proof.
  intros Hapi Hnd Hfull count k.
  assert (Hcount : cacheEntries g = count) by (unfold cacheEntries; by rewrite Hapi).
  pose proof (enforceCacheLimit_platform g store Hapi) as Hev.
  rewrite Hcount in Hev. specialize (Hev Hfull). cbv zeta in Hev. fold k in Hev.
  rewrite Hev. fields. rewrite delete_first_keys by done.
  by split.
Qed.

End PlatformEviction.

(** ** The queue builder *)

Section QueueBuilder.
Context `{URLPlatform}.

(** What [linkEntry] pushes for a link. *)
Lemma linkEntry_Some e g link item :
  linkEntry e g link = Some item ->
  exists href,
    normalizeUrl e (e_href link) = Some href /\
    (Some href ∉ processed g) /\ (Some href ∉ processing g) /\
    shouldExclude (config g) link href = false /\
    shouldPreload e (config g) href = true /\
    (connectionAware (config g) = true -> withinDataLimits g = true) /\
    isVisible e link = true /\
    item = {| q_url := Some href; q_element := Some link;
              q_priority := e_top link; q_timestamp := clock e;
              q_source := None |}.
Proof.
  unfold linkEntry. intros Hentry.
  destruct (normalizeUrl e (e_href link)) as [href|]; [|done].
  exists href. split; [done|].
  destruct (negb (JS.truthy (Some href)) || bool_decide (Some href ∈ processed g)
            || bool_decide (Some href ∈ processing g)) eqn:Eseen; [done|].
  apply orb_false_elim in Eseen as [Eseen Eing].
  apply orb_false_elim in Eseen as [_ Eed].
  apply bool_decide_eq_false_1 in Eing, Eed.
  destruct (shouldExclude (config g) link href); [done|].
  destruct (shouldPreload e (config g) href); [|done].
  destruct (connectionAware (config g) && negb (withinDataLimits g)) eqn:Elim; [done|].
  destruct (isVisible e link); [|done].
  injection Hentry as <-. repeat split; try done.
  intros Hca. rewrite Hca in Elim. by destruct (withinDataLimits g).
Qed.

(** X6.  The queue that [buildQueue] leaves is in ascending order of
    priority, the priority of an entry is the top edge of its link, and
    links at the same height are queued in document order. *)
Theorem buildQueue_sorted e g :
  let links := List.filter (selector (config g)) (elements (page e)) in
  let q := queue (buildQueue e g) in
  StronglySorted (key_le q_priority) q /\
  (forall item, item ∈ q ->
     exists link, q_element item = Some link /\ q_priority item = e_top link) /\
  (forall top,
     List.filter (fun item => q_priority item =? top) q =
     List.filter (fun item => q_priority item =? top) (omap (linkEntry e g) links)) /\
  q ≡ₚ omap (linkEntry e g) links.
Proof.
  intros links q. subst q links. unfold buildQueue. cbn [queue set_queue].
  split; [apply sort_by_sorted|]. split; [|split].
  - intros item. rewrite sort_by_perm.
    intros Hin. apply list_elem_of_omap in Hin as (link & _ & Hentry).
    apply linkEntry_Some in Hentry as (href & _ & _ & _ & _ & _ & _ & _ & ->).
    by exists link.
  - intros top. apply sort_by_stable.
  - apply sort_by_perm.
Qed.

(** X7.  In the [local] cache mode every URL that [buildQueue] queues has
    the origin of the page: it is the normalized [href] of a link of the
    document that matches the selector, is in the viewport, and passes the
    exclusion filters. *)
Theorem buildQueue_same_origin e g item :
  cacheMode (config g) = "local" ->
  item ∈ queue (buildQueue e g) ->
  exists link href urlObj,
    link ∈ elements (page e) /\
    selector (config g) link = true /\
    normalizeUrl e (e_href link) = Some href /\
    q_url item = Some href /\
    URL_new href None = Some urlObj /\
    URL_origin urlObj = location_origin (page e) /\
    shouldExclude (config g) link href = false /\
    e_top link < innerHeight (page e) /\ 0 < e_bottom link.
Proof.
  intros Hlocal. unfold buildQueue. cbn [queue set_queue]. rewrite sort_by_perm.
  intros Hin. apply list_elem_of_omap in Hin as (link & Hlink & Hentry).
  apply list_elem_of_In, filter_In in Hlink as [Hlink Hsel].
  apply list_elem_of_In in Hlink.
  apply linkEntry_Some in Hentry
    as (href & Hnorm & _ & _ & Hex & Hpre & _ & Hvis & ->).
  unfold shouldPreload in Hpre. rewrite Hlocal in Hpre.
  destruct (URL_new href None) as [urlObj|] eqn:Eurl; [|done].
  cbn in Hpre. apply String.eqb_eq in Hpre.
  unfold isVisible in Hvis. apply andb_true_iff in Hvis as [Ht Hb].
  apply Z.ltb_lt in Ht, Hb.
  exists link, href, urlObj. repeat split; done.
Qed.

(** X8.  When data limits are checked and the budget is spent, or data
    saver is on, [buildQueue] leaves an empty queue, whatever the document
    holds and whatever the queue held. *)
Theorem buildQueue_over_budget e g :
  connectionAware (config g) = true ->
  withinDataLimits g = false ->
  queue (buildQueue e g) = [].
Proof.
  intros Hca Hlim.
  destruct (queue (buildQueue e g)) as [|item q] eqn:E; [done|].
  assert (Hin : item ∈ queue (buildQueue e g)) by (rewrite E; apply list_elem_of_here).
  unfold buildQueue in Hin. cbn [queue set_queue] in Hin. rewrite sort_by_perm in Hin.
  apply list_elem_of_omap in Hin as (link & _ & Hentry).
  apply linkEntry_Some in Hentry as (href & _ & _ & _ & _ & _ & Hok & _).
  rewrite (Hok Hca) in Hlim. done.
Qed.

End QueueBuilder.

(** ** The default exclusions *)

Section DefaultExclusions.
Context `{URLPlatform}.

Lemma existsb_false {A} (p : A -> bool) (l : list A) x :
  existsb p l = false -> x ∈ l -> p x = false.
Proof.
  intros Hl Hx. destruct (p x) eqn:E; [|done].
  rewrite <- Hl. symmetry. apply existsb_exists. exists x.
  split; [by apply list_elem_of_In | done].
Qed.

(** X9.  With the exclusion lists of the default configuration, every
    entry that [buildQueue] queues is a link without a [download]
    attribute, that does not open in a new tab, whose [href] attribute is
    not a [mailto:], [tel:] or fragment reference, that has not the class
    [no-preload], and whose URL ends in none of the listed file
    extensions, in any letter case, and is neither a [javascript:] nor a
    [data:] URL. *)
Theorem default_exclusions_are_honoured e g item :
  excludeSelectors (config g) = excludeSelectors defaultConfig ->
  excludePatterns (config g) = excludePatterns defaultConfig ->
  item ∈ queue (buildQueue e g) ->
  exists link href,
    q_element item = Some link /\ q_url item = Some href /\
    has_attr "download" link = false /\
    attr_is "target" "_blank" link = false /\
    attr_starts "href" "mailto:" link = false /\
    attr_starts "href" "tel:" link = false /\
    attr_starts "href" "#" link = false /\
    has_class "no-preload" link = false /\
    (forall ext,
       ext ∈ ["pdf"; "zip"; "doc"; "docx"; "xls"; "xlsx"; "ppt"; "pptx";
              "jpg"; "jpeg"; "png"; "gif"; "svg"; "webp"] ->
       ends_with ("." +:+ ext) (lowercase href) = false) /\
    String.prefix "javascript:" href = false /\
    String.prefix "data:" href = false.
Proof.
  intros Hsel Hpat. unfold buildQueue. cbn [queue set_queue]. rewrite sort_by_perm.
  intros Hin. apply list_elem_of_omap in Hin as (link & _ & Hentry).
  apply linkEntry_Some in Hentry as (href & _ & _ & _ & Hex & _ & _ & _ & ->).
  exists link, href. split; [done|]. split; [done|].
  unfold shouldExclude in Hex. rewrite Hsel, Hpat in Hex.
  apply orb_false_elim in Hex as [Hs Hp].
  cbn [defaultConfig excludeSelectors excludePatterns existsb] in Hs, Hp.
  repeat match type of Hs with (_ || _) = false =>
    let H1 := fresh "Hs" in apply orb_false_elim in Hs as [H1 Hs] end.
  apply orb_false_elim in Hp as [Hdoc Hp].
  apply orb_false_elim in Hp as [Himg Hp].
  apply orb_false_elim in Hp as [Hjs Hp].
  apply orb_false_elim in Hp as [Hdata _].
  repeat (split; [done|]). split; [|by split].
  intros ext Hext. unfold has_extension in Hdoc, Himg.
  assert (Hcase : ext ∈ ["pdf"; "zip"; "doc"; "docx"; "xls"; "xlsx"; "ppt"; "pptx"]
                  \/ ext ∈ ["jpg"; "jpeg"; "png"; "gif"; "svg"; "webp"]).
  { change ["pdf"; "zip"; "doc"; "docx"; "xls"; "xlsx"; "ppt"; "pptx";
            "jpg"; "jpeg"; "png"; "gif"; "svg"; "webp"]
      with (["pdf"; "zip"; "doc"; "docx"; "xls"; "xlsx"; "ppt"; "pptx"]
            ++ ["jpg"; "jpeg"; "png"; "gif"; "svg"; "webp"]) in Hext.
    by apply elem_of_app in Hext. }
  destruct Hcase as [Hc | Hc].
  - by apply (existsb_false _ _ ext Hdoc).
  - by apply (existsb_false _ _ ext Himg).
Qed.

End DefaultExclusions.

(** ** What one drain does *)

Section DrainLoop.
Context `{URLPlatform}.

Implicit Types (w : World) (g : Ghostloader) (u : url).

(** The task that [fetchAndCache item] starts in [w]. *)
Definition fetchTask (w : World) (item : QueueItem) : Fetch :=
  {| f_item := item; f_start := clock (env w);
     f_phase := AwaitCache (getCachedResponse (gl w) (q_url item)) |}.

(** From [w] to [w'] the entries [taken] left the head of the queue; of
    them, [started] were handed to [fetchAndCache], in this order, and
    [held] wait in the between-delay; nothing else has changed. *)
Definition drained (w w' : World) (taken started held : list QueueItem) : Prop :=
  queue (gl w) = taken ++ queue (gl w') /\
  gl w' =
    set_stats
      (set_totalRequests
         (totalRequests (stats (gl w)) + Z.of_nat (length started)) (stats (gl w)))
      (set_activeRequests
         (activeRequests (gl w) + Z.of_nat (length (started ++ held)))
         (set_processing
            (list_to_set (q_url <$> started ++ held) ∪ processing (gl w))
            (set_queue (queue (gl w')) (gl w)))) /\
  tasks w' =
    set_dispatched (reverse (q_url <$> started) ++ dispatched (tasks w))
      (set_running (running (tasks w) ++ (fetchTask w <$> started))
         (set_delayed (delayed (tasks w) ++ held) (tasks w))) /\
  env w' = env w.

(** The task depends on the clock and on the caches only. *)
Lemma fetchTask_same w w' (items : list QueueItem) :
  env w' = env w -> cache (gl w') = cache (gl w) ->
  cacheAPI (gl w') = cacheAPI (gl w) ->
  fetchTask w' <$> items = fetchTask w <$> items.
Proof.
  intros He Hc Ha. apply list_fmap_ext. intros _ item _.
  unfold fetchTask, getCachedResponse. by rewrite He, Hc, Ha.
Qed.

Lemma drained_nothing w : drained w w [] [] [].
Proof.
  unfold drained. split; [done|]. split; [|split; [|done]]; by_fields; tidy.
Qed.

Lemma drained_dropped w item rest :
  queue (gl w) = item :: rest ->
  drained w (upd_gl (fun _ => set_queue rest (gl w)) w) [item] [] [].
Proof.
  intros Hq. unfold drained. split; [done|]. split; [|split; [|done]]; by_fields; tidy.
Qed.

Lemma drained_held w item rest :
  queue (gl w) = item :: rest ->
  drained w
    (upd_tasks (fun t => set_delayed (delayed t ++ [item]) t)
       (upd_gl (fun _ =>
          set_activeRequests (activeRequests (gl w) + 1)
            (set_processing ({[q_url item]} ∪ processing (gl w))
               (set_queue rest (gl w)))) w))
    [item] [] [item].
Proof.
  intros Hq. unfold drained. split; [done|]. split; [|split; [|done]]; by_fields; tidy.
Qed.

(** One more entry skipped at the head. *)
Lemma drained_skip w w' item rest taken started held :
  queue (gl w) = item :: rest ->
  drained (upd_gl (fun _ => set_queue rest (gl w)) w) w' taken started held ->
  drained w w' (item :: taken) started held.
Proof.
  intros Hq (Hqueue & Hgl & Htasks & Henv). unfold drained.
  fields. rewrite Hq, Hqueue. split; [done|].
  split; [|split; [|done]].
  - rewrite Hgl. by_fields.
  - rewrite Htasks. by_fields. f_equal; by apply fetchTask_same.
Qed.

(** One more entry started at the head. *)
Lemma drained_start w w' item rest taken started held :
  queue (gl w) = item :: rest ->
  drained
    (fetchAndCache item
       (upd_gl (fun _ =>
          set_activeRequests (activeRequests (gl w) + 1)
            (set_processing ({[q_url item]} ∪ processing (gl w))
               (set_queue rest (gl w)))) w))
    w' taken started held ->
  drained w w' (item :: taken) (item :: started) held.
Proof.
  intros Hq (Hqueue & Hgl & Htasks & Henv). unfold drained.
  unfold fetchAndCache in Hqueue. fields. rewrite Hq, Hqueue. split; [done|].
  split; [|split; [|done]].
  - rewrite Hgl. unfold fetchAndCache. by_fields.
    + cbn [app fmap list_fmap list_to_set].
      rewrite (assoc_L (∪)). f_equal. apply (comm_L (∪)).
    + cbn [app length]. lia.
    + cbn [length]. lia.
  - rewrite Htasks. unfold fetchAndCache. by_fields.
    + cbn [fmap list_fmap]. rewrite <- app_assoc.
      f_equal; cbn [app]; f_equal; by apply fetchTask_same.
    + cbn [fmap list_fmap]. by rewrite reverse_cons, <- app_assoc.
Qed.

(** The drain loop, from its start to its end or to the between-delay
    that suspends it.  What it hands to [fetchAndCache] or holds in the
    delay are entries of the queue that are neither in flight nor
    processed, each URL once; at most one entry is held. *)
Lemma processQueue_loop_drained fuel : forall w,
  exists taken started held,
    drained w (processQueue_loop fuel w) taken started held /\
    (length held <= 1)%nat /\
    sublist (started ++ held) taken /\
    NoDup (q_url <$> started ++ held) /\
    (forall u, u ∈ q_url <$> started ++ held ->
       (u ∉ processing (gl w)) /\ (u ∉ processed (gl w))).
Proof.
  assert (Hnone : forall w w', drained w w' [] [] [] ->
    exists taken started held,
      drained w w' taken started held /\
      (length held <= 1)%nat /\
      sublist (started ++ held) taken /\
      NoDup (q_url <$> started ++ held) /\
      (forall u, u ∈ q_url <$> started ++ held ->
         (u ∉ processing (gl w)) /\ (u ∉ processed (gl w)))).
  { intros w w' Hd. exists [], [], []. split; [done|]. cbn [length app fmap list_fmap].
    split; [lia|]. split; [done|]. split; [apply NoDup_nil_2|].
    by intros u Hu%elem_of_nil. }
  induction fuel as [|fuel IH]; intros w.
  { apply Hnone, drained_nothing. }
  rewrite processQueue_loop_S.
  destruct (queue (gl w)) as [|item rest] eqn:Hq.
  { apply Hnone, drained_nothing. }
  destruct (negb _).
  { apply Hnone, drained_nothing. }
  cbv zeta.
  destruct (bool_decide (q_url item ∈ processing (set_queue rest (gl w)))
            || bool_decide (q_url item ∈ processed (set_queue rest (gl w))))
    eqn:Eseen.
  { destruct (IH (upd_gl (fun _ => set_queue rest (gl w)) w))
      as (taken & started & held & Hd & Hheld & Hsub & Hnd & Hnew).
    exists (item :: taken), started, held.
    split; [by apply drained_skip with rest|]. split; [done|].
    split; [by apply sublist_cons|]. by split. }
  apply orb_false_elim in Eseen as [Eing Eed].
  apply bool_decide_eq_false_1 in Eing, Eed.
  fields.
  destruct (_ && _).
  { exists [item], [], []. split; [by apply drained_dropped|].
    cbn [length app fmap list_fmap].
    split; [lia|]. split; [apply sublist_nil_l|]. split; [apply NoDup_nil_2|].
    by intros u Hu%elem_of_nil. }
  destruct (_ && _).
  - exists [item], [], [item]. split; [by apply drained_held|].
    cbn [length app fmap list_fmap].
    split; [lia|]. split; [done|]. split; [apply NoDup_singleton|].
    intros u Hu%list_elem_of_singleton. by subst u.
  - match goal with |- context [processQueue_loop fuel ?w1] =>
      destruct (IH w1) as (taken & started & held & Hd & Hheld & Hsub & Hnd & Hnew)
    end.
    exists (item :: taken), (item :: started), held.
    split; [by apply drained_start with rest|]. split; [done|].
    split; [by apply sublist_skip|].
    unfold fetchAndCache in Hnew. fields.
    cbn [app fmap list_fmap]. split.
    + apply NoDup_cons. split; [|done].
      intros Hin. apply Hnew in Hin as [Hin _]. apply Hin.
      apply elem_of_union_l. by apply elem_of_singleton.
    + intros u Hu. apply elem_of_cons in Hu as [-> | Hu]; [done|].
      apply Hnew in Hu as [Hu1 Hu2]. split; [|done].
      intros Hin. apply Hu1. by apply elem_of_union_r.
Qed.

Lemma processQueue_drained w :
  exists taken started held,
    drained w (processQueue w) taken started held /\
    (length held <= 1)%nat /\
    sublist (started ++ held) taken /\
    NoDup (q_url <$> started ++ held) /\
    (forall u, u ∈ q_url <$> started ++ held ->
       (u ∉ processing (gl w)) /\ (u ∉ processed (gl w))).
Proof. apply processQueue_loop_drained. Qed.

End DrainLoop.

Section DrainProperties.
Context `{URLPlatform}.

Implicit Types (w : World) (g : Ghostloader) (u : url).

Lemma processQueue_loop_stops fuel : forall w,
  (length (queue (gl w)) <= fuel)%nat ->
  let w' := processQueue_loop fuel w in
  queue (gl w') = [] \/
  getEffectiveMaxConcurrent (gl w') <= activeRequests (gl w') \/
  (connectionAware (config (gl w')) = true /\ withinDataLimits (gl w') = false) \/
  (exists item, delayed (tasks w') = delayed (tasks w) ++ [item]).
Proof.
  induction fuel as [|fuel IH]; intros w Hlen w'; subst w'.
  { left. simpl. destruct (queue (gl w)); [done | simpl in Hlen; lia]. }
  rewrite processQueue_loop_S.
  destruct (queue (gl w)) as [|item rest] eqn:Hq; [by left|].
  simpl in Hlen.
  destruct (negb _) eqn:Ecap.
  { right. left. apply negb_true_iff, Z.ltb_ge in Ecap. exact Ecap. }
  cbv zeta. destruct (_ || _).
  { apply (IH (upd_gl (fun _ => set_queue rest (gl w)) w)). cbn. lia. }
  destruct (connectionAware _ && _) eqn:Elim.
  { right. right. left. apply andb_true_iff in Elim as [Hca Hlim].
    apply negb_true_iff in Hlim. by split. }
  clear Elim. destruct (_ && _).
  - right. right. right. by exists item.
  - match goal with |- context [processQueue_loop fuel ?w1] =>
      apply (IH w1) end.
    cbn. lia.
Qed.

(** X10.  A drain goes on until the queue is empty, the request counter
    has reached the effective cap, the data budget is closed, or the
    between-delay suspends it with one more entry in hand: it never stops
    for another reason. *)
Theorem processQueue_stops_when w :
  let w' := processQueue w in
  queue (gl w') = [] \/
  getEffectiveMaxConcurrent (gl w') <= activeRequests (gl w') \/
  (connectionAware (config (gl w')) = true /\ withinDataLimits (gl w') = false) \/
  (exists item, delayed (tasks w') = delayed (tasks w) ++ [item]).
Proof. by apply processQueue_loop_stops. Qed.

(** X11.  A drain takes entries off the head of the queue and leaves the
    rest in place.  The entries it hands to [fetchAndCache], and the one
    it may hold in the between-delay, are among those taken, in queue
    order; their URLs are distinct, were neither in flight nor processed,
    and are what the processing set and the request counter grow by.  The
    processed set, the caches and the data counter are not touched. *)
Theorem processQueue_takes_prefix w :
  let w' := processQueue w in
  exists taken started held,
    queue (gl w) = taken ++ queue (gl w') /\
    dispatched (tasks w') = reverse (q_url <$> started) ++ dispatched (tasks w) /\
    delayed (tasks w') = delayed (tasks w) ++ held /\
    (length held <= 1)%nat /\
    sublist (started ++ held) taken /\
    NoDup (q_url <$> started ++ held) /\
    (forall u, u ∈ q_url <$> started ++ held ->
       (u ∉ processing (gl w)) /\ (u ∉ processed (gl w))) /\
    processing (gl w') = list_to_set (q_url <$> started ++ held) ∪ processing (gl w) /\
    activeRequests (gl w') =
      activeRequests (gl w) + Z.of_nat (length (started ++ held)) /\
    totalRequests (stats (gl w')) =
      totalRequests (stats (gl w)) + Z.of_nat (length started) /\
    processed (gl w') = processed (gl w) /\
    cache (gl w') = cache (gl w) /\
    cacheAPI (gl w') = cacheAPI (gl w) /\
    dataUsed (gl w') = dataUsed (gl w) /\
    requested (tasks w') = requested (tasks w).
Proof.
  intros w'. subst w'.
  destruct (processQueue_drained w)
    as (taken & started & held & (Hq & Hgl & Ht & He) & Hheld & Hsub & Hnd & Hnew).
  exists taken, started, held. rewrite Hgl, Ht.
  split; [done|]. cbn. repeat split; (done || apply Hnew; done).
Qed.

End DrainProperties.

(** ** The hover booster *)

Section Boost.
Context `{URLPlatform}.

Implicit Types (w : World) (g : Ghostloader) (u : url).



End Boost.

(** ** Which fields an operation writes *)

Section Footprints.
Context `{URLPlatform}.

Implicit Types (w : World) (g : Ghostloader) (u : url).

(** The cache manager writes the two caches and nothing else. *)
Lemma enforceCacheLimit_shape g :
  exists c a, enforceCacheLimit g = set_cacheAPI a (set_cache c g).
Proof.
  exists (cache (enforceCacheLimit g)), (cacheAPI (enforceCacheLimit g)).
  unfold enforceCacheLimit.
  destruct (cacheAPI g) as [store|] eqn:E.
  - cbv zeta. destruct (_ <=? _); by_fields; by rewrite E.
  - destruct (_ <=? _); by_fields; by rewrite E.
Qed.

Lemma invalidateCache_shape u g :
  exists c a, invalidateCache u g = set_cacheAPI a (set_cache c g).
Proof.
  exists (cache (invalidateCache u g)), (cacheAPI (invalidateCache u g)).
  unfold invalidateCache. destruct (cacheAPI g) as [store|] eqn:E; by_fields.
Qed.

(** [detectConnection] writes the connection, its type in the statistics
    and the bandwidth estimate; the connection it records is the
    browser's, when there is one. *)
Lemma detectConnection_shape e g :
  exists ct be,
    detectConnection e g =
    set_bandwidthEstimate be
      (upd_stats (set_connectionType ct)
         (set_connectionInfo
            (match nav_connection e with
             | Some c => Some c
             | None => connectionInfo g
             end) g)).
Proof.
  exists (connectionType (stats (detectConnection e g))),
    (bandwidthEstimate (detectConnection e g)).
  unfold detectConnection. destruct (nav_connection e) as [c|]; [|by_fields].
  cbv zeta. destruct (downlink c) as [d|]; [destruct (JS.Qzero d)|]; by_fields.
Qed.

(** What [start] does before its initial delay. *)
Definition prepare (e : Env) (g : Ghostloader) : Ghostloader :=
  let g := if connectionAware (config g) then detectConnection e g else g in
  let g := if crossTabCache (config g) then setupCrossTabCache e g else g in
  let g := initializeCache e g in
  if ssrHints (config g) then processSSRHints e g else g.

Lemma start_prepare w :
  start w =
  if isInitialized (gl w) then w
  else
    let w1 := upd_gl (fun _ => prepare (env w) (gl w)) w in
    if 0 <? initialDelay (config (gl w1))
    then upd_tasks (fun t => set_starting (S (starting t)) t) w1
    else start_finish w1.
Proof. done. Qed.

(** [prepare] writes the connection fields, the channel flag, the
    platform cache, the queue and the set of hints seen.  The channel
    opens only when the browser has one, and a connection is recorded
    only when it is the browser's. *)
Lemma prepare_shape e g :
  exists q seen a bc ct be ci,
    prepare e g =
    set_queue q (set_ssrHintsReceived seen (set_cacheAPI a
      (set_broadcastChannel bc (set_bandwidthEstimate be
        (upd_stats (set_connectionType ct) (set_connectionInfo ci g)))))) /\
    (bc = broadcastChannel g \/ (bc = true /\ has_BroadcastChannel e = true)) /\
    (ci = connectionInfo g \/
     (connectionAware (config g) = true /\ is_Some ci /\ ci = nav_connection e)) /\
    (a = cacheAPI g \/ (is_Some a /\ a = caches e)).
Proof.
  unfold prepare.
  set (g1 := if connectionAware (config g) then detectConnection e g else g).
  assert (H1 : exists ct be ci,
    g1 = set_bandwidthEstimate be
           (upd_stats (set_connectionType ct) (set_connectionInfo ci g)) /\
    (ci = connectionInfo g \/
     (connectionAware (config g) = true /\ is_Some ci /\ ci = nav_connection e))).
  { subst g1. destruct (connectionAware (config g)) eqn:Eca.
    - destruct (detectConnection_shape e g) as (ct & be & ->).
      eexists ct, be, _. split; [done|].
      destruct (nav_connection e); [right | by left]. by repeat split.
    - exists (connectionType (stats g)), (bandwidthEstimate g), (connectionInfo g).
      split; [by_fields | by left]. }
  destruct H1 as (ct & be & ci & Hg1 & Hci).
  cbv zeta.
  set (g2 := if crossTabCache (config g1) then setupCrossTabCache e g1 else g1).
  assert (H2 : exists bc, g2 = set_broadcastChannel bc g1 /\
    (bc = broadcastChannel g \/ (bc = true /\ has_BroadcastChannel e = true))).
  { subst g2. unfold setupCrossTabCache.
    destruct (crossTabCache (config g1));
      [destruct (has_BroadcastChannel e) eqn:Ebc|].
    - exists true. split; [done | by right].
    - exists (broadcastChannel g1). split; [by_fields|]. left. by rewrite Hg1.
    - exists (broadcastChannel g1). split; [by_fields|]. left. by rewrite Hg1. }
  destruct H2 as (bc & Hg2 & Hbc).
  set (g3 := initializeCache e g2).
  assert (H3 : exists a, g3 = set_cacheAPI a g2 /\
    (a = cacheAPI g \/ (is_Some a /\ a = caches e))).
  { subst g3. unfold initializeCache. destruct (caches e) as [store|].
    - exists (Some store). split; [done|]. right. by split.
    - exists (cacheAPI g2). split; [by_fields|]. left. by rewrite Hg2, Hg1. }
  destruct H3 as (a & Hg3 & Ha).
  destruct (ssrHints (config g3)).
  - destruct (processSSRHints_shape e g3) as (q & seen & ->).
    exists q, seen, a, bc, ct, be, ci. by rewrite Hg3, Hg2, Hg1.
  - exists (queue g3), (ssrHintsReceived g3), a, bc, ct, be, ci.
    split; [|done]. rewrite Hg3, Hg2, Hg1. by_fields.
Qed.

End Footprints.

(** ** Counters and statistics *)

Section Accounting.
Context `{URLPlatform}.

Implicit Types (w : World) (g : Ghostloader) (u : url).

(** The clock of the page is the system clock, which can be set back.
    [forward] is set for the runs in which it is not. *)
Variable forward : bool.

Definition moves_forward (ev : Event) : bool :=
  match ev with
  | EvTick ms => 0 <=? ms
  | _ => true
  end.

(** A finite number, and one that is not negative when the clock has not
    gone back. *)
Definition measured (x : JS.number) : Prop :=
  exists q, x = JS.Finite q /\ (forward = true -> (0 <= q)%Q).

(** The request counter is the number of [fetchAndCache] calls that have
    not settled plus the drain calls suspended with an entry in hand; the
    statistics count every call once, and the mean response time is a
    finite number.  When the clock has not gone back each running call
    started in the past. *)
Definition consistent w : Prop :=
  let s := stats (gl w) in
  activeRequests (gl w) =
    Z.of_nat (length (running (tasks w)) + length (delayed (tasks w))) /\
  0 <= cacheHits s /\
  0 <= cacheMisses s /\
  cacheHits s + cacheMisses s + Z.of_nat (length (running (tasks w)))
    <= totalRequests s /\
  Forall (fun f => forward = true -> f_start f <= clock (env w))
         (running (tasks w)) /\
  measured (averageResponseTime s).

(** From [w] to [w'] the counters, the statistics and the tasks in flight
    are the same, and the clock has not gone back if it never does. *)
Definition keeps w w' : Prop :=
  activeRequests (gl w') = activeRequests (gl w) /\
  totalRequests (stats (gl w')) = totalRequests (stats (gl w)) /\
  cacheHits (stats (gl w')) = cacheHits (stats (gl w)) /\
  cacheMisses (stats (gl w')) = cacheMisses (stats (gl w)) /\
  averageResponseTime (stats (gl w')) = averageResponseTime (stats (gl w)) /\
  running (tasks w') = running (tasks w) /\
  delayed (tasks w') = delayed (tasks w) /\
  (forward = true -> clock (env w) <= clock (env w')).

Lemma consistent_keeps w w' : keeps w w' -> consistent w -> consistent w'.
Proof.
  intros (Ha & Ht & Hh & Hm & Hv & Hr & Hd & Hc) (Ia & Ih & Im & It & Is & Iv).
  unfold consistent. rewrite Ha, Ht, Hh, Hm, Hv, Hr, Hd.
  repeat split; try done.
  eapply Forall_impl; [exact Is|]. intros f Hf Hb. simpl in Hf.
  specialize (Hf Hb). specialize (Hc Hb). lia.
Qed.

Ltac keeps_now := unfold keeps; fields; repeat split; (done || (intros; lia)).

Lemma processQueue_consistent w : consistent w -> consistent (processQueue w).
Proof.
  intros (Ia & Ih & Im & It & Is & Iv).
  destruct (processQueue_drained w)
    as (taken & started & held & (Hq & Hgl & Ht & He) & _).
  unfold consistent. rewrite Hgl, Ht, He. fields.
  rewrite !length_app, length_fmap.
  split; [lia|]. split; [done|]. split; [done|]. split; [lia|]. split; [|done].
  apply Forall_app. split; [done|]. apply Forall_fmap, Forall_forall.
  intros item _. cbn. intros. lia.
Qed.

(** A call that settles: its task ends and the [finally] callback runs.
    Before it, the statistics may have counted the call as a hit or as a
    miss. *)
Lemma settle_consistent i item w :
  is_Some (running (tasks w) !! i) ->
  activeRequests (gl w) =
    Z.of_nat (length (running (tasks w)) + length (delayed (tasks w))) ->
  0 <= cacheHits (stats (gl w)) ->
  0 <= cacheMisses (stats (gl w)) ->
  cacheHits (stats (gl w)) + cacheMisses (stats (gl w))
    + Z.of_nat (length (running (tasks w))) <= totalRequests (stats (gl w)) + 1 ->
  Forall (fun f => forward = true -> f_start f <= clock (env w))
         (running (tasks w)) ->
  measured (averageResponseTime (stats (gl w))) ->
  consistent (settle item (end_task i w)).
Proof.
  intros Hi Ia Ih Im It Is Iv.
  pose proof (length_delete _ _ Hi) as Hlen.
  assert (0 < length (running (tasks w)))%nat.
  { destruct Hi as [f Hf]. apply lookup_lt_Some in Hf. lia. }
  unfold settle, end_task. fields.
  destruct (queue (gl w)); unfold consistent; fields; rewrite Hlen;
    (split; [lia|]); (split; [done|]); (split; [done|]); (split; [lia|]);
    (split; [by apply Forall_delete | done]).
Qed.

(** The mean stays finite because the call that ends has been counted:
    the divisor is not 0. *)
Lemma recordResponseTime_measured now start s :
  measured (averageResponseTime s) -> 1 <= totalRequests s ->
  (forward = true -> start <= now) ->
  measured (averageResponseTime (recordResponseTime now start s)).
Proof.
  intros (q & Hq & Hpos) Htotal Hpast. unfold recordResponseTime. fields.
  rewrite Hq. unfold JS.of_Z, JS.num_mul, JS.num_add, JS.num_div, JS.Qzero.
  cbn [Qnum inject_Z].
  destruct (totalRequests s =? 0) eqn:E; [apply Z.eqb_eq in E; lia|].
  eexists. split; [done|]. intros Hb.
  specialize (Hpos Hb). specialize (Hpast Hb).
  rewrite !Qred_correct. apply Qmult_le_0_compat.
  - change 0%Q with (0 + 0)%Q. apply Qplus_le_compat.
    + apply Qmult_le_0_compat; [done|].
      change 0%Q with (inject_Z 0). rewrite <- Zle_Qle. lia.
    + change 0%Q with (inject_Z 0). rewrite <- Zle_Qle. lia.
  - apply Qinv_le_0_compat. change 0%Q with (inject_Z 0). rewrite <- Zle_Qle. lia.
Qed.

Lemma recordResponseTime_counts now start s :
  totalRequests (recordResponseTime now start s) = totalRequests s /\
  cacheHits (recordResponseTime now start s) = cacheHits s /\
  cacheMisses (recordResponseTime now start s) = cacheMisses s.
Proof. done. Qed.

Lemma cacheLookupDone_consistent i w :
  consistent w -> consistent (cacheLookupDone i w).
Proof.
  intros Hw. pose proof Hw as (Ia & Ih & Im & It & Is & Iv).
  unfold cacheLookupDone.
  destruct (running (tasks w) !! i) as [f|] eqn:Ei; [|done].
  destruct (f_phase f) as [cached| |]; try done.
  destruct (match cached with Some _ => _ | None => _ end).
  - apply settle_consistent; fields; try done; try lia.
  - unfold consistent, set_phase. fields. rewrite length_insert.
    repeat split; try done.
    apply Forall_insert; [done|]. cbn.
    by apply (Forall_lookup_1 _ _ _ _ Is Ei).
Qed.

Lemma responseArrived_consistent i result w :
  consistent w -> consistent (responseArrived i result w).
Proof.
  intros Hw. pose proof Hw as (Ia & Ih & Im & It & Is & Iv).
  unfold responseArrived.
  destruct (running (tasks w) !! i) as [f|] eqn:Ei; [|done].
  assert (Hpast : forward = true -> f_start f <= clock (env w))
    by apply (Forall_lookup_1 _ _ _ _ Is Ei).
  assert (Hone : 1 <= totalRequests (stats (gl w))).
  { apply lookup_lt_Some in Ei. lia. }
  destruct (f_phase f) as [| |]; try done.
  destruct result as [response|].
  - destruct (r_ok response).
    + cbv zeta.
      match goal with |- context [enforceCacheLimit ?g0] =>
        destruct (enforceCacheLimit_shape g0) as (c & a & ->) end.
      unfold consistent, set_phase. fields. rewrite length_insert.
      destruct (r_content_length response); fields;
        (repeat split; try done);
        (apply Forall_insert; [done | by cbn]).
    + apply settle_consistent; fields; try done;
        try (unfold recordResponseTime; fields; lia).
      by apply recordResponseTime_measured.
  - apply settle_consistent; fields; try done; try lia.
Qed.

Lemma bodyDone_consistent arrived i w :
  consistent w -> consistent (bodyDone arrived i w).
Proof.
  intros Hw. pose proof Hw as (Ia & Ih & Im & It & Is & Iv).
  unfold bodyDone.
  destruct (running (tasks w) !! i) as [f|] eqn:Ei; [|done].
  assert (Hpast : forward = true -> f_start f <= clock (env w))
    by apply (Forall_lookup_1 _ _ _ _ Is Ei).
  assert (Hone : 1 <= totalRequests (stats (gl w))).
  { apply lookup_lt_Some in Ei. lia. }
  destruct (f_phase f) as [| |response md]; try done.
  cbv zeta. unfold broadcastCacheUpdate, post. fields.
  destruct (cacheWrite_shape (env w) (q_url (f_item f)) response md (gl w))
    as (c & a & Hcw).
  destruct arrived; fields; rewrite ?Hcw; fields;
    destruct (broadcastChannel _);
    (apply settle_consistent; fields; rewrite ?Hcw; fields; try done;
     try (unfold recordResponseTime; fields; lia);
     by apply recordResponseTime_measured).
Qed.

Lemma boostPriority_consistent u w : consistent w -> consistent (boostPriority u w).
Proof.
  intros Hw. unfold boostPriority. destruct (0 <? _); [|done].
  destruct (splice1 _ _) as [rest [item|]]; [|done].
  apply processQueue_consistent. by apply (consistent_keeps w); [keeps_now|].
Qed.

Lemma start_finish_consistent w : consistent w -> consistent (start_finish w).
Proof.
  intros Hw. unfold start_finish.
  match goal with |- consistent (upd_gl _ (processQueue ?w1)) =>
    assert (Hq : consistent (processQueue w1)) end.
  { apply processQueue_consistent. apply (consistent_keeps w); [|done].
    unfold buildQueue. keeps_now. }
  revert Hq. apply consistent_keeps. keeps_now.
Qed.

Lemma start_consistent w : consistent w -> consistent (start w).
Proof.
  intros Hw. rewrite start_prepare. destruct (isInitialized (gl w)); [done|].
  cbv zeta.
  destruct (prepare_shape (env w) (gl w))
    as (q & seen & a & bc & ct & be & ci & -> & _).
  match goal with |- context [upd_tasks _ ?w0] =>
    assert (Hq : consistent w0) by (apply (consistent_keeps w); [keeps_now | done])
  end.
  destruct (0 <? _).
  - revert Hq. apply consistent_keeps. keeps_now.
  - by apply start_finish_consistent.
Qed.

Lemma step_consistent w ev :
  (forward = true -> moves_forward ev = true) ->
  consistent w -> consistent (step w ev).
Proof.
  intros Hev Hw. pose proof Hw as (Ia & Ih & Im & It & Is & Iv).
  destruct ev; cbn [step].
  - by apply start_consistent.
  - destruct (starting (tasks w)); [done|].
    apply start_finish_consistent. by apply (consistent_keeps w); [keeps_now|].
  - by apply processQueue_consistent.
  - destruct (timers (tasks w)); [done|].
    apply processQueue_consistent. by apply (consistent_keeps w); [keeps_now|].
  - unfold betweenDelayElapsed.
    destruct (delayed (tasks w) !! i) as [item|] eqn:Ei; [|done].
    apply processQueue_consistent.
    pose proof (length_delete (delayed (tasks w)) i (mk_is_Some _ _ Ei)) as Hlen.
    apply lookup_lt_Some in Ei.
    unfold consistent, fetchAndCache. fields. rewrite length_app, Hlen.
    cbn [length].
    split; [lia|]. split; [done|]. split; [done|]. split; [lia|].
    split; [|done]. apply Forall_app. split; [done|].
    apply Forall_singleton. cbn. intros. lia.
  - by apply cacheLookupDone_consistent.
  - by apply responseArrived_consistent.
  - by apply bodyDone_consistent.
  - by apply bodyDone_consistent.
  - unfold hoverBoost. destruct (selector _ _); [|done].
    destruct (normalizeUrl _ _); [|done].
    destruct (_ && _); [by apply boostPriority_consistent | done].
  - by apply boostPriority_consistent.
  - apply processQueue_consistent. apply (consistent_keeps w); [|done].
    unfold buildQueue. keeps_now.
  - apply (consistent_keeps w); [|done]. unfold pause. keeps_now.
  - unfold resume. apply processQueue_consistent.
    by apply (consistent_keeps w); [keeps_now|].
  - apply (consistent_keeps w); [|done]. unfold clearCache, post. cbv zeta.
    destruct (cacheAPI (gl w)); fields;
      destruct (broadcastChannel (gl w)); keeps_now.
  - apply (consistent_keeps w); [|done]. unfold configure. keeps_now.
  - apply (consistent_keeps w); [|done]. unfold onConnectionChange.
    destruct (nav_connection (env w)); [|keeps_now].
    cbv zeta. fields. destruct (connectionInfo (gl w)); keeps_now.
  - apply (consistent_keeps w); [|done]. unfold keeps. fields. unfold onMessage.
    destruct (broadcastChannel (gl w)); [|repeat split; (done || (intros; lia))].
    destruct m as [u ?|u|?]; try (repeat split; (done || (intros; lia))).
    destruct (invalidateCache_shape u (gl w)) as (c & a & ->).
    repeat split; (done || (intros; lia)).
  - apply (consistent_keeps w); [|done]. unfold keeps. fields.
    repeat split; try done. intros Hb. specialize (Hev Hb).
    apply Z.leb_le in Hev. lia.
  - apply (consistent_keeps w); [|done]. keeps_now.
Qed.

Lemma run_consistent evs : forall w,
  (forward = true -> Forall (fun ev => moves_forward ev = true) evs) ->
  consistent w -> consistent (run w evs).
Proof.
  induction evs as [|ev evs IH]; intros w Hevs Hw; [done|].
  apply IH.
  - intros Hb. by apply Forall_inv_tail in Hevs.
  - apply step_consistent; [|done]. intros Hb. by apply Forall_inv in Hevs.
Qed.

Lemma created_consistent e options : consistent (created e options).
Proof.
  unfold consistent, created, configure. fields. cbn.
  repeat split; try done. exists 0%Q. by split.
Qed.

End Accounting.

Section AccountingProperties.
Context `{URLPlatform}.

(** X12.  In every state an engine reaches, [activeRequests] is the
    number of [fetchAndCache] calls that have not settled plus the number
    of drain calls suspended in the between-delay with an entry in hand:
    every increment is matched by one decrement when the call settles,
    whatever the outcome, so the counter never goes below zero. *)
Theorem activeRequests_counts_in_flight e options evs :
  let w := run (created e options) evs in
  activeRequests (gl w) =
    Z.of_nat (length (running (tasks w)) + length (delayed (tasks w))) /\
  0 <= activeRequests (gl w).
Proof.
  intros w.
  destruct (run_consistent false evs _ ltac:(done) (created_consistent false e options))
    as (Ia & _).
  fold w in Ia. split; [done | lia].
Qed.

(** X13.  In every state an engine reaches, each [fetchAndCache] call is
    counted once in [totalRequests] and at most once as a hit or as a
    miss, and not before it is over; so the hit rate that [getStats]
    reports is ['0%'] or a percentage between 0 and 100. *)
Theorem cacheHitRate_is_percentage e options evs :
  let w := run (created e options) evs in
  let s := stats (gl w) in
  (0 <= cacheHits s /\ 0 <= cacheMisses s /\
   cacheHits s + cacheMisses s + Z.of_nat (length (running (tasks w)))
     <= totalRequests s) /\
  (Snapshot.cacheHitRate (getStats (env w) (gl w)) = "0%" \/
   exists p, (0 <= p)%Q /\ (p <= 100)%Q /\
     Snapshot.cacheHitRate (getStats (env w) (gl w))
       = JS.toFixed2 (JS.Finite p) +:+ "%").
Proof.
  intros w s.
  destruct (run_consistent false evs _ ltac:(done) (created_consistent false e options))
    as (_ & Ih & Im & It & _).
  fold w in Ih, Im, It. fold s in Ih, Im, It.
  split; [done|].
  unfold getStats. cbn [Snapshot.cacheHitRate]. fold s.
  destruct (0 <? totalRequests s) eqn:E; [|by left].
  apply Z.ltb_lt in E. right.
  unfold JS.of_Z, JS.num_div, JS.num_mul, JS.Qzero. cbn [Qnum inject_Z].
  destruct (totalRequests s =? 0) eqn:E0; [apply Z.eqb_eq in E0; lia|].
  eexists. split; [|split; [|reflexivity]].
  - rewrite !Qred_correct. apply Qmult_le_0_compat; [|done].
    apply Qmult_le_0_compat.
    + change 0%Q with (inject_Z 0). by rewrite <- Zle_Qle.
    + apply Qinv_le_0_compat. change 0%Q with (inject_Z 0).
      rewrite <- Zle_Qle. lia.
  - rewrite !Qred_correct.
    apply Qle_trans with (1 * inject_Z 100)%Q; [|by vm_compute].
    apply Qmult_le_compat_r; [|done].
    apply Qle_shift_div_r.
    + change 0%Q with (inject_Z 0). rewrite <- Zlt_Qlt. lia.
    + rewrite Qmult_1_l. rewrite <- Zle_Qle. lia.
Qed.

(** X14.  In every state an engine reaches, the mean response time of
    the statistics is a finite number, which [getStats] prints as one:
    the division that updates it is by a request count of at least 1.  It
    is not negative in a run in which the clock is never set back; a
    response time is the difference of two readings of [Date.now()]. *)
Theorem averageResponseTime_is_finite e options evs :
  let w := run (created e options) evs in
  exists q,
    averageResponseTime (stats (gl w)) = JS.Finite q /\
    Snapshot.averageResponseTime (getStats (env w) (gl w))
      = JS.toFixed2 (JS.Finite q) +:+ "ms" /\
    (Forall (fun ev => moves_forward ev = true) evs -> (0 <= q)%Q).
Proof.
  intros w.
  destruct (run_consistent false evs _ ltac:(done) (created_consistent false e options))
    as (_ & _ & _ & _ & _ & q & Hq & _).
  fold w in Hq. exists q. split; [done|]. split.
  - unfold getStats. cbn [Snapshot.averageResponseTime]. by rewrite Hq.
  - intros Hevs.
    destruct (run_consistent true evs _ (fun _ => Hevs)
                (created_consistent true e options))
      as (_ & _ & _ & _ & _ & q' & Hq' & Hpos).
    fold w in Hq'. rewrite Hq in Hq'. injection Hq' as ->. by apply Hpos.
Qed.

End AccountingProperties.

(** ** One request per URL *)

Section Exclusive.
Context `{URLPlatform}.

Implicit Types (w : World) (g : Ghostloader) (u : url).

(** The URLs in flight: those of the [fetchAndCache] calls that have not
    settled and those of the entries held in the between-delay. *)
Definition inflight w : list url :=
  (q_url ∘ f_item <$> running (tasks w)) ++ (q_url <$> delayed (tasks w)).

(** No URL is in flight twice, and every URL in flight is in the
    processing set. *)
Definition exclusive w : Prop :=
  NoDup (inflight w) /\ forall u, u ∈ inflight w -> u ∈ processing (gl w).

(** A step that leaves the tasks in flight and the processing set alone. *)
Lemma exclusive_same w w' :
  running (tasks w') = running (tasks w) ->
  delayed (tasks w') = delayed (tasks w) ->
  processing (gl w') = processing (gl w) ->
  exclusive w -> exclusive w'.
Proof.
  intros Hr Hd Hp [Hnd Hin]. unfold exclusive, inflight. by rewrite Hr, Hd, Hp.
Qed.

Ltac same_flight := apply exclusive_same; fields; same.

Lemma processQueue_exclusive w : exclusive w -> exclusive (processQueue w).
Proof.
  intros [Hnd Hin].
  destruct (processQueue_drained w)
    as (taken & started & held & (Hq & Hgl & Ht & He) & _ & _ & Hnew & Hfree).
  assert (Hperm : inflight (processQueue w) ≡ₚ
                  inflight w ++ (q_url <$> started ++ held)).
  { unfold inflight. rewrite Ht. fields.
    rewrite !fmap_app, <- list_fmap_compose.
    replace (q_url ∘ f_item ∘ fetchTask w <$> started) with (q_url <$> started)
      by (by apply list_fmap_ext).
    rewrite <- !app_assoc. apply Permutation_app_head.
    rewrite !app_assoc. apply Permutation_app_tail, Permutation_app_comm. }
  split.
  - rewrite Hperm. apply NoDup_app. split; [done|]. split; [|done].
    intros u Hu Hu'. apply Hfree in Hu' as [Hu' _]. by apply Hu', Hin.
  - intros u. rewrite Hperm, Hgl. fields. rewrite elem_of_app, elem_of_union.
    intros [Hu | Hu]; [right; by apply Hin | left; by apply elem_of_list_to_set].
Qed.

(** A call that settles leaves the other URLs in flight. *)
Lemma settle_exclusive i f w w0 :
  running (tasks w) !! i = Some f ->
  running (tasks w0) = running (tasks w) ->
  delayed (tasks w0) = delayed (tasks w) ->
  processing (gl w0) = processing (gl w) ->
  exclusive w -> exclusive (settle (f_item f) (end_task i w0)).
Proof.
  intros Hi Hr Hd Hp [Hnd Hin].
  assert (Hsplit : running (tasks w) =
    take i (running (tasks w)) ++ f :: drop (S i) (running (tasks w)))
    by (symmetry; by apply take_drop_middle).
  assert (Hdel : delete i (running (tasks w)) =
    take i (running (tasks w)) ++ drop (S i) (running (tasks w)))
    by apply delete_take_drop.
  set (l1 := take i (running (tasks w))) in *.
  set (l2 := drop (S i) (running (tasks w))) in *.
  unfold inflight in Hnd, Hin. rewrite Hsplit in Hnd, Hin.
  rewrite fmap_app, fmap_cons, <- app_assoc in Hnd, Hin. cbn [app] in Hnd, Hin.
  apply NoDup_app in Hnd as (Hn1 & Hn12 & Hn2).
  apply NoDup_cons in Hn2 as (Hf & Hn2).
  assert (Hflight : inflight (settle (f_item f) (end_task i w0)) =
    (q_url ∘ f_item <$> l1) ++ (q_url ∘ f_item <$> l2) ++
    (q_url <$> delayed (tasks w))).
  { unfold inflight, settle, end_task. fields.
    destruct (queue (gl w0)); fields;
      by rewrite Hr, Hd, Hdel, fmap_app, <- app_assoc. }
  assert (Hproc : processing (gl (settle (f_item f) (end_task i w0))) =
    processing (gl w) ∖ {[q_url (f_item f)]}).
  { unfold settle, end_task. fields. destruct (queue (gl w0)); fields;
      by rewrite Hp. }
  split.
  - rewrite Hflight. apply NoDup_app. split; [done|]. split; [|done].
    intros u Hu Hu'. apply (Hn12 u Hu). by apply list_elem_of_further.
  - intros u. rewrite Hflight, Hproc. intros Hu.
    apply elem_of_difference. split.
    + apply Hin. apply elem_of_app in Hu as [Hu | Hu];
        apply elem_of_app; [by left | right; by apply list_elem_of_further].
    + rewrite elem_of_singleton. intros ->.
      apply elem_of_app in Hu as [Hu | Hu]; [|done].
      apply (Hn12 _ Hu). apply list_elem_of_here.
Qed.

(** A call that moves on to its next phase is the same request. *)
Lemma set_phase_exclusive i f ph w w0 :
  running (tasks w) !! i = Some f ->
  running (tasks w0) = running (tasks w) ->
  delayed (tasks w0) = delayed (tasks w) ->
  processing (gl w0) = processing (gl w) ->
  exclusive w -> exclusive (set_phase i f ph w0).
Proof.
  intros Hi Hr Hd Hp [Hnd Hin]. unfold exclusive, inflight, set_phase. fields.
  rewrite Hr, Hd, Hp, list_fmap_insert. cbn [compose f_item].
  rewrite list_insert_id; [done|].
  by rewrite list_lookup_fmap, Hi.
Qed.

Lemma cacheLookupDone_exclusive i w : exclusive w -> exclusive (cacheLookupDone i w).
Proof.
  intros Hw. unfold cacheLookupDone.
  destruct (running (tasks w) !! i) as [f|] eqn:Ei; [|done].
  destruct (f_phase f) as [cached| |]; try done.
  destruct (match cached with Some _ => _ | None => _ end).
  - by apply settle_exclusive with w.
  - apply (exclusive_same (set_phase i f AwaitNetwork w)); fields; same.
    by apply set_phase_exclusive with w.
Qed.

Lemma responseArrived_exclusive i result w :
  exclusive w -> exclusive (responseArrived i result w).
Proof.
  intros Hw. unfold responseArrived.
  destruct (running (tasks w) !! i) as [f|] eqn:Ei; [|done].
  destruct (f_phase f) as [| |]; try done.
  destruct result as [response|]; [destruct (r_ok response)|].
  - cbv zeta. apply set_phase_exclusive with w; fields; try done.
    match goal with |- context [enforceCacheLimit ?g0] =>
      destruct (enforceCacheLimit_shape g0) as (c & a & ->) end.
    by destruct (r_content_length response).
  - by apply settle_exclusive with w.
  - by apply settle_exclusive with w.
Qed.

Lemma bodyDone_exclusive arrived i w :
  exclusive w -> exclusive (bodyDone arrived i w).
Proof.
  intros Hw. unfold bodyDone.
  destruct (running (tasks w) !! i) as [f|] eqn:Ei; [|done].
  destruct (f_phase f) as [| |response md]; try done.
  cbv zeta. unfold broadcastCacheUpdate, post.
  destruct (cacheWrite_shape (env w) (q_url (f_item f)) response md (gl w))
    as (c & a & Hcw).
  destruct arrived; fields; rewrite ?Hcw; fields;
    destruct (broadcastChannel _);
    (apply settle_exclusive with w; fields; rewrite ?Hcw; by fields).
Qed.

Lemma boostPriority_exclusive u w : exclusive w -> exclusive (boostPriority u w).
Proof.
  intros Hw. unfold boostPriority. destruct (0 <? _); [|done].
  destruct (splice1 _ _) as [rest [item|]]; [|done].
  apply processQueue_exclusive. revert Hw. same_flight.
Qed.

Lemma start_finish_exclusive w : exclusive w -> exclusive (start_finish w).
Proof.
  intros Hw. unfold start_finish.
  match goal with |- exclusive (upd_gl _ (processQueue ?w1)) =>
    assert (Hq : exclusive (processQueue w1)) end.
  { apply processQueue_exclusive. revert Hw. unfold buildQueue. same_flight. }
  revert Hq. same_flight.
Qed.

Lemma start_exclusive w : exclusive w -> exclusive (start w).
Proof.
  intros Hw. rewrite start_prepare. destruct (isInitialized (gl w)); [done|].
  cbv zeta.
  destruct (prepare_shape (env w) (gl w))
    as (q & seen & a & bc & ct & be & ci & -> & _).
  match goal with |- context [upd_tasks _ ?w0] =>
    assert (Hq : exclusive w0) by (revert Hw; same_flight) end.
  destruct (0 <? _).
  - revert Hq. same_flight.
  - by apply start_finish_exclusive.
Qed.

Lemma step_exclusive w ev :
  is_clearCache ev = false -> exclusive w -> exclusive (step w ev).
Proof.
  intros Hev Hw. destruct ev; cbn [step].
  - by apply start_exclusive.
  - destruct (starting (tasks w)); [done|].
    apply start_finish_exclusive. revert Hw. same_flight.
  - by apply processQueue_exclusive.
  - destruct (timers (tasks w)); [done|].
    apply processQueue_exclusive. revert Hw. same_flight.
  - unfold betweenDelayElapsed.
    destruct (delayed (tasks w) !! i) as [item|] eqn:Ei; [|done].
    apply processQueue_exclusive. destruct Hw as [Hnd Hin].
    assert (Hperm : inflight (fetchAndCache item
        (upd_tasks (fun t => set_delayed (delete i (delayed t)) t) w))
      ≡ₚ inflight w).
    { unfold inflight, fetchAndCache. fields.
      rewrite fmap_app. cbn [fmap list_fmap compose f_item].
      rewrite <- app_assoc. apply Permutation_app_head. cbn [app].
      rewrite <- (take_drop_middle _ _ _ Ei) at 2.
      rewrite delete_take_drop, !fmap_app, fmap_cons.
      by rewrite Permutation_middle. }
    split; [by rewrite Hperm|].
    intros u. rewrite Hperm. unfold fetchAndCache. fields. apply Hin.
  - by apply cacheLookupDone_exclusive.
  - by apply responseArrived_exclusive.
  - by apply bodyDone_exclusive.
  - by apply bodyDone_exclusive.
  - unfold hoverBoost. destruct (selector _ _); [|done].
    destruct (normalizeUrl _ _); [|done].
    destruct (_ && _); [by apply boostPriority_exclusive | done].
  - by apply boostPriority_exclusive.
  - apply processQueue_exclusive. revert Hw. unfold buildQueue. same_flight.
  - revert Hw. unfold pause. same_flight.
  - unfold resume. apply processQueue_exclusive. revert Hw. same_flight.
  - done.
  - revert Hw. unfold configure. same_flight.
  - revert Hw. unfold onConnectionChange.
    destruct (nav_connection (env w)); [|done].
    cbv zeta. fields. destruct (connectionInfo (gl w)); same_flight.
  - revert Hw. apply exclusive_same; fields; same. unfold onMessage.
    destruct (broadcastChannel (gl w)); [|done].
    destruct m as [u ?|u|?]; try done.
    by destruct (invalidateCache_shape u (gl w)) as (c & a & ->).
  - revert Hw. same_flight.
  - revert Hw. same_flight.
Qed.

Lemma run_exclusive evs : forall w,
  Forall (fun ev => is_clearCache ev = false) evs ->
  exclusive w -> exclusive (run w evs).
Proof.
  induction evs as [|ev evs IH]; intros w Hevs Hw; [done|].
  apply Forall_cons in Hevs as [Hev Hevs].
  apply IH; [done|]. by apply step_exclusive.
Qed.

Lemma created_exclusive e options : exclusive (created e options).
Proof.
  split; [apply NoDup_nil_2|]. by intros u Hu%elem_of_nil.
Qed.

End Exclusive.

(** ** Cross-tab messages *)

Section Messages.
Context `{URLPlatform}.

Implicit Types (w : World) (g : Ghostloader) (u : url).











End Messages.

Section CrossTab.
Context `{URLPlatform}.

Implicit Types (w : World) (g : Ghostloader) (u : url).



(** X16.  A [cache-update] message for [u] from another tab puts [u] in
    the processed set; from then on this tab hands [u] to [fetchAndCache]
    no more, as long as [clearCache] is not called (a drain call that
    already holds [u] in its between-delay apart). *)
Theorem announced_url_not_fetched w u timestamp evs :
  broadcastChannel (gl w) = true ->
  u ∉ q_url <$> delayed (tasks w) ->
  Forall (fun ev => is_clearCache ev = false) evs ->
  let w1 := step w (EvMessage (CacheUpdate u timestamp)) in
  u ∈ processed (gl w1) /\
  u ∈ processed (gl (run w1 evs)) /\
  exists new,
    dispatched (tasks (run w1 evs)) = new ++ dispatched (tasks w) /\ u ∉ new.
Proof.
  intros Hbc Hd Hevs w1.
  assert (Hs : settled u w1).
  { split; [|done]. subst w1. cbn [step]. fields. unfold onMessage.
    rewrite Hbc. fields. apply elem_of_union_l. by apply elem_of_singleton. }
  split; [apply Hs|].
  destruct (run_quiet u evs w1 Hevs Hs) as [[Hp _] (new & Hnew & Hu)].
  split; [done|]. by exists new.
Qed.

(** X17.  As long as [clearCache] is not called, no URL is in flight
    twice: the URLs of the [fetchAndCache] calls that have not settled
    and of the entries held in the between-delay are distinct, and each
    of them is in the processing set. *)
Theorem no_concurrent_duplicates e options evs :
  Forall (fun ev => is_clearCache ev = false) evs ->
  let w := run (created e options) evs in
  NoDup (inflight w) /\ forall u, u ∈ inflight w -> u ∈ processing (gl w).
Proof.
  intros Hevs w. by apply run_exclusive, created_exclusive.
Qed.

End CrossTab.

(** ** A closed data budget *)

Section Budget.
Context `{URLPlatform}.

Implicit Types (w : World) (g : Ghostloader) (u : url).

(** Data limits are checked and the check fails, and nothing is in
    flight. *)
Definition blocked w : Prop :=
  connectionAware (config (gl w)) = true /\
  withinDataLimits (gl w) = false /\
  delayed (tasks w) = [] /\
  running (tasks w) = [].

(** From [w] to [w'] nothing was handed to [fetchAndCache] or requested,
    nothing is in flight, and what the data check reads is the same. *)
Definition frozen w w' : Prop :=
  config (gl w') = config (gl w) /\
  dataUsed (gl w') = dataUsed (gl w) /\
  connectionInfo (gl w') = connectionInfo (gl w) /\
  nav_connection (env w') = nav_connection (env w) /\
  delayed (tasks w') = [] /\
  running (tasks w') = [] /\
  dispatched (tasks w') = dispatched (tasks w) /\
  requested (tasks w') = requested (tasks w).

Lemma frozen_trans w1 w2 w3 : frozen w1 w2 -> frozen w2 w3 -> frozen w1 w3.
Proof.
  intros (? & ? & ? & ? & ? & ? & ? & ?) (? & ? & ? & ? & ? & ? & ? & ?).
  repeat split; congruence.
Qed.

Lemma frozen_blocked w w' : blocked w -> frozen w w' -> blocked w'.
Proof.
  intros (Hca & Hlim & _) (Hc & Hd & Hi & _ & Hdel & Hrun & _).
  unfold blocked, withinDataLimits in *. by rewrite Hc, Hd, Hi.
Qed.

Ltac frozen_now Hw :=
  unfold frozen; fields; repeat split; (done || apply Hw).

(** With the data check failing, a drain takes entries off the queue and
    does nothing else. *)
Lemma processQueue_loop_blocked fuel : forall w,
  connectionAware (config (gl w)) = true ->
  withinDataLimits (gl w) = false ->
  env (processQueue_loop fuel w) = env w /\
  tasks (processQueue_loop fuel w) = tasks w /\
  exists q, gl (processQueue_loop fuel w) = set_queue q (gl w).
Proof.
  induction fuel as [|fuel IH]; intros w Hca Hlim.
  { cbn [processQueue_loop]. split; [done|]. split; [done|].
    exists (queue (gl w)). by_fields. }
  rewrite processQueue_loop_S.
  destruct (queue (gl w)) as [|item rest] eqn:Hq.
  { split; [done|]. split; [done|]. exists []. rewrite <- Hq. by_fields. }
  destruct (negb _).
  { split; [done|]. split; [done|]. exists (item :: rest). rewrite <- Hq. by_fields. }
  cbv zeta. destruct (_ || _).
  { destruct (IH (upd_gl (fun _ => set_queue rest (gl w)) w)) as (He & Ht & q & Hg);
      [done | done |].
    split; [done|]. split; [done|]. exists q. rewrite Hg. by_fields. }
  assert (Hc : connectionAware (config (set_queue rest (gl w)))
               && negb (withinDataLimits (set_queue rest (gl w))) = true).
  { apply andb_true_iff. split; [done|]. apply negb_true_iff. exact Hlim. }
  rewrite Hc. split; [done|]. split; [done|]. by exists rest.
Qed.

Lemma processQueue_blocked w : blocked w -> frozen w (processQueue w).
Proof.
  intros Hw. pose proof Hw as (Hca & Hlim & Hd & Hr).
  destruct (processQueue_loop_blocked (length (queue (gl w))) w Hca Hlim)
    as (He & Ht & q & Hg).
  unfold frozen, processQueue. rewrite He, Ht, Hg. by fields.
Qed.

Lemma boostPriority_blocked u w : blocked w -> frozen w (boostPriority u w).
Proof.
  intros Hw. unfold boostPriority. destruct (0 <? _); [|frozen_now Hw].
  destruct (splice1 _ _) as [rest [item|]]; [|frozen_now Hw].
  match goal with |- frozen w (processQueue ?w1) =>
    assert (Hf : frozen w w1) by frozen_now Hw end.
  eapply frozen_trans; [exact Hf|].
  apply processQueue_blocked. by apply (frozen_blocked w).
Qed.

Lemma start_finish_blocked w : blocked w -> frozen w (start_finish w).
Proof.
  intros Hw. unfold start_finish.
  match goal with |- frozen w (upd_gl _ (processQueue ?w1)) =>
    assert (Hf : frozen w w1) by (unfold buildQueue; frozen_now Hw);
    pose proof (processQueue_blocked w1 (frozen_blocked _ _ Hw Hf)) as Hp
  end.
  eapply frozen_trans; [exact Hf|]. eapply frozen_trans; [exact Hp|].
  pose proof (frozen_blocked _ _ (frozen_blocked _ _ Hw Hf) Hp) as Hb.
  frozen_now Hb.
Qed.

(** The events that leave alone what the data check reads. *)
Definition plain_event (ev : Event) : bool :=
  match ev with
  | EvStart | EvClearCache | EvConfigure _ | EvConnectionChange _ => false
  | _ => true
  end.

Lemma step_blocked w ev : plain_event ev = true -> blocked w -> frozen w (step w ev).
Proof.
  intros Hev Hw. pose proof Hw as (Hca & Hlim & Hd & Hr).
  assert (Hdrain : forall w1, frozen w w1 -> frozen w (processQueue w1)).
  { intros w1 Hf. eapply frozen_trans; [exact Hf|].
    apply processQueue_blocked. by apply (frozen_blocked w). }
  destruct ev; cbn [step].
  - done.
  - destruct (starting (tasks w)); [frozen_now Hw|].
    match goal with |- frozen w (start_finish ?w1) =>
      assert (Hf : frozen w w1) by frozen_now Hw end.
    eapply frozen_trans; [exact Hf|].
    apply start_finish_blocked. by apply (frozen_blocked w).
  - by apply processQueue_blocked.
  - destruct (timers (tasks w)); [frozen_now Hw|]. apply Hdrain. frozen_now Hw.
  - unfold betweenDelayElapsed. rewrite Hd, lookup_nil. frozen_now Hw.
  - unfold cacheLookupDone. rewrite Hr, lookup_nil. frozen_now Hw.
  - unfold responseArrived. rewrite Hr, lookup_nil. frozen_now Hw.
  - unfold bodyRead, bodyDone. rewrite Hr, lookup_nil. frozen_now Hw.
  - unfold bodyFailed, bodyDone. rewrite Hr, lookup_nil. frozen_now Hw.
  - unfold hoverBoost. destruct (selector _ _); [|frozen_now Hw].
    destruct (normalizeUrl _ _); [|frozen_now Hw].
    destruct (_ && _); [by apply boostPriority_blocked | frozen_now Hw].
  - by apply boostPriority_blocked.
  - apply Hdrain. unfold buildQueue. frozen_now Hw.
  - unfold pause. frozen_now Hw.
  - unfold resume. apply Hdrain. frozen_now Hw.
  - done.
  - done.
  - done.
  - unfold frozen. fields. unfold onMessage.
    destruct (broadcastChannel (gl w)); [|by repeat split].
    destruct m as [u ?|u|?]; try (by repeat split).
    destruct (invalidateCache_shape u (gl w)) as (c & a & ->). by fields.
  - frozen_now Hw.
  - frozen_now Hw.
Qed.

(** [start] with the data check failing before and after its
    preparations. *)
Lemma start_blocked w :
  blocked w ->
  withinDataLimits (prepare (env w) (gl w)) = false ->
  blocked (start w) /\
  config (gl (start w)) = config (gl w) /\
  dataUsed (gl (start w)) = dataUsed (gl w) /\
  env (start w) = env w /\
  (start w = w \/
   connectionInfo (gl (start w)) = connectionInfo (prepare (env w) (gl w))) /\
  dispatched (tasks (start w)) = dispatched (tasks w) /\
  requested (tasks (start w)) = requested (tasks w).
Proof.
  intros Hw Hlim. pose proof Hw as (Hca & _ & Hd & Hr).
  rewrite start_prepare. destruct (isInitialized (gl w)).
  { repeat split; try done; first [apply Hw | by left]. }
  cbv zeta.
  destruct (prepare_shape (env w) (gl w))
    as (q & seen & a & bc & ct & be & ci & Hshape & _).
  set (w1 := upd_gl (fun _ => prepare (env w) (gl w)) w).
  assert (Hb1 : blocked w1).
  { unfold blocked. subst w1. fields. split; [|done].
    rewrite Hshape. by fields. }
  assert (Hc1 : config (gl w1) = config (gl w) /\ dataUsed (gl w1) = dataUsed (gl w)).
  { subst w1. fields. rewrite Hshape. by fields. }
  destruct Hc1 as [Hc1 Hu1].
  destruct (0 <? _).
  - repeat split; try done; try apply Hb1. by right.
  - pose proof (start_finish_blocked w1 Hb1)
      as Hf.
    pose proof (frozen_blocked _ _ Hb1 Hf) as Hb.
    destruct Hf as (Hc & Hu & Hi & Hn & Hdel & Hrun & Hdis & Hreq).
    split; [done|]. split; [congruence|]. split; [congruence|].
    split; [by rewrite start_finish_env|]. split; [by right|]. by split.
Qed.

End Budget.

Section BudgetProperties.
Context `{URLPlatform}.

Implicit Types (w : World) (g : Ghostloader) (u : url).

(** Data limits are checked, the session has used up its data limit, and
    nothing is in flight. *)
Definition exhausted w : Prop :=
  connectionAware (config (gl w)) = true /\
  dataLimit (config (gl w)) <= dataUsed (gl w) /\
  delayed (tasks w) = [] /\
  running (tasks w) = [].

(** Data limits are checked, the connection that the engine has recorded
    asks to save data, and so does the browser's; nothing is in flight. *)
Definition saving w : Prop :=
  connectionAware (config (gl w)) = true /\
  (exists c, connectionInfo (gl w) = Some c /\ saveData c = true) /\
  (forall c, nav_connection (env w) = Some c -> saveData c = true) /\
  delayed (tasks w) = [] /\
  running (tasks w) = [].

Definition keeps_budget (ev : Event) : bool :=
  match ev with
  | EvClearCache | EvConfigure _ => false
  | _ => true
  end.

Definition keeps_connection (ev : Event) : bool :=
  match ev with
  | EvConfigure _ | EvConnectionChange _ => false
  | _ => true
  end.

Lemma spent_withinDataLimits g :
  dataLimit (config g) <= dataUsed g -> withinDataLimits g = false.
Proof.
  intros Hle. unfold withinDataLimits.
  assert ((dataLimit (config g) <=? dataUsed g) = true) as -> by by apply Z.leb_le.
  destruct (connectionInfo g) as [c|]; [by destruct (saveData c) | done].
Qed.

Lemma exhausted_blocked w : exhausted w -> blocked w.
Proof.
  intros (Hca & Hle & Hd & Hr). split; [done|].
  split; [by apply spent_withinDataLimits | done].
Qed.

Lemma saving_blocked w : saving w -> blocked w.
Proof.
  intros (Hca & (c & Hc & Hs) & _ & Hd & Hr). split; [done|].
  split; [|done]. unfold withinDataLimits. by rewrite Hc, Hs.
Qed.

Lemma step_exhausted w ev :
  keeps_budget ev = true -> exhausted w ->
  exhausted (step w ev) /\
  dataUsed (gl (step w ev)) = dataUsed (gl w) /\
  dispatched (tasks (step w ev)) = dispatched (tasks w) /\
  requested (tasks (step w ev)) = requested (tasks w).
Proof.
  intros Hev Hw. pose proof Hw as (Hca & Hle & Hd & Hr).
  destruct (plain_event ev) eqn:Eplain.
  - destruct (step_blocked w ev Eplain (exhausted_blocked w Hw))
      as (Hc & Hu & _ & _ & Hd' & Hr' & Hdis & Hreq).
    split; [|done]. unfold exhausted. by rewrite Hc, Hu.
  - destruct ev; try done; cbn [step].
    + assert (Hlim : withinDataLimits (prepare (env w) (gl w)) = false).
      { apply spent_withinDataLimits.
        destruct (prepare_shape (env w) (gl w))
          as (q & seen & a & bc & ct & be & ci & -> & _). by fields. }
      destruct (start_blocked w (exhausted_blocked w Hw) Hlim)
        as ((_ & _ & Hd' & Hr') & Hc & Hu & _ & _ & Hdis & Hreq).
      split; [|done]. unfold exhausted. by rewrite Hc, Hu.
    + unfold onConnectionChange.
      destruct (nav_connection (env w)); [|done].
      cbv zeta. fields. by destruct (connectionInfo (gl w)).
Qed.

Lemma step_saving w ev :
  keeps_connection ev = true -> saving w ->
  saving (step w ev) /\
  dispatched (tasks (step w ev)) = dispatched (tasks w) /\
  requested (tasks (step w ev)) = requested (tasks w).
Proof.
  intros Hev Hw. pose proof Hw as (Hca & (c & Hc & Hs) & Hnav & Hd & Hr).
  destruct (plain_event ev) eqn:Eplain.
  - destruct (step_blocked w ev Eplain (saving_blocked w Hw))
      as (Hcfg & _ & Hi & Hn & Hd' & Hr' & Hdis & Hreq).
    split; [|done]. unfold saving. rewrite Hcfg, Hi, Hn.
    split; [done|]. split; [by exists c | done].
  - destruct ev; try done; cbn [step].
    + destruct (prepare_shape (env w) (gl w))
        as (q & seen & a & bc & ct & be & ci & Hshape & _ & Hci & _).
      assert (Hci' : exists c', ci = Some c' /\ saveData c' = true).
      { destruct Hci as [-> | (_ & [c' Hc'] & Hn)]; [by exists c|].
        exists c'. split; [done|]. apply Hnav. by rewrite <- Hn. }
      destruct Hci' as (c' & -> & Hs').
      assert (Hlim : withinDataLimits (prepare (env w) (gl w)) = false).
      { rewrite Hshape. unfold withinDataLimits. fields. by rewrite Hs'. }
      destruct (start_blocked w (saving_blocked w Hw) Hlim)
        as ((_ & _ & Hd' & Hr') & Hcfg & _ & He & Hi & Hdis & Hreq).
      split; [|done]. unfold saving. rewrite Hcfg, He.
      split; [done|]. split; [|done].
      destruct Hi as [-> | ->]; [by exists c|].
      exists c'. rewrite Hshape. by fields.
    + unfold clearCache, post. cbv zeta. fields.
      unfold saving.
      destruct (cacheAPI (gl w)); fields;
        destruct (broadcastChannel (gl w)); fields;
        (split; [by repeat split; try (by exists c)|done]).
Qed.

(** X18.  Once the session has used up its data limit, with data limits
    checked and nothing in flight, nothing is handed to [fetchAndCache]
    or requested from the network any more, whatever happens on the page
    or on the connection, until [clearCache] resets the data counter or
    the page reconfigures the engine. *)
Theorem exhausted_budget_never_fetches evs : forall w,
  Forall (fun ev => keeps_budget ev = true) evs ->
  exhausted w ->
  dispatched (tasks (run w evs)) = dispatched (tasks w) /\
  requested (tasks (run w evs)) = requested (tasks w) /\
  dataUsed (gl (run w evs)) = dataUsed (gl w) /\
  withinDataLimits (gl (run w evs)) = false.
Proof.
  induction evs as [|ev evs IH]; intros w Hevs Hw.
  { repeat split. by apply spent_withinDataLimits, Hw. }
  apply Forall_cons in Hevs as [Hev Hevs].
  destruct (step_exhausted w ev Hev Hw) as (Hw' & Hu & Hdis & Hreq).
  destruct (IH _ Hevs Hw') as (IH1 & IH2 & IH3 & IH4).
  change (run w (ev :: evs)) with (run (step w ev) evs).
  split; [congruence|]. split; [congruence|]. split; [congruence | done].
Qed.

(** X19.  While the connection asks to save data, with data limits
    checked and nothing in flight, nothing is handed to [fetchAndCache]
    or requested from the network, whatever happens on the page, until
    the connection changes or the page reconfigures the engine. *)
Theorem data_saver_never_fetches evs : forall w,
  Forall (fun ev => keeps_connection ev = true) evs ->
  saving w ->
  dispatched (tasks (run w evs)) = dispatched (tasks w) /\
  requested (tasks (run w evs)) = requested (tasks w) /\
  withinDataLimits (gl (run w evs)) = false.
Proof.
  induction evs as [|ev evs IH]; intros w Hevs Hw.
  { repeat split. by apply saving_blocked. }
  apply Forall_cons in Hevs as [Hev Hevs].
  destruct (step_saving w ev Hev Hw) as (Hw' & Hdis & Hreq).
  destruct (IH _ Hevs Hw') as (IH1 & IH2 & IH3).
  change (run w (ev :: evs)) with (run (step w ev) evs).
  split; [congruence|]. split; [congruence | done].
Qed.

End BudgetProperties.

(** ** The hint ingestor *)

Section Hints.
Context `{URLPlatform}.

Implicit Types (g : Ghostloader) (e : Env).

(** The hints of the JSON-LD blocks of a page, in document order. *)
Definition jsonHints (p : Page) : list JsonHint :=
  mjoin (default [] <$> jsonLdScripts p).

(** [g'] has seen the hints that [g] has seen. *)
Definition seen_more g g' : Prop := ssrHintsReceived g ⊆ ssrHintsReceived g'.

Lemma metaHint_seen e g meta :
  seen_more g (metaHint e g meta) /\
  forall raw, mt_content meta = Some raw -> JS.truthy (Some raw) = true ->
    raw ∈ ssrHintsReceived (metaHint e g meta).
Proof.
  unfold seen_more, metaHint. destruct (mt_content meta) as [raw0|]; [|done].
  destruct (JS.truthy (Some raw0)) eqn:Et; cbn [andb].
  - destruct (bool_decide (raw0 ∈ ssrHintsReceived g)) eqn:Es; cbn [negb].
    + apply bool_decide_eq_true_1 in Es. split; [done|]. by intros raw [= <-] _.
    + clear Es. split.
      * destruct (bool_decide _); fields; apply union_subseteq_r.
      * intros raw [= <-] _.
        destruct (bool_decide _); fields; apply elem_of_union_l;
          by apply elem_of_singleton.
  - split; [done|]. intros raw [= <-]. by rewrite Et.
Qed.

Lemma jsonHint_seen e g hint :
  seen_more g (jsonHint e g hint) /\
  forall raw, h_url hint = Some raw -> JS.truthy (Some raw) = true ->
    raw ∈ ssrHintsReceived (jsonHint e g hint).
Proof.
  unfold seen_more, jsonHint. destruct (h_url hint) as [raw0|]; [|done].
  destruct (JS.truthy (Some raw0)) eqn:Et; cbn [andb].
  - destruct (bool_decide (raw0 ∈ ssrHintsReceived g)) eqn:Es; cbn [negb].
    + apply bool_decide_eq_true_1 in Es. split; [done|]. by intros raw [= <-] _.
    + fields. split; [apply union_subseteq_r|].
      intros raw [= <-] _. apply elem_of_union_l. by apply elem_of_singleton.
  - split; [done|]. intros raw [= <-]. by rewrite Et.
Qed.

(** A fold of an ingestion step that only adds to the set of hints seen,
    and that records the hint it is given. *)
Lemma fold_seen {A} (f : Ghostloader -> A -> Ghostloader) (rawOf : A -> option string) :
  (forall g a, seen_more g (f g a) /\
     forall raw, rawOf a = Some raw -> JS.truthy (Some raw) = true ->
       raw ∈ ssrHintsReceived (f g a)) ->
  forall l g,
    seen_more g (fold_left f l g) /\
    forall a raw, a ∈ l -> rawOf a = Some raw -> JS.truthy (Some raw) = true ->
      raw ∈ ssrHintsReceived (fold_left f l g).
Proof.
  intros Hf. unfold seen_more in *.
  induction l as [|a l IH]; intros g; cbn [fold_left].
  { split; [done|]. by intros a raw Ha%elem_of_nil. }
  destruct (Hf g a) as [Hmore Hrec]. destruct (IH (f g a)) as [IHmore IHrec].
  split; [by etrans|].
  intros a' raw Ha' Hraw Ht. apply elem_of_cons in Ha' as [-> | Ha'].
  - apply IHmore. by apply Hrec.
  - by apply IHrec with a'.
Qed.

Lemma jsonHints_seen e hints g :
  seen_more g (fold_left (jsonHint e) hints g) /\
  forall hint raw, hint ∈ hints -> h_url hint = Some raw ->
    JS.truthy (Some raw) = true ->
    raw ∈ ssrHintsReceived (fold_left (jsonHint e) hints g).
Proof. apply (fold_seen (jsonHint e) h_url). apply jsonHint_seen. Qed.

Lemma scripts_seen e scripts : forall g,
  seen_more g (fold_left (jsonLdScript e) scripts g) /\
  forall hint raw, hint ∈ mjoin (default [] <$> scripts) ->
    h_url hint = Some raw -> JS.truthy (Some raw) = true ->
    raw ∈ ssrHintsReceived (fold_left (jsonLdScript e) scripts g).
Proof.
  unfold seen_more.
  induction scripts as [|script scripts IH]; intros g; cbn [fold_left].
  { split; [done|]. by intros hint raw Hh%elem_of_nil. }
  assert (Hs : seen_more g (jsonLdScript e g script) /\
    forall hint raw, hint ∈ default [] script -> h_url hint = Some raw ->
      JS.truthy (Some raw) = true ->
      raw ∈ ssrHintsReceived (jsonLdScript e g script)).
  { destruct script as [hints|]; cbn [jsonLdScript default].
    - apply jsonHints_seen.
    - split; [by unfold seen_more|]. by intros hint raw Hh%elem_of_nil. }
  unfold seen_more in Hs.
  destruct Hs as [Hmore Hrec]. destruct (IH (jsonLdScript e g script)) as [IHmore IHrec].
  split; [by etrans|].
  intros hint raw Hh Hraw Ht. cbn [fmap list_fmap mjoin list_join] in Hh.
  apply elem_of_app in Hh as [Hh | Hh].
  - apply IHmore. by apply Hrec with hint.
  - by apply IHrec with hint.
Qed.

(** A hint that has been seen is passed over. *)
Lemma metaHint_known e g meta :
  (forall raw, mt_content meta = Some raw -> JS.truthy (Some raw) = true ->
     raw ∈ ssrHintsReceived g) ->
  metaHint e g meta = g.
Proof.
  intros Hknown. unfold metaHint. destruct (mt_content meta) as [raw|]; [|done].
  destruct (JS.truthy (Some raw)) eqn:Et; [|done].
  by rewrite (bool_decide_eq_true_2 _ (Hknown raw eq_refl Et)).
Qed.

Lemma jsonHint_known e g hint :
  (forall raw, h_url hint = Some raw -> JS.truthy (Some raw) = true ->
     raw ∈ ssrHintsReceived g) ->
  jsonHint e g hint = g.
Proof.
  intros Hknown. unfold jsonHint. destruct (h_url hint) as [raw|]; [|done].
  destruct (JS.truthy (Some raw)) eqn:Et; [|done].
  by rewrite (bool_decide_eq_true_2 _ (Hknown raw eq_refl Et)).
Qed.

Lemma fold_known {A} (f : Ghostloader -> A -> Ghostloader) (P : A -> Ghostloader -> Prop) :
  (forall g a, P a g -> f g a = g) ->
  forall l g, (forall a, a ∈ l -> P a g) -> fold_left f l g = g.
Proof.
  intros Hf. induction l as [|a l IH]; intros g Hl; cbn [fold_left]; [done|].
  rewrite (Hf g a) by apply Hl, list_elem_of_here.
  apply IH. intros a' Ha'. by apply Hl, list_elem_of_further.
Qed.

(** X20.  [processSSRHints] records every hint URL of the page that is
    not empty, forgets none that it had recorded, and changes nothing on a
    page whose hints are all recorded: each hint is taken in once, and a
    second pass over the same hints, on this page or a later one, adds
    nothing to the queue. *)
Theorem processSSRHints_once e g :
  let g' := processSSRHints e g in
  ssrHintsReceived g ⊆ ssrHintsReceived g' /\
  (forall meta raw, meta ∈ metaHints (page e) -> mt_content meta = Some raw ->
     JS.truthy (Some raw) = true -> raw ∈ ssrHintsReceived g') /\
  (forall hint raw, hint ∈ jsonHints (page e) -> h_url hint = Some raw ->
     JS.truthy (Some raw) = true -> raw ∈ ssrHintsReceived g') /\
  (forall e',
     metaHints (page e') = metaHints (page e) ->
     jsonLdScripts (page e') = jsonLdScripts (page e) ->
     processSSRHints e' g' = g') /\
  processSSRHints e g' = g'.
Proof.
  intros g'. subst g'. unfold processSSRHints.
  set (g1 := fold_left (metaHint e) (metaHints (page e)) g).
  destruct (fold_seen (metaHint e) mt_content (metaHint_seen e)
              (metaHints (page e)) g) as [Hm1 Hm2].
  fold g1 in Hm1, Hm2.
  destruct (scripts_seen e (jsonLdScripts (page e)) g1) as [Hs1 Hs2].
  unfold seen_more in Hm1, Hs1.
  set (g2 := fold_left (jsonLdScript e) (jsonLdScripts (page e)) g1) in *.
  assert (Hagain : forall e',
    metaHints (page e') = metaHints (page e) ->
    jsonLdScripts (page e') = jsonLdScripts (page e) ->
    fold_left (jsonLdScript e') (jsonLdScripts (page e'))
      (fold_left (metaHint e') (metaHints (page e')) g2) = g2).
  { intros e' -> ->.
    rewrite (fold_known (metaHint e')
      (fun meta g0 => forall raw, mt_content meta = Some raw ->
         JS.truthy (Some raw) = true -> raw ∈ ssrHintsReceived g0)).
    - apply (fold_known (jsonLdScript e')
        (fun script g0 => forall hint raw, hint ∈ default [] script ->
           h_url hint = Some raw -> JS.truthy (Some raw) = true ->
           raw ∈ ssrHintsReceived g0)).
      + intros g0 [hints|] Hknown; cbn [jsonLdScript]; [|done].
        apply (fold_known (jsonHint e')
          (fun hint g0 => forall raw, h_url hint = Some raw ->
             JS.truthy (Some raw) = true -> raw ∈ ssrHintsReceived g0)).
        * apply jsonHint_known.
        * intros hint Hh raw. by apply Hknown.
      + intros script Hscript hint raw Hh. apply Hs2.
        unfold jsonHints. apply list_elem_of_join. exists (default [] script).
        split; [done|]. by apply list_elem_of_fmap_2.
    - apply metaHint_known.
    - intros meta Hmeta raw Hraw Ht. apply Hs1. by apply Hm2 with meta. }
  split; [by etrans|]. split.
  { intros meta raw Hmeta Hraw Ht. apply Hs1. by apply Hm2 with meta. }
  split; [exact Hs2|]. split; [exact Hagain | by apply Hagain].
Qed.

End Hints.

Section HintQueue.
Context `{URLPlatform}.

Implicit Types (g : Ghostloader) (e : Env).

(** [item] is the entry queued for the hint URL [raw]: of a meta tag of
    high priority, or of a JSON-LD hint. *)
Definition hintEntry e (raw : string) (item : QueueItem) : Prop :=
  q_url item = normalizeUrl e raw /\
  q_element item = None /\
  q_timestamp item = clock e /\
  ((q_source item = Some "ssr-hint" /\ q_priority item = -1000 /\
    exists meta, meta ∈ metaHints (page e) /\ mt_content meta = Some raw /\
                 mt_priority meta = Some "high") \/
   (q_source item = Some "ssr-hint-json" /\
    exists hint, hint ∈ jsonHints (page e) /\ h_url hint = Some raw /\
                 q_priority item = JS.or_num (default 0 (h_priority hint)) 0)).

(** A fold of an ingestion step that puts its entries at the head of the
    queue. *)
Lemma fold_prepends {A} (f : Ghostloader -> A -> Ghostloader)
    (R : A -> Ghostloader -> QueueItem -> Prop) :
  (forall a g g' item, seen_more g g' -> R a g' item -> R a g item) ->
  (forall g a, seen_more g (f g a) /\
     exists new, queue (f g a) = new ++ queue g /\
                 forall item, item ∈ new -> R a g item) ->
  forall l g,
    seen_more g (fold_left f l g) /\
    exists new, queue (fold_left f l g) = new ++ queue g /\
                forall item, item ∈ new -> exists a, a ∈ l /\ R a g item.
Proof.
  intros Hanti Hf. unfold seen_more in *.
  induction l as [|a l IH]; intros g; cbn [fold_left].
  { split; [done|]. exists []. split; [done|]. by intros item Hi%elem_of_nil. }
  destruct (Hf g a) as (Hmore & new1 & Hq1 & Hnew1).
  destruct (IH (f g a)) as (IHmore & new2 & Hq2 & Hnew2).
  split; [by etrans|]. exists (new2 ++ new1).
  split; [by rewrite Hq2, Hq1, app_assoc|].
  intros item Hi. apply elem_of_app in Hi as [Hi | Hi].
  - destruct (Hnew2 item Hi) as (a' & Ha' & HR). exists a'.
    split; [by apply list_elem_of_further|]. by apply Hanti with (f g a).
  - exists a. split; [apply list_elem_of_here | by apply Hnew1].
Qed.

Lemma high_priority meta :
  JS.or_str (mt_priority meta) (Some "normal") = Some "high" ->
  mt_priority meta = Some "high".
Proof.
  unfold JS.or_str. by destruct (JS.truthy (mt_priority meta)).
Qed.

(** X21.  [processSSRHints] puts its entries at the head of the queue and
    leaves the entries that were there behind them, in their order.  Each
    new entry stands for a hint URL of the page that is not empty and had
    not been seen: a meta tag whose [data-priority] is ['high'] (priority
    -1000) or a JSON-LD hint (its own priority, 0 when it has none); it
    has no element and its URL is the hint, normalized.  A meta tag of
    another priority is recorded as seen and queues nothing.  Apart from
    the queue and the set of hints seen, the engine is as it was. *)
Theorem processSSRHints_prepends e g :
  exists hints seen,
    processSSRHints e g =
      set_queue (hints ++ queue g) (set_ssrHintsReceived seen g) /\
    forall item, item ∈ hints ->
      exists raw, (raw ∉ ssrHintsReceived g) /\ JS.truthy (Some raw) = true /\
                  hintEntry e raw item.
Proof.
  set (R := fun (raw : option string) g0 item =>
    exists r, raw = Some r /\ (r ∉ ssrHintsReceived g0) /\
              JS.truthy (Some r) = true /\ hintEntry e r item).
  assert (Hanti : forall raw g0 g' item,
    seen_more g0 g' -> R raw g' item -> R raw g0 item).
  { intros raw g0 g' item Hmore (r & -> & Hr & Ht & He). exists r.
    split; [done|]. split; [|done]. intros Hin. by apply Hr, Hmore. }
  (* the meta tags *)
  destruct (fold_prepends (metaHint e)
    (fun meta g0 item => meta ∈ metaHints (page e) -> R (mt_content meta) g0 item))
    with (l := metaHints (page e)) (g := g)
    as (Hmore1 & new1 & Hq1 & Hnew1).
  { intros meta g0 g' item Hmore HR Hin. by apply Hanti with g', HR. }
  { intros g0 meta. split; [apply metaHint_seen|].
    unfold metaHint. destruct (mt_content meta) as [raw|] eqn:Eraw;
      [|exists []; split; [done | by intros item Hi%elem_of_nil]].
    destruct (JS.truthy (Some raw)) eqn:Et; cbn [andb];
      [|exists []; split; [done | by intros item Hi%elem_of_nil]].
    destruct (bool_decide (raw ∈ ssrHintsReceived g0)) eqn:Es; cbn [negb];
      [exists []; split; [done | by intros item Hi%elem_of_nil]|].
    apply bool_decide_eq_false_1 in Es.
    destruct (bool_decide (_ = Some "high")) eqn:Ep; fields;
      [|exists []; split; [done | by intros item Hi%elem_of_nil]].
    apply bool_decide_eq_true_1, high_priority in Ep.
    eexists [_]. split; [done|].
    intros item Hi%list_elem_of_singleton Hmeta. subst item.
    exists raw. split; [done|]. split; [done|]. split; [done|].
    split; [done|]. split; [done|]. split; [done|]. left.
    split; [done|]. split; [done|]. by exists meta. }
  (* the JSON-LD blocks *)
  set (g1 := fold_left (metaHint e) (metaHints (page e)) g) in *.
  destruct (fold_prepends (jsonLdScript e)
    (fun script g0 item => script ∈ jsonLdScripts (page e) ->
       exists hint, hint ∈ default [] script /\ R (h_url hint) g0 item))
    with (l := jsonLdScripts (page e)) (g := g1)
    as (Hmore2 & new2 & Hq2 & Hnew2).
  { intros script g0 g' item Hmore HR Hin.
    destruct (HR Hin) as (hint & Hh & HRh). exists hint.
    split; [done|]. by apply Hanti with g'. }
  { intros g0 [hints|]; cbn [jsonLdScript default];
      [|split; [by unfold seen_more|]; exists []; split;
         [done | by intros item Hi%elem_of_nil]].
    destruct (fold_prepends (jsonHint e)
      (fun hint g2 item => Some hints ∈ jsonLdScripts (page e) ->
         hint ∈ hints -> R (h_url hint) g2 item))
      with (l := hints) (g := g0) as (Hmore & new & Hq & Hnew).
    { intros hint g2 g' item Hmore HR Hs Hin. by apply Hanti with g', HR. }
    { intros g2 hint. split; [apply jsonHint_seen|].
      unfold jsonHint. destruct (h_url hint) as [raw|] eqn:Eraw;
        [|exists []; split; [done | by intros item Hi%elem_of_nil]].
      destruct (JS.truthy (Some raw)) eqn:Et; cbn [andb];
        [|exists []; split; [done | by intros item Hi%elem_of_nil]].
      destruct (bool_decide (raw ∈ ssrHintsReceived g2)) eqn:Es; cbn [negb];
        [exists []; split; [done | by intros item Hi%elem_of_nil]|].
      apply bool_decide_eq_false_1 in Es. fields.
      eexists [_]. split; [done|].
      intros item Hi%list_elem_of_singleton Hs Hin. subst item.
      exists raw. split; [done|]. split; [done|]. split; [done|].
      split; [done|]. split; [done|]. split; [done|]. right.
      split; [done|]. exists hint. split; [|by split].
      unfold jsonHints. apply list_elem_of_join. exists hints.
      split; [done|]. by apply (list_elem_of_fmap_2 (default []) _ (Some hints)). }
    split; [done|]. exists new. split; [done|].
    intros item Hi Hs. destruct (Hnew item Hi) as (hint & Hh & HR).
    exists hint. split; [done|]. by apply HR. }
  destruct (processSSRHints_shape e g) as (q & seen & Hshape).
  exists (new2 ++ new1), seen. split.
  - rewrite Hshape. unfold processSSRHints in Hshape. cbv zeta in Hshape.
    fold g1 in Hshape. rewrite Hshape in Hq2. fields.
    by rewrite Hq2, Hq1, app_assoc.
  - intros item Hi. apply elem_of_app in Hi as [Hi | Hi].
    + destruct (Hnew2 item Hi) as (script & Hs & HR).
      destruct (HR Hs) as (hint & Hh & (r & Hr & Hfresh & Ht & He)).
      exists r. split; [|done]. intros Hin. by apply Hfresh, Hmore1.
    + destruct (Hnew1 item Hi) as (meta & Hm & HR).
      destruct (HR Hm) as (r & Hr & Hfresh & Ht & He). by exists r.
Qed.

End HintQueue.

(** ** The fetch pipeline, from the cache check to the end *)

Section Pipeline.
Context `{URLPlatform}.

Implicit Types (w : World) (g : Ghostloader) (u : url).

Lemma list_delete_insert {A} (l : list A) i x : delete i (<[i:=x]> l) = delete i l.
Proof.
  revert i. induction l as [|y l IH]; intros [|i]; cbn; try done.
  by rewrite IH.
Qed.

Lemma enforceCacheLimit_dataUsed (d : Z) g :
  enforceCacheLimit (set_dataUsed d g) = set_dataUsed d (enforceCacheLimit g).
Proof.
  unfold enforceCacheLimit. fields.
  destruct (cacheAPI g); cbv zeta; by destruct (_ <=? _).
Qed.

(** The end of a [fetchAndCache] call whose response was [ok]: with or
    without the write, a miss and the bytes are counted, the tabs are
    told, and the call settles. *)
Lemma bodyDone_result (arrived : bool) i w f response md :
  running (tasks w) !! i = Some f ->
  f_phase f = AwaitBody response md ->
  let u := q_url (f_item f) in
  let g' := if arrived then cacheWrite (env w) u response md (gl w) else gl w in
  let w' := bodyDone arrived i w in
  cache (gl w') = cache g' /\
  cacheAPI (gl w') = cacheAPI g' /\
  dataUsed (gl w') = dataUsed (gl w) /\
  cacheMisses (stats (gl w')) = cacheMisses (stats (gl w)) + 1 /\
  cacheHits (stats (gl w')) = cacheHits (stats (gl w)) /\
  bytesTransferred (stats (gl w'))
    = bytesTransferred (stats (gl w)) + default 0 (r_content_length response) /\
  processed (gl w') = {[u]} ∪ processed (gl w) /\
  processing (gl w') = processing (gl w) ∖ {[u]} /\
  activeRequests (gl w') = activeRequests (gl w) - 1 /\
  running (tasks w') = delete i (running (tasks w)) /\
  requested (tasks w') = requested (tasks w) /\
  posted (tasks w') =
    (if broadcastChannel (gl w) then [CacheUpdate u (clock (env w))] else [])
    ++ posted (tasks w).
Proof.
  intros Hi Hphase u g' w'. subst w' g'. unfold bodyDone. rewrite Hi, Hphase.
  cbv zeta. fold u. unfold broadcastCacheUpdate, post, settle, end_task.
  destruct (cacheWrite_shape (env w) u response md (gl w)) as (c & a & Hcw).
  destruct arrived; fields; rewrite ?Hcw; fields;
    destruct (broadcastChannel (gl w)); fields; rewrite ?Hcw; fields;
    destruct (queue (gl w)); fields; by repeat split.
Qed.

(** X22.  A [fetchAndCache] call that finds no fresh entry and gets an
    [ok] response: the URL is requested from the network once, the data
    counter and the transferred bytes grow by the content-length, a miss
    is counted, the other tabs are told when there is a channel, and the
    URL goes from the processing set to the processed set with the
    request slot given back.  All of that whether the response is stored
    or not.  It is stored, and served with the body received, when its
    body arrives and the write goes through; when the body is lost, or
    the platform cache refuses the write, the cache is as the eviction
    pass of [storeInCache] left it. *)
Theorem fetch_pipeline_caches w i f cached response (arrived : bool) :
  running (tasks w) !! i = Some f ->
  f_phase f = AwaitCache cached ->
  (forall r, cached = Some r ->
     isCacheExpired (clock (env w)) (config (gl w)) r = true) ->
  r_ok response = true ->
  let u := q_url (f_item f) in
  let n := default 0 (r_content_length response) in
  let md := {| md_timestamp := Some (clock (env w));
               md_version := Some (cacheVersion (config (gl w)));
               md_size := Some n |} in
  let written := arrived && stores (env w) u response md (gl w) in
  let w3 := run w [EvCacheLookup i; EvResponse i (Resolved response);
                   if arrived then EvBodyRead i else EvBodyFailed i] in
  requested (tasks w3) = u :: requested (tasks w) /\
  (written = true ->
   isInCache (gl w3) u = true /\
   exists stored, getCachedResponse (gl w3) u = Some stored /\
                  r_body stored = r_body response) /\
  (written = false ->
   cache (gl w3) = cache (enforceCacheLimit (gl w)) /\
   cacheAPI (gl w3) = cacheAPI (enforceCacheLimit (gl w))) /\
  cacheMisses (stats (gl w3)) = cacheMisses (stats (gl w)) + 1 /\
  cacheHits (stats (gl w3)) = cacheHits (stats (gl w)) /\
  dataUsed (gl w3) = dataUsed (gl w) + n /\
  bytesTransferred (stats (gl w3)) = bytesTransferred (stats (gl w)) + n /\
  u ∈ processed (gl w3) /\
  (u ∉ processing (gl w3)) /\
  activeRequests (gl w3) = activeRequests (gl w) - 1 /\
  running (tasks w3) = delete i (running (tasks w)) /\
  posted (tasks w3) =
    (if broadcastChannel (gl w) then [CacheUpdate u (clock (env w))] else [])
    ++ posted (tasks w).
Proof.
  intros Hi Hphase Hstale Hok u n md written w3. subst u.
  set (u := q_url (f_item f)) in *.
  assert (Hlen : (i < length (running (tasks w)))%nat)
    by (by apply lookup_lt_Some in Hi).
  (* the cache check *)
  set (f1 := {| f_item := f_item f; f_start := f_start f; f_phase := AwaitNetwork |}).
  set (w1 := step w (EvCacheLookup i)).
  assert (Hw1 : w1 =
    upd_tasks (fun t => set_requested (u :: requested t) t)
      (set_phase i f AwaitNetwork w)).
  { subst w1. cbn [step]. unfold cacheLookupDone. rewrite Hi, Hphase.
    destruct cached as [r|]; [by rewrite (Hstale r eq_refl)|done]. }
  assert (Hi1 : running (tasks w1) !! i = Some f1).
  { rewrite Hw1. unfold set_phase. fields. by apply list_lookup_insert_eq. }
  (* the response *)
  set (g2 := enforceCacheLimit
    (match r_content_length response with
     | Some k => set_dataUsed (dataUsed (gl w) + k) (gl w)
     | None => gl w
     end)).
  set (f2 := {| f_item := f_item f; f_start := f_start f;
                f_phase := AwaitBody response md |}).
  set (w2 := step w1 (EvResponse i (Resolved response))).
  assert (Hw2 : w2 = set_phase i f1 (AwaitBody response md)
                       (upd_gl (fun _ => g2) w1)).
  { subst w2. cbn [step]. unfold responseArrived. rewrite Hi1.
    cbn [f_phase f1]. rewrite Hok. cbv zeta. rewrite Hw1.
    unfold set_phase. fields. subst md g2 n.
    by destruct (r_content_length response). }
  assert (Hi2 : running (tasks w2) !! i = Some f2).
  { rewrite Hw2, Hw1. unfold set_phase. fields.
    apply list_lookup_insert_eq. by rewrite length_insert. }
  assert (Hg2 : g2 = set_dataUsed (dataUsed (gl w) + n) (enforceCacheLimit (gl w))).
  { subst g2 n. destruct (r_content_length response) as [k|]; simpl.
    - apply enforceCacheLimit_dataUsed.
    - rewrite Z.add_0_r.
      destruct (enforceCacheLimit_shape (gl w)) as (c & a & ->). by_fields. }
  assert (Hgl2 : gl w2 = g2) by (rewrite Hw2, Hw1; unfold set_phase; by fields).
  assert (Henv2 : env w2 = env w) by (rewrite Hw2, Hw1; unfold set_phase; by fields).
  destruct (enforceCacheLimit_shape (gl w)) as (c0 & a0 & Hshape).
  assert (Hstores : stores (env w) u response md g2
                    = stores (env w) u response md (gl w)).
  { rewrite <- (stores_after_eviction (env w) u response md (gl w)).
    rewrite Hg2. unfold stores, cacheVersion_or. by fields. }
  (* the body *)
  assert (Hrun : w3 = bodyDone arrived i w2) by (subst w3; by destruct arrived).
  destruct (bodyDone_result arrived i w2 f2 response md Hi2 eq_refl)
    as (Hc & Ha & Hd & Hm & Hh & Hb & Hpd & Hpg & Hact & Hr & Hreq & Hpost).
  rewrite <- Hrun in *. cbn [f_item f2] in *. fold u in Hpd, Hpg, Hpost, Hc, Ha.
  rewrite Hgl2, Henv2 in *.
  assert (Hfacts :
    cacheMisses (stats g2) = cacheMisses (stats (gl w)) /\
    cacheHits (stats g2) = cacheHits (stats (gl w)) /\
    bytesTransferred (stats g2) = bytesTransferred (stats (gl w)) /\
    dataUsed g2 = dataUsed (gl w) + n /\
    processed g2 = processed (gl w) /\
    processing g2 = processing (gl w) /\
    activeRequests g2 = activeRequests (gl w) /\
    broadcastChannel g2 = broadcastChannel (gl w) /\
    cache g2 = cache (enforceCacheLimit (gl w)) /\
    cacheAPI g2 = cacheAPI (enforceCacheLimit (gl w))).
  { rewrite Hg2, Hshape. by fields. }
  destruct Hfacts as (F1 & F2 & F3 & F4 & F5 & F6 & F7 & F8 & F9 & F10).
  assert (Ht2 : running (tasks w2) = <[i:=f2]> (<[i:=f1]> (running (tasks w))) /\
                requested (tasks w2) = u :: requested (tasks w) /\
                posted (tasks w2) = posted (tasks w)).
  { rewrite Hw2, Hw1. unfold set_phase. by fields. }
  destruct Ht2 as (T1 & T2 & T3).
  rewrite Hreq, T2. split; [done|]. split; [|split].
  - intros Hwr. unfold written in Hwr.
    apply andb_true_iff in Hwr as [-> Hst]. rewrite <- Hstores in Hst.
    destruct (cacheWrite_served (env w) u response md g2 Hst)
      as (Hin & stored & Hget & Hbody & _).
    unfold isInCache, getCachedResponse in *. rewrite Hc, Ha.
    split; [done|]. by exists stored.
  - intros Hwr. unfold written in Hwr. rewrite Hc, Ha, <- F9, <- F10.
    destruct arrived; [|done]. simpl in Hwr. rewrite <- Hstores in Hwr.
    destruct (cacheWrite_cases (env w) u response md g2)
      as [(_ & _ & ->) | [(Hyes & _) | (Hyes & _)]]; [done | congruence..].
  - rewrite Hm, Hh, Hd, Hb, Hpd, Hpg, Hact, Hr, Hpost, T1, T3.
    rewrite F1, F2, F3, F4, F5, F6, F7, F8, !list_delete_insert.
    split; [done|]. split; [done|]. split; [done|]. split; [done|].
    split; [apply elem_of_union_l; by apply elem_of_singleton|].
    split; [intros Hu; apply elem_of_difference in Hu as [_ Hu]; apply Hu;
            by apply elem_of_singleton|].
    by repeat split.
Qed.

(** X23.  A request that fails (the fetch is rejected, by the network or
    by the request timeout, or the response is not [ok]) stores nothing
    and counts neither a hit nor a miss; the URL is marked processed, so
    that it is not tried again in the session as long as [clearCache] is
    not called. *)
Theorem failed_fetch_is_not_retried w i f result evs :
  running (tasks w) !! i = Some f ->
  f_phase f = AwaitNetwork ->
  (result = Rejected \/ exists r, result = Resolved r /\ r_ok r = false) ->
  q_url (f_item f) ∉ q_url <$> delayed (tasks w) ->
  Forall (fun ev => is_clearCache ev = false) evs ->
  let u := q_url (f_item f) in
  let w1 := step w (EvResponse i result) in
  cache (gl w1) = cache (gl w) /\
  cacheAPI (gl w1) = cacheAPI (gl w) /\
  dataUsed (gl w1) = dataUsed (gl w) /\
  cacheHits (stats (gl w1)) = cacheHits (stats (gl w)) /\
  cacheMisses (stats (gl w1)) = cacheMisses (stats (gl w)) /\
  activeRequests (gl w1) = activeRequests (gl w) - 1 /\
  running (tasks w1) = delete i (running (tasks w)) /\
  u ∈ processed (gl w1) /\
  u ∈ processed (gl (run w1 evs)) /\
  exists new,
    dispatched (tasks (run w1 evs)) = new ++ dispatched (tasks w) /\ u ∉ new.
Proof.
  intros Hi Hphase Hfail Hheld Hevs u w1.
  assert (Hfacts :
    cache (gl w1) = cache (gl w) /\
    cacheAPI (gl w1) = cacheAPI (gl w) /\
    dataUsed (gl w1) = dataUsed (gl w) /\
    cacheHits (stats (gl w1)) = cacheHits (stats (gl w)) /\
    cacheMisses (stats (gl w1)) = cacheMisses (stats (gl w)) /\
    activeRequests (gl w1) = activeRequests (gl w) - 1 /\
    running (tasks w1) = delete i (running (tasks w)) /\
    u ∈ processed (gl w1) /\
    delayed (tasks w1) = delayed (tasks w) /\
    dispatched (tasks w1) = dispatched (tasks w)).
  { subst w1. cbn [step]. unfold responseArrived. rewrite Hi, Hphase.
    assert (Hu : u ∈ {[u]} ∪ processed (gl w))
      by (apply elem_of_union_l; by apply elem_of_singleton).
    destruct Hfail as [-> | (r & -> & Hr)]; rewrite ?Hr;
      unfold settle, end_task; fields; destruct (queue (gl w)); fields;
      by repeat split. }
  destruct Hfacts as (H1 & H2 & H3 & H4 & H5 & H6 & H7 & H8 & H9 & H10).
  repeat (split; [done|]).
  assert (Hs : settled u w1) by (split; [done | by rewrite H9]).
  destruct (run_quiet u evs w1 Hevs Hs) as [[Hp _] (new & Hnew & Hu)].
  split; [done|]. exists new. by rewrite Hnew, H10.
Qed.

End Pipeline.

(** ** Hover timers *)

Section MapEntries.
Context {K V : Type} `{EqDecision K}.

Lemma elem_of_map_delete (m : list (K * V)) k x :
  x ∈ map_delete k m <-> x ∈ m /\ x.1 <> k.
Proof.
  unfold map_delete. rewrite elem_of_filter_bool, negb_true_iff.
  by rewrite bool_decide_eq_false.
Qed.

Lemma elem_of_map_set (m : list (K * V)) k v x :
  NoDup m.*1 ->
  x ∈ map_set k v m <-> x = (k, v) \/ (x ∈ m /\ x.1 <> k).
Proof.
  induction m as [|[k' v'] m IH]; intros Hnd; cbn [map_set].
  { rewrite list_elem_of_singleton. split; [by left|].
    intros [-> | [Hx _]]; [done | by apply elem_of_nil in Hx]. }
  cbn [fmap list_fmap fst] in Hnd. apply NoDup_cons in Hnd as [Hk' Hnd].
  destruct (decide (k' = k)) as [->|Hne].
  - rewrite !elem_of_cons. split.
    + intros [-> | Hx]; [by left|]. right. split; [by right|].
      intros Heq. apply Hk'. rewrite <- Heq. by apply list_elem_of_fmap_2.
    + intros [-> | [[-> | Hx] Hxk]]; [by left | done | by right].
  - rewrite !elem_of_cons, (IH Hnd). split.
    + intros [-> | [-> | [Hx Hxk]]]; [right | by left | right].
      * split; [by left | done].
      * split; [by right | done].
    + intros [-> | [[-> | Hx] Hxk]]; [right; by left | by left |].
      right. right. by split.
Qed.

Lemma map_get_elem (m : list (K * V)) k v :
  NoDup m.*1 -> map_get k m = Some v <-> (k, v) ∈ m.
Proof.
  induction m as [|[k' v'] m IH]; intros Hnd; cbn [map_get].
  { split; [done | by intros Hx%elem_of_nil]. }
  cbn [fmap list_fmap fst] in Hnd. apply NoDup_cons in Hnd as [Hk' Hnd].
  rewrite elem_of_cons. destruct (decide (k' = k)) as [->|Hne].
  - split; [intros [= ->]; by left|].
    intros [[= ->] | Hx]; [done|].
    exfalso. apply Hk'. by apply (list_elem_of_fmap_2 fst _ (k, v)).
  - rewrite (IH Hnd). split; [by right|]. by intros [[= -> ->] | Hx].
Qed.

Lemma map_get_absent (m : list (K * V)) k v :
  map_get k m = None -> (k, v) ∉ m.
Proof.
  induction m as [|[k' v'] m IH]; cbn [map_get]; [by intros _ Hx%elem_of_nil|].
  destruct (decide (k' = k)) as [->|Hne]; [done|].
  intros Hm Hin. apply elem_of_cons in Hin as [[= -> ->] | Hin]; [done|].
  by apply IH.
Qed.

Lemma map_get_fresh (m : list (K * V)) k : k ∉ m.*1 -> map_get k m = None.
Proof.
  induction m as [|[k' v'] m IH]; intros Hk; cbn [map_get]; [done|].
  cbn [fmap list_fmap fst] in Hk. apply not_elem_of_cons in Hk as [Hne Hk].
  destruct (decide (k' = k)); [done | by apply IH].
Qed.

End MapEntries.

Section HoverTimers.
Context `{URLPlatform}.

Implicit Types (h : Hovering) (w : World).

(** [hoverTimeouts] holds the armed timers and no other: an element is
    mapped to [id] exactly when the timer [id] is armed for it; handles
    are not reused. *)
Definition hover_ok h : Prop :=
  NoDup (hoverTimeouts h).*1 /\
  NoDup (hoverTimers h).*1 /\
  (forall id, id ∈ (hoverTimers h).*1 -> (id < nextTimeout h)%nat) /\
  (forall node id,
     (node, id) ∈ hoverTimeouts h <->
     exists href, (id, (href, node)) ∈ hoverTimers h).

Lemma hovering_ok w : hover_ok (hovering w).
Proof.
  unfold hover_ok, hovering. cbn.
  split; [apply NoDup_nil_2|]. split; [apply NoDup_nil_2|].
  split; [by intros id Hid%elem_of_nil|].
  intros node id. split; [by intros Hx%elem_of_nil|].
  by intros [href Hx%elem_of_nil].
Qed.

(** The timer armed for an element is the one that the map holds. *)
Lemma armed_once h node old id href :
  hover_ok h -> (node, old) ∈ hoverTimeouts h ->
  (id, (href, node)) ∈ hoverTimers h -> id = old.
Proof.
  intros (Hn1 & _ & _ & Hbij) Hold Hin.
  assert (Hid : (node, id) ∈ hoverTimeouts h) by (apply Hbij; by exists href).
  apply (map_get_elem _ _ _ Hn1) in Hid, Hold. congruence.
Qed.

(** A timer is armed for one element. *)
Lemma armed_for h node node' id :
  hover_ok h -> (node, id) ∈ hoverTimeouts h -> (node', id) ∈ hoverTimeouts h ->
  node' = node.
Proof.
  intros (_ & Hn2 & _ & Hbij) H1 H2.
  apply Hbij in H1 as [href1 H1]. apply Hbij in H2 as [href2 H2].
  apply (map_get_elem _ _ _ Hn2) in H1, H2. congruence.
Qed.

(** Disarming the timer of [node]. *)
Lemma disarm_ok h w node old :
  hover_ok h -> (node, old) ∈ hoverTimeouts h ->
  hover_ok {| hv_world := w;
              hoverTimeouts := map_delete node (hoverTimeouts h);
              hoverTimers := map_delete old (hoverTimers h);
              nextTimeout := nextTimeout h |}.
Proof.
  intros Hh Hold. pose proof Hh as (Hn1 & Hn2 & Hfresh & Hbij).
  unfold hover_ok. cbn [hoverTimeouts hoverTimers nextTimeout].
  split; [by apply map_delete_keys|]. split; [by apply map_delete_keys|].
  split.
  { intros id Hid. apply Hfresh.
    apply list_elem_of_fmap in Hid as (x & -> & Hx).
    apply elem_of_map_delete in Hx as [Hx _]. by apply list_elem_of_fmap_2. }
  intros node' id. rewrite elem_of_map_delete. cbn [fst]. split.
  - intros [Hin Hne]. pose proof Hin as Hin'.
    apply Hbij in Hin as [href Hin]. exists href.
    apply elem_of_map_delete. split; [done|]. cbn [fst]. intros ->.
    apply Hne. by apply (armed_for h node node' old).
  - intros [href Hin]. apply elem_of_map_delete in Hin as [Hin Hne].
    cbn [fst] in Hne.
    split; [apply Hbij; by exists href|].
    intros ->. apply Hne. by apply (armed_once h node old id href).
Qed.

Lemma mouseenter_ok node target h : hover_ok h -> hover_ok (mouseenter node target h).
Proof.
  intros Hh. pose proof Hh as (Hn1 & Hn2 & Hfresh & Hbij).
  unfold mouseenter. cbv zeta.
  destruct (selector _ _); [|done].
  destruct (normalizeUrl _ _) as [href|]; [|done].
  destruct (_ && _); [|done].
  set (timers := match map_get node (hoverTimeouts h) with
                 | Some old => clearTimeout old (hoverTimers h)
                 | None => hoverTimers h
                 end).
  assert (Hsub : forall x, x ∈ timers -> x ∈ hoverTimers h).
  { intros x. subst timers. destruct (map_get node (hoverTimeouts h)); [|done].
    unfold clearTimeout. rewrite elem_of_map_delete. by intros [? _]. }
  assert (Hkeys : NoDup timers.*1).
  { subst timers. destruct (map_get node (hoverTimeouts h)); [|done].
    by apply map_delete_keys. }
  assert (Hother : forall n id,
    ((n, id) ∈ hoverTimeouts h /\ n <> node) <->
    exists href0, (id, (href0, n)) ∈ timers).
  { intros n id. subst timers.
    destruct (map_get node (hoverTimeouts h)) as [old|] eqn:Eold.
    - apply (map_get_elem _ _ _ Hn1) in Eold. unfold clearTimeout. split.
      + intros [Hin Hne]. pose proof Hin as Hin'.
        apply Hbij in Hin as [href0 Hin]. exists href0.
        apply elem_of_map_delete. split; [done|]. cbn [fst]. intros ->.
        apply Hne. by apply (armed_for h node n old).
      + intros [href0 Hin]. apply elem_of_map_delete in Hin as [Hin Hne].
        cbn [fst] in Hne. split; [apply Hbij; by exists href0|].
        intros ->. apply Hne. by apply (armed_once h node old id href0).
    - split.
      + intros [Hin _]. by apply Hbij.
      + intros Hin. apply Hbij in Hin. split; [done|].
        intros ->. by apply (map_get_absent _ _ id) in Eold. }
  unfold hover_ok. cbn [hoverTimeouts hoverTimers nextTimeout].
  split; [by apply map_set_keys|]. split; [|split].
  - rewrite fmap_app. apply NoDup_app. split; [done|].
    split; [|apply NoDup_singleton].
    intros id Hid Hnew%list_elem_of_singleton. cbn [fst] in Hnew. subst id.
    apply list_elem_of_fmap in Hid as (x & Hx & Hin).
    assert (x.1 < nextTimeout h)%nat; [|lia].
    apply Hfresh. by apply list_elem_of_fmap_2, Hsub.
  - intros id. rewrite fmap_app, elem_of_app. intros [Hid | Hid].
    + apply list_elem_of_fmap in Hid as (x & -> & Hin).
      assert (x.1 < nextTimeout h)%nat; [|lia].
      apply Hfresh. by apply list_elem_of_fmap_2, Hsub.
    + apply list_elem_of_singleton in Hid. cbn [fst] in Hid. lia.
  - intros n id. rewrite (elem_of_map_set _ _ _ _ Hn1). cbn [fst]. split.
    + intros [[= -> ->] | Hin].
      * exists (Some href). apply elem_of_app. right. by apply list_elem_of_singleton.
      * apply Hother in Hin as [href0 Hin]. exists href0.
        apply elem_of_app. by left.
    + intros [href0 Hin]. apply elem_of_app in Hin as [Hin | Hin].
      * right. apply Hother. by exists href0.
      * apply list_elem_of_singleton in Hin. injection Hin as -> _ ->. by left.
Qed.

Lemma mouseleave_ok node target h : hover_ok h -> hover_ok (mouseleave node target h).
Proof.
  intros Hh. unfold mouseleave. destruct (selector _ _); [|done].
  destruct (map_get node (hoverTimeouts h)) as [old|] eqn:Eold; [|done].
  apply disarm_ok; [done|]. by apply (map_get_elem _ _ _ (proj1 Hh)).
Qed.

Lemma hoverTimeout_ok id h : hover_ok h -> hover_ok (hoverTimeout id h).
Proof.
  intros Hh. pose proof Hh as (Hn1 & Hn2 & Hfresh & Hbij).
  unfold hoverTimeout.
  destruct (map_get id (hoverTimers h)) as [[href node]|] eqn:Eid; [|done].
  apply (map_get_elem _ _ _ Hn2) in Eid.
  apply disarm_ok; [done|]. apply Hbij. by exists href.
Qed.

Lemma hover_step_ok h ev : hover_ok h -> hover_ok (hover_step h ev).
Proof.
  intros Hh. destruct ev; cbn [hover_step].
  - by apply mouseenter_ok.
  - by apply mouseleave_ok.
  - by apply hoverTimeout_ok.
  - exact Hh.
Qed.

Lemma hover_run_ok evs : forall h, hover_ok h -> hover_ok (hover_run h evs).
Proof.
  induction evs as [|ev evs IH]; intros h Hh; [done|].
  apply IH. by apply hover_step_ok.
Qed.

(** X24.  In every state of the hover listeners, an element has at most
    one timer armed, [hoverTimeouts] maps an element to a handle exactly
    when that timer is armed for it (a timer that has fired or was
    disarmed leaves no entry behind), and handles are not reused. *)
Theorem hover_timers_are_tracked w evs :
  let h := hover_run (hovering w) evs in
  NoDup ((fun t => t.2.2) <$> hoverTimers h) /\
  NoDup (hoverTimers h).*1 /\
  NoDup (hoverTimeouts h).*1 /\
  (forall node id,
     (node, id) ∈ hoverTimeouts h <->
     exists href, (id, (href, node)) ∈ hoverTimers h) /\
  (forall id, id ∈ (hoverTimers h).*1 -> (id < nextTimeout h)%nat).
Proof.
  intros h.
  pose proof (hover_run_ok evs _ (hovering_ok w)) as Hh. fold h in Hh.
  pose proof Hh as (Hn1 & Hn2 & Hfresh & Hbij).
  split; [|done].
  apply NoDup_fmap_2_strong; [|by apply NoDup_fmap_1 in Hn2].
  intros [id1 [href1 node1]] [id2 [href2 node2]] Hin1 Hin2 Heq.
  cbn [snd] in Heq. subst node2.
  assert (H1 : (node1, id1) ∈ hoverTimeouts h) by (apply Hbij; by exists href1).
  assert (id2 = id1) as -> by by apply (armed_once h node1 id1 id2 href2).
  apply (map_get_elem _ _ _ Hn2) in Hin1, Hin2. congruence.
Qed.

(** X25.  When the pointer leaves a link that matches the selector, the
    timer armed for it is disarmed: no timer is left for the element, the
    engine is as it was, and the handle of the disarmed timer boosts
    nothing when its delay runs out. *)
Theorem hover_leave_cancels w evs node target :
  let h := hover_run (hovering w) evs in
  selector (config (gl (hv_world h))) target = true ->
  let h' := hover_step h (HvLeave node target) in
  hv_world h' = hv_world h /\
  (forall id href, (id, (href, node)) ∉ hoverTimers h') /\
  (forall id, (node, id) ∉ hoverTimeouts h') /\
  (forall id href, (id, (href, node)) ∈ hoverTimers h ->
     hover_step h' (HvTimeout id) = h').
Proof.
  intros h Hsel h'.
  pose proof (hover_run_ok evs _ (hovering_ok w)) as Hh. fold h in Hh.
  pose proof Hh as (Hn1 & Hn2 & Hfresh & Hbij).
  subst h'. cbn [hover_step]. unfold mouseleave. rewrite Hsel.
  destruct (map_get node (hoverTimeouts h)) as [old|] eqn:Eold.
  - apply (map_get_elem _ _ _ Hn1) in Eold.
    cbn [hv_world hoverTimers hoverTimeouts]. split; [done|].
    assert (Hgone : forall id href,
      (id, (href, node)) ∉ clearTimeout old (hoverTimers h)).
    { intros id href Hin. apply elem_of_map_delete in Hin as [Hin Hne].
      apply Hne. cbn [fst]. by apply (armed_once h node old id href). }
    split; [done|]. split.
    { intros id Hin. apply elem_of_map_delete in Hin as [_ Hne]. by apply Hne. }
    intros id href Hin. unfold hoverTimeout. cbn [hoverTimers].
    assert (id = old) as -> by by apply (armed_once h node old id href).
    unfold clearTimeout. by rewrite map_get_delete.
  - split; [done|].
    assert (Hnone : forall id href, (id, (href, node)) ∉ hoverTimers h).
    { intros id href Hin.
      assert (Hid : (node, id) ∈ hoverTimeouts h) by (apply Hbij; by exists href).
      by apply (map_get_absent _ _ id) in Eold. }
    split; [done|]. split; [intros id; by apply map_get_absent|].
    intros id href Hin. by apply Hnone in Hin.
Qed.

(** X26.  A hover that lasts: the timer that [mouseenter] arms, when it
    fires with the engine as it was, does what the hover event of the
    engine does, that is [boostPriority] on the normalized [href] of a
    link that passes the filters, and nothing on another element.
    Arming the timer leaves the engine as it is. *)
Theorem hover_boosts_after_delay w evs node target :
  let h := hover_run (hovering w) evs in
  let h1 := hover_step h (HvEnter node target) in
  let h2 := hover_step h1 (HvTimeout (nextTimeout h)) in
  hv_world h1 = hv_world h /\
  hv_world h2 = hoverBoost target (hv_world h) /\
  hv_world h2 = step (hv_world h) (EvHover target).
Proof.
  intros h h1 h2.
  pose proof (hover_run_ok evs _ (hovering_ok w)) as Hh. fold h in Hh.
  pose proof Hh as (Hn1 & Hn2 & Hfresh & Hbij).
  assert (Hnew : forall timers,
    (forall x, x ∈ timers -> x ∈ hoverTimers h) ->
    map_get (nextTimeout h) timers = None).
  { intros timers Hsub. apply map_get_fresh. intros Hin.
    apply list_elem_of_fmap in Hin as (x & Hx & Hin).
    assert (x.1 < nextTimeout h)%nat; [|lia].
    apply Hfresh. by apply list_elem_of_fmap_2, Hsub. }
  assert (Hidle : hoverTimeout (nextTimeout h) h = h).
  { unfold hoverTimeout. by rewrite Hnew. }
  cbn [step]. subst h2 h1. cbn [hover_step]. unfold mouseenter, hoverBoost.
  cbv zeta.
  destruct (selector _ _); [|by rewrite Hidle].
  destruct (normalizeUrl _ _) as [href|]; [|by rewrite Hidle].
  destruct (_ && _); [|by rewrite Hidle].
  split; [done|]. unfold hoverTimeout. cbn [hoverTimers hv_world].
  rewrite map_get_app_r; [done|]. apply Hnew.
  intros x. destruct (map_get node (hoverTimeouts h)); [|done].
  unfold clearTimeout. rewrite elem_of_map_delete. by intros [? _].
Qed.

End HoverTimers.

(** * The engine on concrete pages *)

Module Scenario.
Import MiniURL.

Ltac by_computation := apply (bool_decide_eq_true_1 _); vm_compute; reflexivity.

(** A visible link, 20 pixels high, [top] pixels below the top of the
    viewport. *)
Definition link (href : string) (top : Z) : Element :=
  {| e_tag := "a"; e_attrs := [("href", href)]; e_href := href;
     e_top := top; e_bottom := top + 20 |}.

Definition site (links : list Element) (metas : list MetaTag) : Page :=
  {| location_href := "https://site.test/";
     location_origin := "https://site.test";
     innerHeight := 800;
     elements := links; metaHints := metas; jsonLdScripts := [] |}.

(** A browser without [BroadcastChannel] and without the Cache API. *)
Definition browser (p : Page) (connection : option Connection) : Env :=
  {| clock := 1000; page := p; nav_connection := connection;
     has_BroadcastChannel := false; caches := None |}.

Definition a : string := "https://site.test/a".
Definition b : string := "https://site.test/b".
Definition c : string := "https://site.test/c".

Definition item_of (u : string) (priority : Z) : QueueItem :=
  {| q_url := Some u; q_element := None; q_priority := priority;
     q_timestamp := 0; q_source := None |}.

(** What [buildQueue] queues for [link u top] at time 1000. *)
Definition queued_link (u : string) (top : Z) : QueueItem :=
  {| q_url := Some u; q_element := Some (link u top); q_priority := top;
     q_timestamp := 1000; q_source := None |}.

Definition page_response : Response :=
  {| r_ok := true; r_status := 200; r_content_length := Some 512;
     r_headers := []; r_body := "<html></html>" |}.

Definition stamped (t : Z) : Metadata :=
  {| md_timestamp := Some t; md_version := Some "1.0"; md_size := Some 0 |}.

(** ** A high-priority hint and two links *)

Definition hinted : Env :=
  browser (site [link b 100; link c 200]
                [{| mt_content := Some "/a"; mt_priority := Some "high" |}])
          None.

(** [Ghostloader.init()] on that page, waiting in its initial delay. *)
Definition hinted_started : World := init hinted (fun o => o).

(** C1.  On a page with a [high] meta hint for [/a] and two visible links,
    the hint ingestor puts [/a] at the head of the queue, and the queue
    build that follows replaces the queue by the two links: [/a] is at no
    position of it, and once [start] is over [/a] is neither queued, nor
    held by the drain loop, nor fetched. *)
Theorem hint_lost_on_rebuild :
  q_url <$> queue (gl hinted_started) = [Some a] /\
  q_url <$> queue (buildQueue (env hinted_started) (gl hinted_started))
    = [Some b; Some c] /\
  let w := step hinted_started EvInitialDelayElapsed in
  isInitialized (gl w) = true /\
  q_url <$> queue (gl w) = [] /\
  q_url <$> delayed (tasks w) = [Some c] /\
  dispatched (tasks w) = [Some b].
Proof. vm_compute. repeat split. Qed.

(** ** Two links, one request at a time *)

Definition two_links : Env := browser (site [link a 10; link b 20] []) None.

(** The engine has started with [maxConcurrent = 1], the fetch of the
    first link is out, and the page calls [pause()]. *)
Definition paused : World :=
  run (init two_links (set_maxConcurrent 1)) [EvInitialDelayElapsed; EvPause].

(** C7.  After [pause()], and with no [resume()], the fetch in flight
    fails, its continuation timer fires, and the drain loop hands the next
    link to [fetchAndCache] although the pause flag is set. *)
Theorem dispatch_while_paused :
  isPaused (gl paused) = Some true /\
  dispatched (tasks paused) = [Some a] /\
  q_url <$> queue (gl paused) = [Some b] /\
  let w := run paused [EvCacheLookup 0%nat; EvResponse 0%nat Rejected; EvTimer] in
  isPaused (gl w) = Some true /\
  dispatched (tasks w) = [Some b; Some a] /\
  q_url <$> queue (gl w) = [].
Proof. vm_compute. repeat split. Qed.

(** ** A data limit of zero *)

Definition no_budget : World := created two_links (set_dataLimit 0).

(** C8.  With [dataLimit = 0], [withinDataLimits] is false from the
    start and nothing is fetched while the engine starts and time passes,
    but [getStats().dataUsagePercent] is ["NaN%"], from 0 / 0, and not
    ["0.00%"]; the hit rate next to it has its own guard and reads
    ["0%"]. *)
Theorem zero_limit_percent_is_NaN :
  withinDataLimits (gl no_budget) = false /\
  Snapshot.dataUsagePercent (getStats (env no_budget) (gl no_budget)) = "NaN%" /\
  let w := run no_budget [EvStart; EvInitialDelayElapsed; EvTick 5000] in
  withinDataLimits (gl w) = false /\
  dispatched (tasks w) = [] /\
  requested (tasks w) = [] /\
  Snapshot.dataUsagePercent (getStats (env w) (gl w)) = "NaN%" /\
  Snapshot.cacheHitRate (getStats (env w) (gl w)) = "0%".
Proof. vm_compute. repeat split. Qed.

(** The fresh engine with a zero limit is starved, so the lemma on
    exhausted budgets covers every run from it. *)
Lemma no_budget_starved : starved no_budget.
Proof. by vm_compute. Qed.

(** With [connectionAware] off the limit is not consulted. *)
Example zero_limit_unchecked :
  dispatched (tasks (run (created two_links
                (fun o => set_connectionAware false (set_dataLimit 0 o)))
              [EvStart; EvInitialDelayElapsed])) = [Some a].
Proof. reflexivity. Qed.

(** ** Three links on a connection that degrades *)

Definition on4g : Connection :=
  {| effectiveType := Some "4g"; downlink := None; saveData := false |}.
Definition on2g : Connection :=
  {| effectiveType := Some "2g"; downlink := None; saveData := false |}.

Definition three_links : Env :=
  browser (site [link a 10; link b 20; link c 30] []) (Some on4g).

(** On 4g the default engine has its three requests in flight. *)
Definition saturated : World :=
  run (init three_links (fun o => o))
      [EvInitialDelayElapsed; EvBetweenDelayElapsed 0%nat;
       EvBetweenDelayElapsed 0%nat].

(** The connection then drops to 2g: the cap is 1 and three requests are
    still counted. *)
Lemma downgrade_exceeds_cap :
  activeRequests (gl saturated) = 3 /\ cap saturated = 3 /\
  let w := step saturated (EvConnectionChange on2g) in
  activeRequests (gl w) = 3 /\ cap w = 1 /\
  ~ (activeRequests (gl w) <= cap w).
Proof. vm_compute. repeat split. by intros []. Qed.

Lemma activeRequests_within_cap_witness :
  let evs := [EvCacheLookup 0%nat; EvResponse 0%nat Rejected; EvTimer;
              EvBoost (Some c)] in
  activeRequests (gl saturated) <= cap saturated /\
  cap_covers saturated evs /\
  Forall (fun ev => steady ev = true) evs /\
  activeRequests (gl (run saturated evs)) <= cap (run saturated evs) /\
  cap (run saturated evs) = cap saturated.
Proof.
  intros evs.
  assert (H0 : activeRequests (gl saturated) <= cap saturated)
    by (by vm_compute).
  assert (Hs : Forall (fun ev => steady ev = true) evs)
    by (by repeat constructor).
  assert (Hc : cap_covers saturated evs)
    by (by apply steady_cap_covers).
  destruct (activeRequests_within_cap saturated evs H0) as (Hrun & Hsteady & _).
  split; [exact H0|]. split; [exact Hc|]. split; [exact Hs|].
  split; [exact (Hrun Hc) | exact (proj1 (Hsteady Hs))].
Defined.

(** ** One link, fetched, then the caches are cleared *)

Definition one_link : Env := browser (site [link a 10] []) None.

(** The link has been fetched (the request failed): it is processed. *)
Definition fetched : World :=
  run (init one_link (fun o => o))
      [EvInitialDelayElapsed; EvCacheLookup 0%nat; EvResponse 0%nat Rejected].

(** After [clearCache()] a rebuild queues the link again and it is
    fetched a second time. *)
Lemma refetched_after_clearCache :
  Some a ∈ processed (gl fetched) /\
  dispatched (tasks fetched) = [Some a] /\
  dispatched (tasks (run fetched [EvClearCache; EvTransition]))
    = [Some a; Some a].
Proof. split; [by_computation | by vm_compute]. Qed.

Lemma processed_never_fetched_again_witness :
  let evs := [EvTransition; EvProcessQueue; EvHover (link a 10);
              EvMessage (CacheUpdate (Some b) 0); EvResume] in
  Some a ∈ processed (gl fetched) /\
  dispatched (tasks (run fetched evs)) = dispatched (tasks fetched) /\
  Some a ∈ processed (gl (run fetched evs)).
Proof.
  intros evs.
  assert (Hp : Some a ∈ processed (gl fetched)) by by_computation.
  assert (Hd : Some a ∉ q_url <$> delayed (tasks fetched)) by by_computation.
  assert (He : Forall (fun ev => is_clearCache ev = false) evs)
    by (by repeat constructor).
  destruct (processed_never_fetched_again fetched (Some a) evs Hp Hd He)
    as (_ & Hp' & _).
  split; [exact Hp|]. split; [vm_compute; reflexivity | exact Hp'].
Defined.

(** ** Cache limits *)

(** A page without links, at time 1000. *)
Definition blank : Env := browser (site [] []) None.

Definition entry (t : Z) : url * CacheEntry :=
  (Some (JS.toString t),
   {| c_url := Some (JS.toString t); c_content := ""; c_timestamp := t;
      c_version := "1.0"; c_size := 0 |}).


(** Three links and a cache of two entries at most; the three requests
    are in flight. *)
Definition three_fetches : World :=
  run (init three_links (set_cacheMaxSize 2))
      [EvInitialDelayElapsed; EvBetweenDelayElapsed 0%nat;
       EvBetweenDelayElapsed 0%nat;
       EvCacheLookup 0%nat; EvCacheLookup 1%nat; EvCacheLookup 2%nat].

Definition arrives (i : nat) : Event := EvResponse i (Resolved page_response).

(** With [cacheMaxSize = 2], three responses arrive before the first
    body has been read: each [storeInCache] call runs its eviction pass
    on an empty cache and then waits for its body, and the three writes
    that follow leave three entries, one more than the limit, when every
    call is over.  The same three responses, each stored before the next
    one arrives, leave one entry: the eviction pass of the third call
    finds two. *)
Lemma interleaved_stores_exceed_limit :
  cacheMaxSize (config (gl three_fetches)) = 2 /\
  cacheEntries (gl three_fetches) = 0 /\
  let w := run three_fetches
             [arrives 0; arrives 1; arrives 2;
              EvBodyRead 0%nat; EvBodyRead 0%nat; EvBodyRead 0%nat] in
  running (tasks w) = [] /\
  cacheKeys (gl w) = [Some a; Some b; Some c] /\
  cacheEntries (gl w) = 3 /\
  ~ (cacheEntries (gl w) <= cacheMaxSize (config (gl w))) /\
  let w' := run three_fetches
              [arrives 0; EvBodyRead 0%nat; arrives 0; EvBodyRead 0%nat;
               arrives 0; EvBodyRead 0%nat] in
  running (tasks w') = [] /\
  cacheKeys (gl w') = [Some c].
Proof. vm_compute. repeat split. by intros []. Qed.



(** ** Expiration *)

(** A response that carries an [x-cached-timestamp] header of its own:
    the first millisecond of the year 2100. *)
Definition shadowed : Response :=
  {| r_ok := true; r_status := 200; r_content_length := None;
     r_headers := [("x-cached-timestamp", "4102444800000")];
     r_body := "<html></html>" |}.

(** One millisecond past the default expiration of an entry written at
    time 1000. *)
Definition later : Z := 1000 + 24 * 60 * 60 * 1000 + 1.

Definition stored_in (g : Ghostloader) (response : Response) : World :=
  {| env := blank;
     gl := storeInCache blank (Some a) response (stamped 1000) g;
     tasks := noTasks |}.

Definition checked_later (w : World) : World :=
  cacheLookupDone 0 (upd_env (set_clock later) (fetchAndCache (item_of a 0) w)).

(** C6.  The response is stored at time 1000 and [fetchAndCache] is
    called for its URL one millisecond past the expiration.  From the
    fallback map the entry is expired: no hit is counted and the request
    goes out.  From the platform cache the stored response has kept its
    own [x-cached-timestamp], which [isCacheExpired] reads before the
    [x-ghostloader-timestamp] that [storeInCache] has written: the entry
    counts as a hit and nothing is requested. *)
Theorem shadowed_timestamp_served :
  let memory := newGhostloader 0 in
  let platform := set_cacheAPI (Some []) (newGhostloader 0) in
  cacheExpiration (config memory) < later - writeTimestamp 1000 (stamped 1000) /\
  (let w := checked_later (stored_in memory shadowed) in
   cacheHits (stats (gl w)) = 0 /\ requested (tasks w) = [Some a]) /\
  (let w := checked_later (stored_in platform shadowed) in
   (exists stored,
      getCachedResponse (gl w) (Some a) = Some stored /\
      map_get "x-ghostloader-timestamp" (r_headers stored) = Some "1000" /\
      map_get "x-cached-timestamp" (r_headers stored) = Some "4102444800000") /\
   cacheHits (stats (gl w)) = 1 /\
   requested (tasks w) = [] /\
   running (tasks w) = []).
Proof.
  vm_compute. split; [done|]. split; [done|]. split; [|done]. by eexists.
Qed.

Lemma expired_entry_on_site :
  let g := newGhostloader 0 in
  let w := checked_later (stored_in g page_response) in
  cacheExpiration (config g) < later - writeTimestamp 1000 (stamped 1000) /\
  requested (tasks w) = [Some a] /\
  cacheHits (stats (gl w)) = 0.
Proof.
  intros g w.
  assert (Hlate : cacheExpiration (config g)
                  < later - writeTimestamp (clock blank) (stamped 1000))
    by (by vm_compute).
  destruct (expired_entry_is_refetched blank (Some a) page_response (stamped 1000)
              g later (stored_in g page_response) (item_of a 0)
              (or_introl eq_refl) eq_refl Hlate eq_refl eq_refl)
    as (_ & _ & Hreq & Hhits & _).
  split; [exact Hlate|]. split; [exact Hreq | exact Hhits].
Qed.

(** ** Hover boost *)

Definition d : string := "https://site.test/d".
Definition e : string := "https://site.test/e".








(** ** The normalizer *)

(** The fragment goes, a reference from the root is resolved against the
    page, and what comes out goes through unchanged. *)
Example normalizeUrl_on_site :
  normalizeUrl two_links "https://site.test/c#x" = Some c /\
  normalizeUrl two_links "/c#x" = Some c /\
  normalizeUrl hinted c = Some c.
Proof. repeat split; reflexivity. Qed.

End Scenario.

(** * Further properties on concrete pages *)

Module Cases.
Import MiniURL.
Import Scenario.

Ltac computed := vm_compute; reflexivity.

(** A browser with [BroadcastChannel], and one with the platform cache
    as well. *)
Definition shared (p : Page) : Env :=
  {| clock := 1000; page := p; nav_connection := None;
     has_BroadcastChannel := true; caches := None |}.

Definition with_cache (p : Page) : Env :=
  {| clock := 1000; page := p; nav_connection := None;
     has_BroadcastChannel := true; caches := Some [] |}.

Definition task_of (u : string) (top : Z) (phase : FetchPhase) : Fetch :=
  {| f_item := queued_link u top; f_start := 1000; f_phase := phase |}.

(** A response that varies on every request header: [Cache.put] takes
    none of those. *)
Definition varying : Response :=
  {| r_ok := true; r_status := 200; r_content_length := Some 512;
     r_headers := [("vary", "accept-encoding, *")];
     r_body := "<html></html>" |}.

(** An engine on the platform cache, empty. *)
Definition on_platform : Ghostloader := set_cacheAPI (Some []) (newGhostloader 0).

(** ** The cache *)



Lemma fresh_entry_is_hit_witness :
  let w := cacheLookupDone 0
             (upd_env (set_clock 2000)
                (fetchAndCache (item_of a 0) (stored_in on_platform page_response))) in
  plainResponse page_response /\
  stores blank (Some a) page_response (stamped 1000) on_platform = true /\
  2000 - writeTimestamp 1000 (stamped 1000) <= cacheExpiration (config on_platform) /\
  cacheHits (stats (gl w)) = 1 /\
  requested (tasks w) = [] /\
  Some a ∈ processed (gl w).
Proof.
  intros w.
  assert (Hplain : plainResponse page_response) by reflexivity.
  assert (Hstores : stores blank (Some a) page_response (stamped 1000) on_platform
                    = true) by computed.
  assert (Hfresh : 2000 - writeTimestamp (clock blank) (stamped 1000)
                   <= cacheExpiration (config on_platform)) by (by vm_compute).
  destruct (fresh_entry_is_hit blank (Some a) page_response (stamped 1000)
              on_platform 2000 (stored_in on_platform page_response) (item_of a 0)
              (or_intror Hplain) Hstores Hfresh eq_refl eq_refl)
    as (Hhits & _ & _ & Hreq & _ & _ & _ & Hdone & _).
  split; [exact Hplain|]. split; [exact Hstores|]. split; [exact Hfresh|].
  split; [exact Hhits|]. split; [exact Hreq | exact Hdone].
Defined.

(** Twelve responses in the platform cache and a limit of 11: the pass
    deletes the eleven oldest keys and leaves the last one. *)
Definition platform_store : list (url * Response) :=
  (fun t => (Some (JS.toString t), page_response)) <$> seqZ 1 12.

Lemma platform_eviction_is_fifo_witness :
  let g := set_cacheAPI (Some platform_store)
             (configure (set_cacheMaxSize 11) (newGhostloader 0)) in
  NoDup platform_store.*1 /\
  cacheMaxSize (config g) <= Z.of_nat (length platform_store) /\
  cacheAPI (enforceCacheLimit g) = Some [(Some "12", page_response)].
Proof.
  intros g.
  assert (Hkeys : NoDup platform_store.*1) by by_computation.
  assert (Hfull : cacheMaxSize (config g) <= Z.of_nat (length platform_store))
    by (by vm_compute).
  split; [exact Hkeys|]. split; [exact Hfull|].
  exact (proj1 (platform_eviction_is_fifo g platform_store eq_refl Hkeys Hfull)).
Defined.

(** ** The queue builder *)

Lemma buildQueue_same_origin_witness :
  let g := newGhostloader 0 in
  let item := queued_link a 10 in
  cacheMode (config g) = "local" /\
  item ∈ queue (buildQueue two_links g) /\
  exists link href urlObj,
    link ∈ elements (page two_links) /\
    selector (config g) link = true /\
    normalizeUrl two_links (e_href link) = Some href /\
    q_url item = Some href /\
    URL_new href None = Some urlObj /\
    URL_origin urlObj = location_origin (page two_links) /\
    shouldExclude (config g) link href = false /\
    e_top link < innerHeight (page two_links) /\ 0 < e_bottom link.
Proof.
  intros g item.
  assert (Hin : item ∈ queue (buildQueue two_links g))
    by (apply (list_elem_of_lookup_2 _ 0%nat); computed).
  split; [reflexivity|]. split; [exact Hin|].
  exact (buildQueue_same_origin two_links g item eq_refl Hin).
Defined.

Lemma buildQueue_over_budget_witness :
  let g := configure (set_dataLimit 0) (newGhostloader 0) in
  connectionAware (config g) = true /\
  withinDataLimits g = false /\
  queue (buildQueue two_links g) = [].
Proof.
  intros g.
  split; [reflexivity|]. split; [reflexivity|].
  exact (buildQueue_over_budget two_links g eq_refl eq_refl).
Defined.

Lemma default_exclusions_are_honoured_witness :
  let g := configure (set_maxConcurrent 1) (newGhostloader 0) in
  let item := queued_link b 20 in
  item ∈ queue (buildQueue two_links g) /\
  exists link href,
    q_element item = Some link /\ q_url item = Some href /\
    has_attr "download" link = false /\
    attr_is "target" "_blank" link = false /\
    attr_starts "href" "mailto:" link = false /\
    attr_starts "href" "tel:" link = false /\
    attr_starts "href" "#" link = false /\
    has_class "no-preload" link = false /\
    (forall ext,
       ext ∈ ["pdf"; "zip"; "doc"; "docx"; "xls"; "xlsx"; "ppt"; "pptx";
              "jpg"; "jpeg"; "png"; "gif"; "svg"; "webp"] ->
       ends_with ("." +:+ ext) (lowercase href) = false) /\
    String.prefix "javascript:" href = false /\
    String.prefix "data:" href = false.
Proof.
  intros g item.
  assert (Hin : item ∈ queue (buildQueue two_links g))
    by (apply (list_elem_of_lookup_2 _ 1%nat); computed).
  split; [exact Hin|].
  exact (default_exclusions_are_honoured two_links g item eq_refl eq_refl Hin).
Defined.

(** ** The event loop *)

Lemma no_concurrent_duplicates_witness :
  let evs := [EvStart; EvInitialDelayElapsed; EvBetweenDelayElapsed 0%nat;
              EvHover (link a 10); EvTransition; EvProcessQueue] in
  let w := run (created three_links (fun o => o)) evs in
  Forall (fun ev => is_clearCache ev = false) evs /\
  inflight w = [Some a; Some b; Some c] /\
  NoDup (inflight w).
Proof.
  intros evs w.
  assert (Hevs : Forall (fun ev => is_clearCache ev = false) evs)
    by (repeat constructor).
  split; [exact Hevs|]. split; [computed|].
  exact (proj1 (no_concurrent_duplicates three_links (fun o => o) evs Hevs)).
Defined.

(** Another tab announces [a] before the initial delay is over: this tab
    fetches [b] only. *)
Lemma announced_url_not_fetched_witness :
  let w := init (shared (site [link a 10; link b 20] [])) (fun o => o) in
  let evs := [EvInitialDelayElapsed; EvBetweenDelayElapsed 0%nat] in
  let w1 := step w (EvMessage (CacheUpdate (Some a) 5)) in
  broadcastChannel (gl w) = true /\
  dispatched (tasks (run w evs)) = [Some b; Some a] /\
  dispatched (tasks (run w1 evs)) = [Some b] /\
  Some a ∈ processed (gl (run w1 evs)).
Proof.
  intros w evs w1.
  assert (Hquiet : Some a ∉ q_url <$> delayed (tasks w))
    by (vm_compute; apply not_elem_of_nil).
  assert (Hevs : Forall (fun ev => is_clearCache ev = false) evs)
    by (repeat constructor).
  destruct (announced_url_not_fetched w (Some a) 5 evs eq_refl Hquiet Hevs)
    as (_ & Hdone & _).
  split; [reflexivity|]. split; [computed|]. split; [computed | exact Hdone].
Defined.

(** A limit of 100 bytes and a first response of 512: nothing more is
    fetched, whatever the page shows afterwards. *)
Lemma exhausted_budget_never_fetches_witness :
  let w := run (init one_link (set_dataLimit 100))
               [EvInitialDelayElapsed; EvCacheLookup 0%nat;
                EvResponse 0%nat (Resolved page_response); EvBodyRead 0%nat] in
  let evs := [EvPage (site [link b 10; link c 20] []); EvTransition;
              EvProcessQueue; EvConnectionChange on4g; EvStart;
              EvInitialDelayElapsed] in
  Forall (fun ev => keeps_budget ev = true) evs /\
  exhausted w /\
  dataUsed (gl w) = 512 /\
  requested (tasks (run w evs)) = [Some a].
Proof.
  intros w evs.
  assert (Hevs : Forall (fun ev => keeps_budget ev = true) evs)
    by (repeat constructor).
  assert (Hw : exhausted w).
  { split; [computed|]. split; [by vm_compute|]. split; computed. }
  destruct (exhausted_budget_never_fetches evs w Hevs Hw) as (_ & Hreq & _).
  split; [exact Hevs|]. split; [exact Hw|]. split; [computed|].
  rewrite Hreq. computed.
Defined.

Definition saver : Connection :=
  {| effectiveType := Some "4g"; downlink := None; saveData := true |}.

Lemma data_saver_never_fetches_witness :
  let w := init (browser (site [link a 10; link b 20] []) (Some saver))
                (fun o => o) in
  let evs := [EvInitialDelayElapsed; EvTransition; EvClearCache;
              EvProcessQueue; EvHover (link a 10)] in
  Forall (fun ev => keeps_connection ev = true) evs /\
  saving w /\
  dispatched (tasks (run w evs)) = [] /\
  requested (tasks (run w evs)) = [].
Proof.
  intros w evs.
  assert (Hevs : Forall (fun ev => keeps_connection ev = true) evs)
    by (repeat constructor).
  assert (Hw : saving w).
  { split; [computed|]. split; [exists saver; split; computed|].
    split; [|split; computed].
    intros c0 Hc. vm_compute in Hc. injection Hc as <-. reflexivity. }
  destruct (data_saver_never_fetches evs w Hevs Hw) as (Hout & Hreq & _).
  split; [exact Hevs|]. split; [exact Hw|].
  split; [rewrite Hout | rewrite Hreq]; computed.
Defined.

(** ** One fetch, from the cache lookup to the stored body *)

(** On the platform cache, the same request with a response that is
    stored and with one that [put] refuses: the refused one is counted
    and announced all the same. *)
Lemma fetch_pipeline_caches_witness :
  let w := run (init (with_cache (site [link a 10] [])) (fun o => o))
               [EvInitialDelayElapsed] in
  let taken := run w [EvCacheLookup 0%nat;
                      EvResponse 0%nat (Resolved page_response);
                      EvBodyRead 0%nat] in
  let refused := run w [EvCacheLookup 0%nat;
                        EvResponse 0%nat (Resolved varying);
                        EvBodyRead 0%nat] in
  running (tasks w) !! 0%nat = Some (task_of a 10 (AwaitCache None)) /\
  requested (tasks taken) = [Some a] /\
  isInCache (gl taken) (Some a) = true /\
  dataUsed (gl taken) = 512 /\
  activeRequests (gl taken) = 0 /\
  running (tasks taken) = [] /\
  cacheAPI (gl refused) = Some [] /\
  cacheMisses (stats (gl refused)) = 1 /\
  posted (tasks refused) = [CacheUpdate (Some a) 1000].
Proof.
  intros w taken refused.
  assert (Hf : running (tasks w) !! 0%nat = Some (task_of a 10 (AwaitCache None)))
    by computed.
  destruct (fetch_pipeline_caches w 0%nat (task_of a 10 (AwaitCache None))
              None page_response true Hf eq_refl
              (fun r (H : None = Some r) => ltac:(discriminate H)) eq_refl)
    as (Hreq & Hin & _ & _ & _ & Hdata & _ & _ & _ & Hact & Hrun & _).
  destruct (fetch_pipeline_caches w 0%nat (task_of a 10 (AwaitCache None))
              None varying true Hf eq_refl
              (fun r (H : None = Some r) => ltac:(discriminate H)) eq_refl)
    as (_ & _ & Hkept & Hmiss & _ & _ & _ & _ & _ & _ & _ & Hpost).
  split; [exact Hf|]. split; [exact Hreq|].
  split; [apply Hin; computed|].
  split; [exact Hdata|]. split; [exact Hact|]. split; [exact Hrun|].
  split; [|split].
  - transitivity (cacheAPI (enforceCacheLimit (gl w))); [|computed].
    apply Hkept. computed.
  - transitivity (cacheMisses (stats (gl w)) + 1); [exact Hmiss | computed].
  - etransitivity; [exact Hpost | computed].
Defined.

Lemma failed_fetch_is_not_retried_witness :
  let w := run (init one_link (fun o => o))
               [EvInitialDelayElapsed; EvCacheLookup 0%nat] in
  let evs := [EvTransition; EvProcessQueue; EvHover (link a 10)] in
  let w1 := step w (EvResponse 0%nat Rejected) in
  running (tasks w) !! 0%nat = Some (task_of a 10 AwaitNetwork) /\
  cache (gl w1) = [] /\
  Some a ∈ processed (gl (run w1 evs)) /\
  dispatched (tasks (run w1 evs)) = [Some a].
Proof.
  intros w evs w1.
  assert (Hf : running (tasks w) !! 0%nat = Some (task_of a 10 AwaitNetwork))
    by computed.
  assert (Hquiet : q_url (f_item (task_of a 10 AwaitNetwork))
                     ∉ q_url <$> delayed (tasks w))
    by (vm_compute; apply not_elem_of_nil).
  assert (Hevs : Forall (fun ev => is_clearCache ev = false) evs)
    by (repeat constructor).
  destruct (failed_fetch_is_not_retried w 0%nat (task_of a 10 AwaitNetwork)
              Rejected evs Hf eq_refl (or_introl eq_refl) Hquiet Hevs)
    as (Hcache & _ & _ & _ & _ & _ & _ & _ & Hdone & _).
  split; [exact Hf|]. split; [exact Hcache|]. split; [exact Hdone | computed].
Defined.

(** ** Hovering *)

Lemma hover_leave_cancels_witness :
  let h := hover_run (hovering (init one_link (fun o => o)))
                     [HvEnter 1%nat (link a 10)] in
  let h' := hover_step h (HvLeave 1%nat (link a 10)) in
  hoverTimers h = [(1%nat, (Some a, 1%nat))] /\
  selector (config (gl (hv_world h))) (link a 10) = true /\
  hv_world h' = hv_world h /\
  hover_step h' (HvTimeout 1%nat) = h'.
Proof.
  intros h h'.
  assert (Hlink : selector (config (gl (hv_world h))) (link a 10) = true)
    by computed.
  destruct (hover_leave_cancels (init one_link (fun o => o))
              [HvEnter 1%nat (link a 10)] 1%nat (link a 10) Hlink)
    as (Hworld & _ & _ & Hdead).
  split; [computed|]. split; [exact Hlink|]. split; [exact Hworld|].
  apply (Hdead 1%nat (Some a)). by_computation.
Defined.

End Cases.
